(** * Mini-Alexa live session: codec, playback scheduler and message dispatch

    A shallow embedding of [services/geminiService.ts] (class [LiveSession]
    and the shared client), of the handlers of [hooks/useSpeech.ts], and of
    what [App.tsx], [components/ReminderList.tsx] and
    [components/LivePulse.tsx] compute.

    Conventions of the embedding.
    - A JS string is a Rocq [string]: every string the modelled code builds
      or inspects is a "binary string" or base64 text, whose code units fit
      in 8 bits.
    - An [ArrayBuffer] / [Uint8Array] is a [list byte]; typed-array views
      are read on a little-endian host.
    - Float samples are exact rationals [Q]. Every finite Float32 is a
      dyadic rational, and the products and quotients the codec computes on
      one are exact in double precision, so the codec loses nothing to this;
      NaN and the infinities are outside the model.
    - Device-clock times and durations are rationals too; here the rounding
      of the double-precision additions on the cursor is not modelled, and
      what is stated of the cursor is what one addition gives and how the
      results are ordered.
    - The numbers of the application component and of the pulse are doubles:
      an operation is the exact one followed by the host's rounding (module
      [Number]).
    - Host calls that can raise are threaded through an error-and-state
      monad with an event log; what the host decides (device clock, which
      call raises) is an explicit parameter, and so is what a callback of
      the caller returns.
    - [await]: a continuation runs after the synchronous code that was
      running when it was queued. [playAudioChunk] is therefore split at its
      [await], and [handleMessage] runs the second half when it yields. *)

From Stdlib Require Import ZArith NArith QArith Qabs Lia Lqa.
From Stdlib Require Import Qround Qminmax DecimalString.
From Stdlib Require Import Ascii String.
From Stdlib.Strings Require Import Byte.
From stdpp Require Import base option list gmap strings.

Local Open Scope string_scope.
Local Open Scope list_scope.

(** * Part I: the program *)

(** ** Host exceptions *)

Inductive exn : Type :=
| InvalidCharacterError   (* atob on text that is not base64 *)
| RangeError              (* typed-array view over a buffer of the wrong size *)
| NotSupportedError       (* createBuffer with a zero length *)
| TypeError               (* property read on undefined *)
| HostError.              (* an error raised by a host object or a callback *)

Inductive result (A : Type) : Type :=
| Ok (a : A)
| Throw (e : exn).
Arguments Ok {A} a.
Arguments Throw {A} e.

(** ** Binary <-> transport text (host functions [btoa] and [atob]) *)

Module Base64.

Definition alphabet : list ascii :=
  list_ascii_of_string
    "ABCDEFGHIJKLMNOPQRSTUVWXYZabcdefghijklmnopqrstuvwxyz0123456789+/".

Definition pad : ascii := "="%char.

Definition encode_sextet (n : N) : ascii := nth (N.to_nat n) alphabet pad.

Definition decode_char (c : ascii) : option N :=
  let n := N_of_ascii c in
  if (65 <=? n)%N && (n <=? 90)%N then Some (n - 65)%N
  else if (97 <=? n)%N && (n <=? 122)%N then Some (n - 71)%N
  else if (48 <=? n)%N && (n <=? 57)%N then Some (n + 4)%N
  else if (n =? 43)%N then Some 62%N
  else if (n =? 47)%N then Some 63%N
  else None.

Definition is_pad (c : ascii) : bool := (N_of_ascii c =? 61)%N.

(** TAB, LF, FF, CR and SPACE. *)
Definition is_ascii_whitespace (c : ascii) : bool :=
  let n := N_of_ascii c in
  (n =? 9)%N || (n =? 10)%N || (n =? 12)%N || (n =? 13)%N || (n =? 32)%N.

(** [btoa]: three 8-bit code units become four alphabet characters; a
    last group of one or two code units is padded with [=]. *)
Fixpoint encode_groups (l : list ascii) : list ascii :=
  match l with
  | [] => []
  | a :: l1 =>
      let A := N_of_ascii a in
      match l1 with
      | [] =>
          [encode_sextet (A / 4); encode_sextet ((A mod 4) * 16); pad; pad]
      | b :: l2 =>
          let B := N_of_ascii b in
          match l2 with
          | [] =>
              [encode_sextet (A / 4);
               encode_sextet ((A mod 4) * 16 + B / 16);
               encode_sextet ((B mod 16) * 4); pad]
          | c :: rest =>
              let C := N_of_ascii c in
              encode_sextet (A / 4)
                :: encode_sextet ((A mod 4) * 16 + B / 16)
                :: encode_sextet ((B mod 16) * 4 + C / 64)
                :: encode_sextet (C mod 64)
                :: encode_groups rest
          end
      end
  end%N.

Definition btoa (binary : string) : string :=
  string_of_list_ascii (encode_groups (list_ascii_of_string binary)).

Definition decode2 (c1 c2 : ascii) : option (list ascii) :=
  match decode_char c1, decode_char c2 with
  | Some s1, Some s2 => Some [ascii_of_N (s1 * 4 + s2 / 16)]
  | _, _ => None
  end%N.

Definition decode3 (c1 c2 c3 : ascii) : option (list ascii) :=
  match decode_char c1, decode_char c2, decode_char c3 with
  | Some s1, Some s2, Some s3 =>
      Some [ascii_of_N (s1 * 4 + s2 / 16);
            ascii_of_N ((s2 mod 16) * 16 + s3 / 4)]
  | _, _, _ => None
  end%N.

Definition decode4 (c1 c2 c3 c4 : ascii) (tl : option (list ascii))
  : option (list ascii) :=
  match decode_char c1, decode_char c2, decode_char c3, decode_char c4, tl with
  | Some s1, Some s2, Some s3, Some s4, Some out =>
      Some (ascii_of_N (s1 * 4 + s2 / 16)
              :: ascii_of_N ((s2 mod 16) * 16 + s3 / 4)
              :: ascii_of_N ((s3 mod 4) * 64 + s4)
              :: out)
  | _, _, _, _, _ => None
  end%N.

(** Forgiving base64 decoding, on text from which whitespace is gone.
    Padding is only accepted at the end of a text whose length is a
    multiple of four, that is, in the last group of four; a text of
    length 1 modulo 4 is refused; every other character has to be in the
    alphabet; the bits left over in a short last group are dropped. *)
Fixpoint decode_groups (l : list ascii) : option (list ascii) :=
  match l with
  | [] => Some []
  | c1 :: l1 =>
      match l1 with
      | [] => None
      | c2 :: l2 =>
          match l2 with
          | [] => decode2 c1 c2
          | c3 :: l3 =>
              match l3 with
              | [] => decode3 c1 c2 c3
              | c4 :: rest =>
                  match rest with
                  | [] =>
                      if is_pad c4 then
                        if is_pad c3 then decode2 c1 c2 else decode3 c1 c2 c3
                      else decode4 c1 c2 c3 c4 (Some [])
                  | _ :: _ => decode4 c1 c2 c3 c4 (decode_groups rest)
                  end
              end
          end
      end
  end.

Definition atob (base64 : string) : option string :=
  let data :=
    List.filter (fun c => negb (is_ascii_whitespace c))
                (list_ascii_of_string base64) in
  option_map string_of_list_ascii (decode_groups data).

End Base64.

(** ** [LiveSession] helpers: the two transport conversions *)

Definition ArrayBuffer : Type := list byte.

(** [arrayBufferToBase64]: the loop appends [String.fromCharCode(bytes[i])]
    to [binary], then [btoa]. *)
Definition arrayBufferToBase64 (buffer : ArrayBuffer) : string :=
  let binary :=
    fold_left (fun acc b => String.append acc (String (ascii_of_byte b) EmptyString))
              buffer EmptyString in
  Base64.btoa binary.

(** [base64ToArrayBuffer]: [atob] raises on malformed text; the loop stores
    [binaryString.charCodeAt(i)] at index [i]. *)
Definition base64ToArrayBuffer (base64 : string) : result ArrayBuffer :=
  match Base64.atob base64 with
  | None => Throw InvalidCharacterError
  | Some binaryString =>
      Ok (List.map byte_of_ascii (list_ascii_of_string binaryString))
  end.

(** ** PCM codec *)

Local Open Scope Z_scope.

(** [Math.min] and [Math.max] on finite numbers. *)
Definition Math_min (a b : Q) : Q := if Qle_bool a b then a else b.
Definition Math_max (a b : Q) : Q := if Qle_bool a b then b else a.

(** The clamp of [floatTo16BitPCM]: [Math.max(-1, Math.min(1, x))]. *)
Definition clamp (x : Q) : Q := Math_max (-1) (Math_min 1 x).

(** The number-to-Int16 conversion done by [DataView.setInt16]: truncate
    towards zero, reduce modulo 2^16, read the 16 bits as two's complement. *)
Definition ToInt16 (x : Q) : Z :=
  let int := Z.quot (Qnum x) (Zpos (Qden x)) in
  let int16bit := int mod 65536 in
  if 32768 <=? int16bit then int16bit - 65536 else int16bit.

Definition byte_of_Z (z : Z) : byte :=
  match Byte.of_N (Z.to_N (z mod 256)) with
  | Some b => b
  | None => Byte.x00
  end.

(** [view.setInt16(offset, value, true)]: low byte first. *)
Definition setInt16_le (value : Q) : list byte :=
  let v := ToInt16 value in [byte_of_Z v; byte_of_Z (v / 256)].

(** The value [floatTo16BitPCM] hands to [setInt16] for one sample. *)
Definition scale_sample (x : Q) : Q :=
  let s := clamp x in
  if negb (Qle_bool 0 s) then (s * 32768)%Q else (s * 32767)%Q.

Definition floatTo16BitPCM (float32Array : list Q) : ArrayBuffer :=
  flat_map (fun x => setInt16_le (scale_sample x)) float32Array.

(** One element of an [Int16Array] view (little-endian host). *)
Definition int16_of_bytes (lo hi : byte) : Z :=
  let u := Z.of_N (Byte.to_N lo) + 256 * Z.of_N (Byte.to_N hi) in
  if 32768 <=? u then u - 65536 else u.

Fixpoint int16_elements (buf : list byte) : list Z :=
  match buf with
  | lo :: hi :: rest => int16_of_bytes lo hi :: int16_elements rest
  | _ => []
  end.

(** [new Int16Array(arrayBuffer)] raises a RangeError when the byte length
    is not a multiple of two. *)
Definition Int16Array (arrayBuffer : ArrayBuffer) : result (list Z) :=
  if Nat.even (length arrayBuffer) then Ok (int16_elements arrayBuffer)
  else Throw RangeError.

Record AudioBuffer : Type := {
  sampleRate : positive;
  channelData : list Q
}.

(** [audioBuffer.duration]: frames over sample rate, in seconds. *)
Definition duration (b : AudioBuffer) : Q :=
  Z.of_nat (length (channelData b)) # sampleRate b.

(** [context.createBuffer(1, length, sampleRate)] refuses a zero length. *)
Definition createBuffer (frames : nat) (rate : positive) : result unit :=
  match frames with
  | O => Throw NotSupportedError
  | S _ => Ok tt
  end.

(** The samples [pcmToAudioBuffer] computes: [int16Array[i] / 32768.0]. *)
Definition pcm16ToFloat (arrayBuffer : ArrayBuffer) : result (list Q) :=
  match Int16Array arrayBuffer with
  | Throw e => Throw e
  | Ok int16Array => Ok (List.map (fun v => (inject_Z v / 32768)%Q) int16Array)
  end.

Definition pcmToAudioBuffer (arrayBuffer : ArrayBuffer) : result AudioBuffer :=
  match pcm16ToFloat arrayBuffer with
  | Throw e => Throw e
  | Ok float32Array =>
      match createBuffer (length float32Array) 24000 with
      | Throw e => Throw e
      | Ok _ => Ok {| sampleRate := 24000; channelData := float32Array |}
      end
  end.

(** What one sample becomes after encoding and decoding. *)
Definition quantize (x : Q) : Q := (inject_Z (ToInt16 (scale_sample x)) / 32768)%Q.

Definition quantum : Q := 1 # 32768.

(** ** Types of the live service ([types.ts] and the remote message shapes) *)

Inductive LiveConnectionState : Type :=
| DISCONNECTED | CONNECTING | CONNECTED | ERROR.

(** A JS value, as far as tool arguments and tool results need one. *)
#[warnings="-register-all"]
Inductive jsval : Type :=
| JUndefined
| JNull
| JBool (b : bool)
| JNumber (q : Q)
| JString (s : string)
| JArray (items : list jsval)
| JObject (fields : list (string * jsval)).

(** One function call of a tool-call message; the mapped [toolCalls]
    entries of [handleMessage] carry the same three fields. *)
Record ToolCallData : Type := {
  name : option string;
  args : jsval;
  id : option string
}.

Record FunctionResponse : Type := {
  fr_id : option string;
  fr_name : option string;
  response : jsval
}.

Record Transcription : Type := { text : option string }.

Record ServerContent : Type := {
  (** [modelTurn?.parts?.[0]?.inlineData?.data] *)
  audioData : option string;
  interrupted : bool;
  inputTranscription : option Transcription;
  outputTranscription : option Transcription;
  turnComplete : bool
}.

Record LiveServerMessage : Type := {
  serverContent : option ServerContent;
  (** [toolCall.functionCalls] *)
  toolCall : option (list ToolCallData)
}.

(** The caller's callbacks. Each is optional, and a callback is code of the
    caller: it returns or raises. *)
Record LiveConfig : Type := {
  onToolCall : option (list ToolCallData -> result (list jsval));
  onStateChange : option (LiveConnectionState -> result unit);
  onVolumeChange : option (Q -> Q -> result unit);
  onCaption : option (string -> bool -> bool -> result unit)
}.

(** ** The session object and the host around it *)

Record AudioContext : Type := { contextRate : positive }.

(** Host objects the session only holds on to. *)
Inductive MediaStreamAudioSourceNode : Type := MicSource.
Inductive ScriptProcessorNode : Type := Processor.
Inductive RemoteSession : Type := SessionPromise.
Inductive HTMLCanvasElement : Type := Canvas.

(** The private fields of [LiveSession]. An [AudioBufferSourceNode] is known
    by the number the host gave it when it was created; timer handles are
    positive, as [setInterval] returns them. *)
Record LiveSession : Type := {
  session : option RemoteSession;
  inputAudioContext : option AudioContext;
  outputAudioContext : option AudioContext;
  inputSource : option MediaStreamAudioSourceNode;
  processor : option ScriptProcessorNode;
  nextStartTime : Q;
  scheduledSources : gset nat;
  active : bool;
  videoInterval : option positive;
  videoCanvas : option HTMLCanvasElement
}.

(** A session right after its constructor ran. *)
Definition new_LiveSession : LiveSession := {|
  session := None;
  inputAudioContext := None;
  outputAudioContext := None;
  inputSource := None;
  processor := None;
  nextStartTime := 0;
  scheduledSources := ∅;
  active := false;
  videoInterval := None;
  videoCanvas := None
|}.

(** The session together with the host's count of source nodes created. *)
Record World : Type := {
  this : LiveSession;
  nodesCreated : nat
}.

Inductive audioContextRole : Type := InputContext | OutputContext.
Inductive graphNode : Type := ProcessorNode | InputSourceNode.

(** What the session does to the outside, in order. *)
Inductive event : Type :=
| StateChange (state : LiveConnectionState)
| Caption (text : string) (isUser isComplete : bool)
| VolumeChange (userVolume modelVolume : Q)
| ToolCall (toolCalls : list ToolCallData)
| SendToolResponse (functionResponses : list FunctionResponse)
| SourceStart (source : nat) (when : Q)
| SourceStop (source : nat)
| SetTimeout (delay : Q)
| SetInterval (timer : positive) (delay : Q)
| ClearInterval (timer : positive)
| ContextCreate (role : audioContextRole)
| ContextClose (role : audioContextRole)
| NodeDisconnect (node : graphNode)
| ChannelOpen
| ChannelClose
| ConsoleError (message : string).

(** Host calls that may raise, and what the host decides during one call
    into the session. *)
Inductive hostCall : Type :=
| CallGetUserMedia
| CallCreateBufferSource
| CallConnectDestination
| CallSourceStart
| CallSourceStop (source : nat).

Record Host : Type := {
  currentTime : Q;
  raises : hostCall -> bool
}.

(** ** Error-and-state monad with an event log *)

Definition M (A : Type) : Type := World -> result A * World * list event.

Definition ret {A} (a : A) : M A := fun w => (Ok a, w, []).

Definition bind {A B} (m : M A) (k : A -> M B) : M B :=
  fun w =>
    match m w with
    | (Ok a, w1, e1) =>
        match k a w1 with
        | (r, w2, e2) => (r, w2, e1 ++ e2)
        end
    | (Throw e, w1, e1) => (Throw e, w1, e1)
    end.

Definition throw {A} (e : exn) : M A := fun w => (Throw e, w, []).

(** [try { body } catch (e) { handler e }] *)
Definition try_catch {A} (body : M A) (handler : exn -> M A) : M A :=
  fun w =>
    match body w with
    | (Ok a, w1, e1) => (Ok a, w1, e1)
    | (Throw e, w1, e1) =>
        match handler e w1 with
        | (r, w2, e2) => (r, w2, e1 ++ e2)
        end
    end.

(** Run [m] and hand back how it ended instead of propagating it: the
    settled promise of an async call. *)
Definition settle {A} (m : M A) : M (result A) :=
  fun w => match m w with (r, w1, e1) => (Ok r, w1, e1) end.

Definition lift {A} (r : result A) : M A := fun w => (r, w, []).

Definition emit (ev : event) : M unit := fun w => (Ok tt, w, [ev]).

Definition get_this : M LiveSession := fun w => (Ok (this w), w, []).

Definition set_this (f : LiveSession -> LiveSession) : M unit :=
  fun w => (Ok tt, {| this := f (this w); nodesCreated := nodesCreated w |}, []).

Definition host_call (h : Host) (c : hostCall) : M unit :=
  if raises h c then throw HostError else ret tt.

Declare Scope session_scope.
Delimit Scope session_scope with session.
Notation "x <- m ;; k" := (bind m (fun x => k))
  (at level 20, m at level 99, k at level 200, only parsing) : session_scope.
Notation "m ;; k" := (bind m (fun _ => k))
  (at level 100, k at level 200, right associativity, only parsing)
  : session_scope.
Local Open Scope session_scope.

Definition when (b : bool) (m : M unit) : M unit := if b then m else ret tt.

(** Field updates, one per assignment in the source. *)
Definition with_session v (s : LiveSession) : LiveSession :=
  {| session := v; inputAudioContext := inputAudioContext s;
     outputAudioContext := outputAudioContext s; inputSource := inputSource s;
     processor := processor s; nextStartTime := nextStartTime s;
     scheduledSources := scheduledSources s; active := active s;
     videoInterval := videoInterval s; videoCanvas := videoCanvas s |}.
Definition with_inputAudioContext v (s : LiveSession) : LiveSession :=
  {| session := session s; inputAudioContext := v;
     outputAudioContext := outputAudioContext s; inputSource := inputSource s;
     processor := processor s; nextStartTime := nextStartTime s;
     scheduledSources := scheduledSources s; active := active s;
     videoInterval := videoInterval s; videoCanvas := videoCanvas s |}.
Definition with_outputAudioContext v (s : LiveSession) : LiveSession :=
  {| session := session s; inputAudioContext := inputAudioContext s;
     outputAudioContext := v; inputSource := inputSource s;
     processor := processor s; nextStartTime := nextStartTime s;
     scheduledSources := scheduledSources s; active := active s;
     videoInterval := videoInterval s; videoCanvas := videoCanvas s |}.
Definition with_inputSource v (s : LiveSession) : LiveSession :=
  {| session := session s; inputAudioContext := inputAudioContext s;
     outputAudioContext := outputAudioContext s; inputSource := v;
     processor := processor s; nextStartTime := nextStartTime s;
     scheduledSources := scheduledSources s; active := active s;
     videoInterval := videoInterval s; videoCanvas := videoCanvas s |}.
Definition with_processor v (s : LiveSession) : LiveSession :=
  {| session := session s; inputAudioContext := inputAudioContext s;
     outputAudioContext := outputAudioContext s; inputSource := inputSource s;
     processor := v; nextStartTime := nextStartTime s;
     scheduledSources := scheduledSources s; active := active s;
     videoInterval := videoInterval s; videoCanvas := videoCanvas s |}.
Definition with_nextStartTime v (s : LiveSession) : LiveSession :=
  {| session := session s; inputAudioContext := inputAudioContext s;
     outputAudioContext := outputAudioContext s; inputSource := inputSource s;
     processor := processor s; nextStartTime := v;
     scheduledSources := scheduledSources s; active := active s;
     videoInterval := videoInterval s; videoCanvas := videoCanvas s |}.
Definition with_scheduledSources v (s : LiveSession) : LiveSession :=
  {| session := session s; inputAudioContext := inputAudioContext s;
     outputAudioContext := outputAudioContext s; inputSource := inputSource s;
     processor := processor s; nextStartTime := nextStartTime s;
     scheduledSources := v; active := active s;
     videoInterval := videoInterval s; videoCanvas := videoCanvas s |}.
Definition with_active v (s : LiveSession) : LiveSession :=
  {| session := session s; inputAudioContext := inputAudioContext s;
     outputAudioContext := outputAudioContext s; inputSource := inputSource s;
     processor := processor s; nextStartTime := nextStartTime s;
     scheduledSources := scheduledSources s; active := v;
     videoInterval := videoInterval s; videoCanvas := videoCanvas s |}.
Definition with_videoInterval v (s : LiveSession) : LiveSession :=
  {| session := session s; inputAudioContext := inputAudioContext s;
     outputAudioContext := outputAudioContext s; inputSource := inputSource s;
     processor := processor s; nextStartTime := nextStartTime s;
     scheduledSources := scheduledSources s; active := active s;
     videoInterval := v; videoCanvas := videoCanvas s |}.
Definition with_videoCanvas v (s : LiveSession) : LiveSession :=
  {| session := session s; inputAudioContext := inputAudioContext s;
     outputAudioContext := outputAudioContext s; inputSource := inputSource s;
     processor := processor s; nextStartTime := nextStartTime s;
     scheduledSources := scheduledSources s; active := active s;
     videoInterval := videoInterval s; videoCanvas := v |}.

(** ** [LiveSession] methods *)

(** [this.config.onX?.(...)]: nothing happens without a callback. *)
Definition call_onStateChange (cfg : LiveConfig) (state : LiveConnectionState)
  : M unit :=
  match onStateChange cfg with
  | None => ret tt
  | Some f => emit (StateChange state) ;; lift (f state)
  end.

Definition call_onVolumeChange (cfg : LiveConfig) (user model : Q) : M unit :=
  match onVolumeChange cfg with
  | None => ret tt
  | Some f => emit (VolumeChange user model) ;; lift (f user model)
  end.

Definition call_onCaption (cfg : LiveConfig) (text : string)
  (isUser isComplete : bool) : M unit :=
  match onCaption cfg with
  | None => ret tt
  | Some f => emit (Caption text isUser isComplete) ;; lift (f text isUser isComplete)
  end.

Fixpoint forEach {A} (l : list A) (f : A -> M unit) : M unit :=
  match l with
  | [] => ret tt
  | x :: rest => f x ;; forEach rest f
  end.

Definition stopVideoStream : M unit :=
  s <- get_this ;;
  match videoInterval s with
  | Some timer =>
      emit (ClearInterval timer) ;; set_this (with_videoInterval None)
  | None => ret tt
  end ;;
  set_this (with_videoCanvas None).

(** The flush of the playback scheduler. [SourceStop source] records the
    call [source.stop()], which the host may answer with an exception. The
    order in which [forEach] visits the set is not modelled. *)
Definition stopAudioPlayback (h : Host) : M unit :=
  s <- get_this ;;
  forEach (elements (scheduledSources s))
    (fun source =>
       try_catch (emit (SourceStop source) ;; host_call h (CallSourceStop source))
                 (fun _ => ret tt)) ;;
  set_this (with_scheduledSources ∅) ;;
  set_this (with_nextStartTime 0).

(** The world a flush leaves behind. *)
Definition flushed (w : World) : World :=
  {| this := with_nextStartTime 0 (with_scheduledSources ∅ (this w));
     nodesCreated := nodesCreated w |}.

Definition stop (h : Host) : M unit :=
  set_this (with_active false) ;;
  stopVideoStream ;;
  stopAudioPlayback h ;;
  s <- get_this ;;
  match inputAudioContext s with
  | Some _ =>
      emit (ContextClose InputContext) ;; set_this (with_inputAudioContext None)
  | None => ret tt
  end ;;
  s <- get_this ;;
  match outputAudioContext s with
  | Some _ =>
      emit (ContextClose OutputContext) ;; set_this (with_outputAudioContext None)
  | None => ret tt
  end ;;
  s <- get_this ;;
  match processor s with
  | Some _ => emit (NodeDisconnect ProcessorNode) ;; set_this (with_processor None)
  | None => ret tt
  end ;;
  s <- get_this ;;
  match inputSource s with
  | Some _ =>
      emit (NodeDisconnect InputSourceNode) ;; set_this (with_inputSource None)
  | None => ret tt
  end ;;
  s <- get_this ;;
  match session s with
  | Some _ => emit ChannelClose ;; set_this (with_session None)
  | None => ret tt
  end.

(** [connect], with the microphone request as the one host call that can
    fail; the channel's callbacks are the transitions below. *)
Definition connect (cfg : LiveConfig) (h : Host) : M unit :=
  s <- get_this ;;
  if active s then ret tt
  else
    try_catch
      (call_onStateChange cfg CONNECTING ;;
       emit (ContextCreate InputContext) ;;
       set_this (with_inputAudioContext (Some {| contextRate := 16000 |})) ;;
       emit (ContextCreate OutputContext) ;;
       set_this (with_outputAudioContext (Some {| contextRate := 24000 |})) ;;
       host_call h CallGetUserMedia ;;
       emit ChannelOpen ;;
       set_this (with_session (Some SessionPromise)))
      (fun _ =>
         emit (ConsoleError "Failed to connect live session") ;;
         call_onStateChange cfg ERROR ;;
         stop h).

Definition startAudioInput : M unit :=
  s <- get_this ;;
  match inputAudioContext s with
  | None => ret tt
  | Some _ =>
      set_this (with_inputSource (Some MicSource)) ;;
      set_this (with_processor (Some Processor))
  end.

Definition onopen (cfg : LiveConfig) : M unit :=
  call_onStateChange cfg CONNECTED ;;
  set_this (with_active true) ;;
  startAudioInput.

Definition onclose (cfg : LiveConfig) (h : Host) : M unit :=
  call_onStateChange cfg DISCONNECTED ;;
  stop h.

Definition onerror (cfg : LiveConfig) (h : Host) : M unit :=
  emit (ConsoleError "Live API Error:") ;;
  call_onStateChange cfg ERROR ;;
  stop h.

(** [startVideoStream]; [timer] is the handle [setInterval] returns. *)
Definition startVideoStream (timer : positive) : M unit :=
  s <- get_this ;;
  match session s, videoInterval s with
  | Some _, None =>
      set_this (with_videoCanvas (Some Canvas)) ;;
      emit (SetInterval timer (1000 / 2)) ;;
      set_this (with_videoInterval (Some timer))
  | _, _ => ret tt
  end.

(** *** Playback *)

Definition Qlt_bool (a b : Q) : bool := negb (Qle_bool b a).

Definition createBufferSource (h : Host) : M nat :=
  host_call h CallCreateBufferSource ;;
  fun w => (Ok (nodesCreated w),
            {| this := this w; nodesCreated := S (nodesCreated w) |}, []).

(** The body of [playAudioChunk] after the [await]: create and connect the
    source, bring a starved cursor up to the device clock, start the source
    at the cursor, advance the cursor, track the source, tell the
    visualizer. The cursor advances by the exact sum, where the program's
    [+=] rounds the sum to a double. *)
Definition scheduleBuffer (cfg : LiveConfig) (h : Host) (audioBuffer : AudioBuffer)
  : M unit :=
  s <- get_this ;;
  match outputAudioContext s with
  | None => throw TypeError
  | Some _ =>
      source <- createBufferSource h ;;
      host_call h CallConnectDestination ;;
      s <- get_this ;;
      when (Qlt_bool (nextStartTime s) (currentTime h))
           (set_this (with_nextStartTime (currentTime h))) ;;
      s <- get_this ;;
      host_call h CallSourceStart ;;
      emit (SourceStart source (nextStartTime s)) ;;
      set_this (fun s => with_nextStartTime (nextStartTime s + duration audioBuffer) s) ;;
      set_this (fun s => with_scheduledSources ({[source]} ∪ scheduledSources s) s) ;;
      call_onVolumeChange cfg 0 (4 # 10) ;;
      emit (SetTimeout (duration audioBuffer * 1000))
  end.

(** [source.onended]: a chunk that played to its end leaves the tracking. *)
Definition onended (source : nat) : M unit :=
  set_this (fun s => with_scheduledSources (scheduledSources s ∖ {[source]}) s).

Definition logPlaybackError : exn -> M unit :=
  fun _ => emit (ConsoleError "Error playing audio chunk").

(** [playAudioChunk] up to its [await]: the base64 text is decoded at once
    and [pcmToAudioBuffer], an async function without an await of its own,
    has run to its result, kept as the settled promise. [None]: nothing is
    pending (no output context, or [atob] raised and was logged). *)
Definition playAudioChunk_begin (base64Audio : string)
  : M (option (result AudioBuffer)) :=
  s <- get_this ;;
  match outputAudioContext s with
  | None => ret None
  | Some _ =>
      try_catch
        (arrayBuffer <- lift (base64ToArrayBuffer base64Audio) ;;
         ret (Some (pcmToAudioBuffer arrayBuffer)))
        (fun e => logPlaybackError e ;; ret None)
  end.

(** [playAudioChunk] from its [await] on, still inside the same [try]. *)
Definition playAudioChunk_resume (cfg : LiveConfig) (h : Host)
  (promise : result AudioBuffer) : M unit :=
  try_catch
    (audioBuffer <- lift promise ;;
     scheduleBuffer cfg h audioBuffer)
    logPlaybackError.

Definition playAudioChunk (cfg : LiveConfig) (h : Host) (base64Audio : string)
  : M unit :=
  pending <- playAudioChunk_begin base64Audio ;;
  match pending with
  | None => ret tt
  | Some promise => playAudioChunk_resume cfg h promise
  end.

(** Decoding alone: lines one and two of the [try] block. *)
Definition decodeChunk (base64Audio : string) : result AudioBuffer :=
  match base64ToArrayBuffer base64Audio with
  | Throw e => Throw e
  | Ok arrayBuffer => pcmToAudioBuffer arrayBuffer
  end.

(** Enqueueing decoded chunks one after the other, each at its own device
    time. *)
Definition enqueue (cfg : LiveConfig) (h : Host) (chunk : AudioBuffer) : M unit :=
  playAudioChunk_resume cfg h (Ok chunk).

Fixpoint enqueueAll (cfg : LiveConfig) (chunks : list (Host * AudioBuffer))
  : M unit :=
  match chunks with
  | [] => ret tt
  | (h, chunk) :: rest => enqueue cfg h chunk ;; enqueueAll cfg rest
  end.

(** Host calls of one enqueue that could raise before the chunk is started. *)
Definition no_playback_fault (h : Host) : Prop :=
  raises h CallCreateBufferSource = false /\
  raises h CallConnectDestination = false /\
  raises h CallSourceStart = false.

(** Where the cursor stands once a starved cursor has been brought up to the
    device time [now]. *)
Definition cursorAt (now cursor : Q) : Q :=
  if Qlt_bool cursor now then now else cursor.

(** The start times a run of enqueues gives, from the cursor it finds. *)
Fixpoint scheduleFrom (cursor : Q) (chunks : list (Host * AudioBuffer)) : list Q :=
  match chunks with
  | [] => []
  | (h, chunk) :: rest =>
      let start := cursorAt (currentTime h) cursor in
      start :: scheduleFrom (start + duration chunk) rest
  end.

(** The ordering of the start times of consecutive chunks: never earlier
    than the previous start nor than the previous chunk's end; exactly the
    previous end when the device time has not passed it, and the device time
    when it has. *)
Definition back_to_back (chunks : list (Host * AudioBuffer)) (starts : list Q)
  : Prop :=
  forall i h chunk h' chunk' start start',
    chunks !! i = Some (h, chunk) ->
    chunks !! S i = Some (h', chunk') ->
    starts !! i = Some start ->
    starts !! S i = Some start' ->
    (start <= start')%Q /\
    (start + duration chunk <= start')%Q /\
    ((currentTime h' <= start + duration chunk)%Q ->
     start' = (start + duration chunk)%Q) /\
    ((start + duration chunk < currentTime h')%Q -> start' = currentTime h').

Definition startTimes (evs : list event) : list Q :=
  omap (fun ev => match ev with SourceStart _ t => Some t | _ => None end) evs.

Definition startedSources (evs : list event) : list nat :=
  omap (fun ev => match ev with SourceStart src _ => Some src | _ => None end) evs.

(** *** Message handling *)

(** JS truthiness of an optional string: [undefined] and the empty string
    are falsy. *)
Definition truthy (s : option string) : option string :=
  match s with
  | Some EmptyString => None
  | other => other
  end.

(** Step 2 of [handleMessage]: the interruption branch. *)
Definition handleInterruption (cfg : LiveConfig) (h : Host) : M unit :=
  stopAudioPlayback h ;;
  call_onCaption cfg "[Interrupted]" false true.

(** Step 3: input (user) and output (model) transcriptions. *)
Definition handleTranscriptions (cfg : LiveConfig) (sc : ServerContent) : M unit :=
  match inputTranscription sc with
  | Some t =>
      match truthy (text t) with
      | Some txt => call_onCaption cfg txt true (turnComplete sc)
      | None => ret tt
      end
  | None => ret tt
  end ;;
  match outputTranscription sc with
  | Some t =>
      match truthy (text t) with
      | Some txt => call_onCaption cfg txt false (turnComplete sc)
      | None => ret tt
      end
  | None => ret tt
  end.

(** [functionCalls.map(fc => ({ name: fc.name, args: fc.args, id: fc.id }))] *)
Definition mapToolCalls (functionCalls : list ToolCallData) : list ToolCallData :=
  List.map (fun fc => {| name := name fc; args := args fc; id := id fc |})
           functionCalls.

(** [results.map((result, index) => ...)], from [index] on. Reading
    [toolCalls[index].id] past the end of [toolCalls] is a TypeError. *)
Fixpoint functionResponsesFrom (toolCalls : list ToolCallData) (index : nat)
  (results : list jsval) : result (list FunctionResponse) :=
  match results with
  | [] => Ok []
  | result :: rest =>
      match toolCalls !! index with
      | None => Throw TypeError
      | Some tc =>
          match functionResponsesFrom toolCalls (S index) rest with
          | Throw e => Throw e
          | Ok tail =>
              Ok ({| fr_id := id tc; fr_name := name tc;
                     response := JObject [("result", result)] |} :: tail)
          end
      end
  end.

Definition functionResponses (toolCalls : list ToolCallData) (results : list jsval)
  : result (list FunctionResponse) :=
  functionResponsesFrom toolCalls 0 results.

(** Step 4 up to its first [await]: the dispatcher is called with the whole
    batch; what is awaited is its settled promise. *)
Definition dispatchToolCalls (cfg : LiveConfig) (message : LiveServerMessage)
  : M (option (list ToolCallData * result (list jsval))) :=
  match toolCall message with
  | None => ret None
  | Some functionCalls =>
      let toolCalls := mapToolCalls functionCalls in
      match onToolCall cfg with
      | None => ret None
      | Some dispatcher =>
          emit (ToolCall toolCalls) ;;
          ret (Some (toolCalls, dispatcher toolCalls))
      end
  end.

(** Step 4 after the [await]s: one [sendToolResponse] with the batch. *)
Definition sendToolResponses
  (awaited : option (list ToolCallData * result (list jsval))) : M unit :=
  match awaited with
  | None => ret tt
  | Some (toolCalls, promise) =>
      results <- lift promise ;;
      responses <- lift (functionResponses toolCalls results) ;;
      emit (SendToolResponse responses)
  end.

(** Step 1: [if (audioData && this.outputAudioContext) this.playAudioChunk(audioData)],
    which runs [playAudioChunk] up to its [await]. *)
Definition beginPlayback (message : LiveServerMessage)
  : M (option (result AudioBuffer)) :=
  s <- get_this ;;
  match serverContent message with
  | Some sc =>
      match truthy (audioData sc), outputAudioContext s with
      | Some audio, Some _ => playAudioChunk_begin audio
      | _, _ => ret None
      end
  | None => ret None
  end.

(** Steps 2 and 3. *)
Definition handleServerContent (cfg : LiveConfig) (h : Host)
  (message : LiveServerMessage) : M unit :=
  match serverContent message with
  | Some sc =>
      when (interrupted sc) (handleInterruption cfg h) ;;
      handleTranscriptions cfg sc
  | None => ret tt
  end.

(** What [handleMessage] does before it first yields: it starts
    [playAudioChunk], then handles the interruption and the transcriptions
    and calls the tool dispatcher. The result keeps the pending playback and
    how the handler has ended so far. *)
Definition handleMessage_sync (cfg : LiveConfig) (h : Host)
  (message : LiveServerMessage)
  : M (option (result AudioBuffer) *
       result (option (list ToolCallData * result (list jsval)))) :=
  pending <- beginPlayback message ;;
  handler <-
    settle (handleServerContent cfg h message ;;
            dispatchToolCalls cfg message) ;;
  ret (pending, handler).

(** The continuations, in the order the job queue runs them: the pending
    playback is scheduled first, then the tool responses go out. *)
Definition handleMessage_async (cfg : LiveConfig) (h : Host)
  (state : option (result AudioBuffer) *
           result (option (list ToolCallData * result (list jsval))))
  : M unit :=
  match fst state with
  | None => ret tt
  | Some promise => playAudioChunk_resume cfg h promise
  end ;;
  awaited <- lift (snd state) ;;
  sendToolResponses awaited.

Definition handleMessage (cfg : LiveConfig) (h : Host)
  (message : LiveServerMessage) : M unit :=
  state <- handleMessage_sync cfg h message ;;
  handleMessage_async cfg h state.

Definition sentBatches (evs : list event) : list (list FunctionResponse) :=
  omap (fun ev => match ev with SendToolResponse b => Some b | _ => None end) evs.

Definition captions (evs : list event) : list (string * bool * bool) :=
  omap (fun ev => match ev with
                  | Caption t u c => Some (t, u, c)
                  | _ => None
                  end) evs.

(** The caption callback, when there is one, returns normally. *)
Definition captions_return (cfg : LiveConfig) : Prop :=
  forall f txt u c, onCaption cfg = Some f -> f txt u c = Ok tt.

(** A caption that step 3 emits for the transcriptions of [sc]. *)
Definition transcriptionCaption (sc : ServerContent) (c : string * bool * bool)
  : Prop :=
  (exists t, inputTranscription sc = Some t /\
             c = (default EmptyString (truthy (text t)), true, turnComplete sc)) \/
  (exists t, outputTranscription sc = Some t /\
             c = (default EmptyString (truthy (text t)), false, turnComplete sc)).

(** The state the caller was last told through [onStateChange]. *)
Definition reportedState (initial : LiveConnectionState) (evs : list event)
  : LiveConnectionState :=
  fold_left (fun st ev => match ev with StateChange st' => st' | _ => st end)
            evs initial.

Definition is_StateChange (ev : event) : bool :=
  match ev with StateChange _ => true | _ => false end.

(** Concrete collaborators used to run the model: callbacks that return,
    a host that refuses nothing, a connected session that plays. *)
Definition quietConfig : LiveConfig := {|
  onToolCall := None;
  onStateChange := Some (fun _ => Ok tt);
  onVolumeChange := Some (fun _ _ => Ok tt);
  onCaption := Some (fun _ _ _ => Ok tt)
|}.

Definition hostAt (now : Q) : Host :=
  {| currentTime := now; raises := fun _ => false |}.

Definition playingSession (cursor : Q) (sources : gset nat) : LiveSession := {|
  session := Some SessionPromise;
  inputAudioContext := Some {| contextRate := 16000 |};
  outputAudioContext := Some {| contextRate := 24000 |};
  inputSource := Some MicSource;
  processor := Some Processor;
  nextStartTime := cursor;
  scheduledSources := sources;
  active := true;
  videoInterval := None;
  videoCanvas := None
|}.


(** The reminder scenario: one [set_reminder] call, answered by the
    dispatcher with its status string. *)
Definition reminderCall : ToolCallData := {|
  name := Some "set_reminder";
  args := JObject [("task", JString "call mom"); ("delay_minutes", JNumber 5)];
  id := Some "call-1"
|}.

Definition reminderMessage : LiveServerMessage :=
  {| serverContent := None; toolCall := Some [reminderCall] |}.

Definition reminderConfig : LiveConfig := {|
  onToolCall := Some (fun _ => Ok [JString "Reminder set for call mom"]);
  onStateChange := Some (fun _ => Ok tt);
  onVolumeChange := Some (fun _ _ => Ok tt);
  onCaption := Some (fun _ _ _ => Ok tt)
|}.

(** A buffer of [frames] silent frames at the playback rate. *)
Definition silence (frames : nat) : AudioBuffer :=
  {| sampleRate := 24000; channelData := repeat 0%Q frames |}.

(** ** Speech helper: the handler [recognition.onerror] of [useSpeech] *)

Module Speech.

Record state : Type := {
  isListening : bool;
  console : list string
}.

Definition setIsListening (b : bool) (st : state) : state :=
  {| isListening := b; console := console st |}.

Definition console_error (message : string) (st : state) : state :=
  {| isListening := isListening st; console := console st ++ [message] |}.

(** [event.error] is the error kind. *)
Definition onerror (error : string) (st : state) : state :=
  if String.eqb error "no-speech" || String.eqb error "aborted" then
    setIsListening false st
  else
    setIsListening false
      (console_error (String.append "Speech recognition error " error) st).

End Speech.

(** ** Audio capture: the [onaudioprocess] handler of [startAudioInput]

    [Math_sqrt] is the host's square root; the sum of squares is exact here
    (its rounding is not modelled). The value returned is the payload handed
    to [sendRealtimeInput], [None] when the handler returns early. *)
Definition onaudioprocess (cfg : LiveConfig) (Math_sqrt : Q -> Q)
  (inputData : list Q) : M (option string) :=
  s <- get_this ;;
  if negb (active s) then ret None
  else
    let sum := fold_left (fun sum x => sum + x * x)%Q inputData 0%Q in
    let rms := Math_sqrt (sum / inject_Z (Z.of_nat (length inputData)))%Q in
    call_onVolumeChange cfg rms 0 ;;
    let pcmData := floatTo16BitPCM inputData in
    let base64Data := arrayBufferToBase64 pcmData in
    ret (Some base64Data).

(** What re-encoding does to a decoded 16-bit sample. *)
Definition reencoded (v : Z) : Z := if 0 <? v then v - 1 else v.

(** Every tracked source is one the host has created. *)
Definition tracked_created (w : World) : Prop :=
  forall source, source ∈ scheduledSources (this w) -> (source < nodesCreated w)%nat.

Definition stateChanges (evs : list event) : list LiveConnectionState :=
  omap (fun ev => match ev with StateChange st => Some st | _ => None end) evs.

Definition stoppedSources (evs : list event) : list nat :=
  omap (fun ev => match ev with SourceStop src => Some src | _ => None end) evs.

(** Whether a message carries the interruption flag. *)
Definition isInterruption (message : LiveServerMessage) : bool :=
  match serverContent message with
  | Some sc => interrupted sc
  | None => false
  end.

(** The pending playback of a message, run when the handler yields. *)
Definition resumePlayback (cfg : LiveConfig) (h : Host)
  (pending : option (result AudioBuffer)) : M unit :=
  match pending with
  | None => ret tt
  | Some promise => playAudioChunk_resume cfg h promise
  end.

(** Events that neither start or stop a source nor answer a tool call. *)
Definition is_notice (ev : event) : bool :=
  match ev with
  | SourceStart _ _ | SourceStop _ | SendToolResponse _ => false
  | _ => true
  end.

(** A message that carries audio and the interruption flag at once. *)
Definition interruptingAudioMessage (audio : string) : LiveServerMessage := {|
  serverContent :=
    Some {| audioData := Some audio; interrupted := true;
            inputTranscription := None; outputTranscription := None;
            turnComplete := false |};
  toolCall := None
|}.

(** A batch of two calls, and a dispatcher that answers only one. *)
Definition twoCallsMessage : LiveServerMessage :=
  {| serverContent := None; toolCall := Some [reminderCall; reminderCall] |}.

(** A message with everything that gives a caption. *)
Definition captionedMessage : LiveServerMessage := {|
  serverContent :=
    Some {| audioData := None; interrupted := true;
            inputTranscription := Some {| text := Some "play jazz" |};
            outputTranscription := Some {| text := Some "" |};
            turnComplete := true |};
  toolCall := None
|}.

(** The caption a transcription gives: none without text. *)
Definition transcriptionCaptions (t : option Transcription) (isUser complete : bool)
  : list (string * bool * bool) :=
  match t with
  | Some t =>
      match truthy (text t) with
      | Some txt => [(txt, isUser, complete)]
      | None => []
      end
  | None => []
  end.

(** The captions of one message, in the order of steps 2 and 3. *)
Definition messageCaptions (message : LiveServerMessage)
  : list (string * bool * bool) :=
  match serverContent message with
  | None => []
  | Some sc =>
      (if interrupted sc then [("[Interrupted]", false, true)] else [])
        ++ transcriptionCaptions (inputTranscription sc) true (turnComplete sc)
        ++ transcriptionCaptions (outputTranscription sc) false (turnComplete sc)
  end.

(** The state callback, when there is one, returns normally. *)
Definition states_return (cfg : LiveConfig) : Prop :=
  forall f st, onStateChange cfg = Some f -> f st = Ok tt.

(** A host that refuses the microphone. *)
Definition micDenied : Host :=
  {| currentTime := 0;
     raises := fun c => match c with CallGetUserMedia => true | _ => false end |}.

(** A session as [connect] followed by the channel's [onopen] leaves it. *)
Definition connectedSession (s : LiveSession) : LiveSession :=
  with_processor (Some Processor)
    (with_inputSource (Some MicSource)
       (with_active true
          (with_session (Some SessionPromise)
             (with_outputAudioContext (Some {| contextRate := 24000 |})
                (with_inputAudioContext (Some {| contextRate := 16000 |}) s))))).

Definition is_close (ev : event) : bool :=
  match ev with
  | ContextClose _ | ChannelClose | NodeDisconnect _ | ClearInterval _ => true
  | _ => false
  end.

(** What [stop] asks of the host for a session [s], in order. *)
Definition stopEvents (s : LiveSession) : list event :=
  match videoInterval s with Some timer => [ClearInterval timer] | None => [] end
  ++ (SourceStop <$> elements (scheduledSources s))
  ++ match inputAudioContext s with
     | Some _ => [ContextClose InputContext] | None => []
     end
  ++ match outputAudioContext s with
     | Some _ => [ContextClose OutputContext] | None => []
     end
  ++ match processor s with
     | Some _ => [NodeDisconnect ProcessorNode] | None => []
     end
  ++ match inputSource s with
     | Some _ => [NodeDisconnect InputSourceNode] | None => []
     end
  ++ match session s with Some _ => [ChannelClose] | None => [] end.

(** The report of a connection state, when the caller wants reports. *)
Definition stateReport (cfg : LiveConfig) (st : LiveConnectionState) : list event :=
  match onStateChange cfg with
  | Some _ => [StateChange st]
  | None => []
  end.

(** A session as a [connect] that was granted the microphone leaves it. *)
Definition connectingSession (s : LiveSession) : LiveSession :=
  with_session (Some SessionPromise)
    (with_outputAudioContext (Some {| contextRate := 24000 |})
       (with_inputAudioContext (Some {| contextRate := 16000 |}) s)).

(** The volume callback, when there is one, returns normally. *)
Definition volume_returns (cfg : LiveConfig) : Prop :=
  forall f user model, onVolumeChange cfg = Some f -> f user model = Ok tt.

(** The one line [playAudioChunk] logs when it catches an error. *)
Definition playbackError : event := ConsoleError "Error playing audio chunk".




(** ** Speech helper: the rest of [useSpeech]

    The hook's state variables, the recognition handlers and [speak]. What
    the hook asks of the browser, and the calls of the caller's
    [onFinalTranscript], are logged in order. *)

Module UseSpeech.

Record SpeechSynthesisVoice : Type := { voiceName : string; lang : string }.

Inductive call : Type :=
| RecognitionStart
| RecognitionStop
| OnFinalTranscript (text : string)
| SynthesisCancel
| SynthesisSpeak (text : string) (voice : option SpeechSynthesisVoice)
| ConsoleError (message : string).

Record state : Type := {
  isListening : bool;
  isSpeaking : bool;
  transcript : string;
  (** [recognitionRef.current] is set: the browser has speech recognition *)
  recognition : bool;
  (** [onFinalTranscriptRef.current] is set *)
  onFinalTranscript : bool
}.

Definition setIsListening (b : bool) (st : state) : state :=
  {| isListening := b; isSpeaking := isSpeaking st; transcript := transcript st;
     recognition := recognition st; onFinalTranscript := onFinalTranscript st |}.

Definition setIsSpeaking (b : bool) (st : state) : state :=
  {| isListening := isListening st; isSpeaking := b; transcript := transcript st;
     recognition := recognition st; onFinalTranscript := onFinalTranscript st |}.

Definition setTranscript (s : string) (st : state) : state :=
  {| isListening := isListening st; isSpeaking := isSpeaking st; transcript := s;
     recognition := recognition st; onFinalTranscript := onFinalTranscript st |}.

(** One entry of [event.results]: [results[i].isFinal] and
    [results[i][0].transcript]. *)
Record SpeechRecognitionResult : Type := {
  isFinal : bool;
  alternative : string
}.

Definition nonempty (s : string) : bool :=
  match s with EmptyString => false | String _ _ => true end.

(** The loop of [onresult], from index [i] on: the pair is
    [(interimTranscript, finalTranscript)]. *)
Definition accumulate (acc : string * string) (r : SpeechRecognitionResult)
  : string * string :=
  if isFinal r then (fst acc, String.append (snd acc) (alternative r))
  else (String.append (fst acc) (alternative r), snd acc).

Definition onresult (resultIndex : nat) (results : list SpeechRecognitionResult)
  (st : state) : state * list call :=
  let '(interimTranscript, finalTranscript) :=
    fold_left accumulate (drop resultIndex results) (EmptyString, EmptyString) in
  let st' :=
    setTranscript (if nonempty finalTranscript then finalTranscript
                   else interimTranscript) st in
  if nonempty finalTranscript && onFinalTranscript st
  then (st', [OnFinalTranscript finalTranscript])
  else (st', []).

Definition onstart (st : state) : state := setIsListening true st.
Definition onend (st : state) : state := setIsListening false st.

(** [startListening]; [startRaises] is whether [recognition.start()]
    raises (it does when recognition has already been started). *)
Definition startListening (startRaises : bool) (st : state) : state * list call :=
  if recognition st && negb (isListening st) then
    (setTranscript EmptyString st,
     if startRaises
     then [RecognitionStart; ConsoleError "Failed to start recognition"]
     else [RecognitionStart])
  else (st, []).

Definition stopListening (st : state) : state * list call :=
  if recognition st && isListening st then (st, [RecognitionStop]) else (st, []).

(** [String.prototype.includes] *)
Definition includes (s sub : string) : bool :=
  match String.index 0 sub s with Some _ => true | None => false end.

(** The voice [speak] prefers: the first whose name contains
    "Google US English", else the first whose language is "en-US". *)
Definition preferredVoice (voices : list SpeechSynthesisVoice)
  : option SpeechSynthesisVoice :=
  match List.find (fun v => includes (voiceName v) "Google US English") voices with
  | Some v => Some v
  | None => List.find (fun v => String.eqb (lang v) "en-US") voices
  end.

(** [speak]; [synthesis] is whether [window.speechSynthesis] exists and
    [voices] what [getVoices()] returns. *)
Definition speak (synthesis : bool) (voices : list SpeechSynthesisVoice)
  (text : string) : list call :=
  if synthesis
  then [SynthesisCancel; SynthesisSpeak text (preferredVoice voices)]
  else [].

Definition cancelSpeech (synthesis : bool) (st : state) : state * list call :=
  if synthesis then (setIsSpeaking false st, [SynthesisCancel]) else (st, []).

(** What the results from [resultIndex] on say, by kind. *)
Definition spoken (final : bool) (resultIndex : nat)
  (results : list SpeechRecognitionResult) : string :=
  String.concat EmptyString
    (List.map alternative
       (List.filter (fun r => Bool.eqb (isFinal r) final)
                    (drop resultIndex results))).

End UseSpeech.

(** ** Numbers

    A JS number is a double, and an arithmetic operation on numbers is the
    exact operation followed by the rounding to the nearest double. The
    rounding, [double], is the host's. The two facts used of it are in
    [rounding]: it keeps the order, and it leaves a number that is a double
    as it is. NaN and the infinities are outside the model. *)

Module Number.

(** The finite doubles: [m * 2 ^ e] with a 53-bit [m]. *)
Definition representable (x : Q) : Prop :=
  exists m e : Z,
    (Z.abs m < 2 ^ 53)%Z /\ (-1074 <= e <= 971)%Z /\ (x == inject_Z m * 2 ^ e)%Q.

Definition rounding (double : Q -> Q) : Prop :=
  (forall x y, (x <= y)%Q -> (double x <= double y)%Q)
  /\ (forall x, representable x -> (double x == x)%Q).

(** [x * y] and [x + y] on numbers. *)
Definition times (double : Q -> Q) (x y : Q) : Q := double (x * y)%Q.
Definition plus (double : Q -> Q) (x y : Q) : Q := double (x + y)%Q.

End Number.

(** ** The application component ([App.tsx])

    The component's reminders, the tool actions the model can ask for, the
    dispatcher it gives the live session, the reminder poll and the removal
    of a reminder. What the component does to the browser is logged in
    order. The clock is an oracle: [Date_now k] is what the [k]-th call of
    [Date.now()] returns. So is what the browser makes of a URL:
    [window.open] raises on one it cannot parse, [encodeURIComponent] on a
    text that is not well-formed. *)

Module App.

Record Reminder : Type := {
  id : string;
  text : jsval;
  dueTime : Q;
  completed : bool;
  originalDelayMinutes : jsval
}.

Inductive effect : Type :=
| WindowOpen (url : jsval) (target : string)
| AudioPlay (src : string)
| ShowNotification (title : string) (body : jsval).

(** The host: conversions, where the value is not already of the wanted
    kind, the rounding of numbers, the URL functions and the clock. *)
Record Browser : Type := {
  ToString : jsval -> string;
  ToNumber : jsval -> Q;
  double : Q -> Q;
  (** [None]: it raises *)
  encodeURIComponent : string -> option string;
  windowOpenRaises : jsval -> bool;
  Date_now : nat -> Z
}.

Record state : Type := {
  reminders : list Reminder;
  (** calls of [Date.now()] so far *)
  clockReads : nat
}.

Definition A (T : Type) : Type := state -> result T * state * list effect.

Definition OPEN_URL : string := "open_url".
Definition SEARCH_YOUTUBE : string := "search_youtube".
Definition SET_REMINDER : string := "set_reminder".

Fixpoint lookupField (fields : list (string * jsval)) (key : string) : jsval :=
  match fields with
  | [] => JUndefined
  | (k, v) :: rest => if String.eqb k key then v else lookupField rest key
  end.

(** [value.key] *)
Definition getProp (value : jsval) (key : string) : result jsval :=
  match value with
  | JUndefined | JNull => Throw TypeError
  | JObject fields => Ok (lookupField fields key)
  | _ => Ok JUndefined
  end.

Definition ToBoolean (value : jsval) : bool :=
  match value with
  | JUndefined | JNull => false
  | JBool b => b
  | JNumber q => negb (Qeq_bool q 0)
  | JString EmptyString => false
  | JString _ => true
  | JArray _ | JObject _ => true
  end.

(** A value inside a template literal. *)
Definition toText (b : Browser) (value : jsval) : string :=
  match value with JString s => s | _ => ToString b value end.

(** A value as an operand of [*]. *)
Definition toNumber (b : Browser) (value : jsval) : Q :=
  match value with JNumber q => q | _ => ToNumber b value end.

(** [window.open(url, '_blank')] *)
Definition windowOpen (b : Browser) (url : jsval) : A unit :=
  fun st =>
    if windowOpenRaises b url then (Throw HostError, st, [])
    else (Ok tt, st, [WindowOpen url "_blank"]).

(** [case] of the [switch]: strict equality with a tool name. *)
Definition isTool (name : option string) (tool : string) : bool :=
  match name with Some n => String.eqb n tool | None => false end.

Definition handleToolAction (b : Browser) (name : option string) (args : jsval)
  : A string :=
  fun st =>
  if isTool name OPEN_URL then
    match getProp args "url" with
    | Throw e => (Throw e, st, [])
    | Ok url =>
        if ToBoolean url
        then
          match windowOpen b url st with
          | (Throw e, st1, e1) => (Throw e, st1, e1)
          | (Ok _, st1, e1) =>
              (Ok (String.append "Opened " (toText b url)), st1, e1)
          end
        else (Ok "done", st, [])
    end
  else if isTool name SEARCH_YOUTUBE then
    match getProp args "query" with
    | Throw e => (Throw e, st, [])
    | Ok query =>
        if ToBoolean query
        then
          match encodeURIComponent b (toText b query) with
          | None => (Throw HostError, st, [])
          | Some encoded =>
              let url := String.append
                           "https://www.youtube.com/results?search_query="
                           encoded in
              match windowOpen b (JString url) st with
              | (Throw e, st1, e1) => (Throw e, st1, e1)
              | (Ok _, st1, e1) =>
                  (Ok (String.append "Searched for " (toText b query)), st1, e1)
              end
          end
        else (Ok "done", st, [])
    end
  else if isTool name SET_REMINDER then
    match getProp args "task" with
    | Throw e => (Throw e, st, [])
    | Ok task =>
        if ToBoolean task then
          match getProp args "delay_minutes" with
          | Throw e => (Throw e, st, [])
          | Ok delay_minutes =>
              if ToBoolean delay_minutes
              then
                let delayMs :=
                  Number.times (double b)
                    (Number.times (double b) (toNumber b delay_minutes) 60) 1000 in
                let newReminder := {|
                  id := ToString b (JNumber (inject_Z (Date_now b (clockReads st))));
                  text := task;
                  dueTime :=
                    Number.plus (double b)
                      (inject_Z (Date_now b (S (clockReads st)))) delayMs;
                  completed := false;
                  originalDelayMinutes := delay_minutes
                |} in
                (Ok (String.append "Reminder set for " (toText b task)),
                 {| reminders := reminders st ++ [newReminder];
                    clockReads := S (S (clockReads st)) |},
                 [])
              else (Ok "done", st, [])
          end
        else (Ok "done", st, [])
    end
  else (Ok "done", st, []).

(** The [onToolCall] the component gives the live session: one action
    after the other, one result each. *)
Fixpoint onToolCall (b : Browser) (toolCalls : list ToolCallData) : A (list string) :=
  fun st =>
  match toolCalls with
  | [] => (Ok [], st, [])
  | tc :: rest =>
      match handleToolAction b (name tc) (args tc) st with
      | (Throw e, st1, e1) => (Throw e, st1, e1)
      | (Ok res, st1, e1) =>
          match onToolCall b rest st1 with
          | (Throw e, st2, e2) => (Throw e, st2, e1 ++ e2)
          | (Ok results, st2, e2) => (Ok (res :: results), st2, e1 ++ e2)
          end
      end
  end.

(** The dispatcher as the session sees it, for a component in state [st]. *)
Definition dispatcher (b : Browser) (st : state)
  : list ToolCallData -> result (list jsval) :=
  fun toolCalls =>
    match onToolCall b toolCalls st with
    | (Ok results, _, _) => Ok (List.map JString results)
    | (Throw e, _, _) => Throw e
    end.

Definition beep : string :=
  "https://actions.google.com/sounds/v1/alarms/beep_short.ogg".

Definition isDue (now : Z) (r : Reminder) : bool :=
  negb (completed r) && Qle_bool (dueTime r) (inject_Z now).

Definition complete (r : Reminder) : Reminder :=
  {| id := id r; text := text r; dueTime := dueTime r; completed := true;
     originalDelayMinutes := originalDelayMinutes r |}.

(** One tick of the reminder poll, at clock reading [now]; [granted] is
    whether notifications exist and are permitted. *)
Definition pollReminders (granted : bool) (now : Z) (prev : list Reminder)
  : list Reminder * list effect :=
  let next := List.map (fun r => if isDue now r then complete r else r) prev in
  let changed := List.existsb (isDue now) prev in
  (if changed then next else prev,
   List.flat_map
     (fun r =>
        if isDue now r
        then AudioPlay beep ::
             (if granted then [ShowNotification "Reminder" (text r)] else [])
        else [])
     prev).

(** [onRemove] *)
Definition onRemove (id0 : string) (prev : list Reminder) : list Reminder :=
  List.filter (fun r => negb (String.eqb (id r) id0)) prev.

Definition notified (effects : list effect) : list jsval :=
  omap (fun e => match e with ShowNotification _ body => Some body | _ => None end)
       effects.

Definition opened (effects : list effect) : list jsval :=
  omap (fun e => match e with WindowOpen url _ => Some url | _ => None end)
       effects.

End App.

(** ** The reminder panel ([components/ReminderList.tsx]) *)

Module ReminderList.

(** [Math.max(0, Math.ceil((reminder.dueTime - now) / 1000))] *)
Definition timeLeft (now : Z) (reminder : App.Reminder) : Z :=
  Z.max 0 (Qceiling ((App.dueTime reminder - inject_Z now) / 1000)%Q).

Definition isOverdue (now : Z) (reminder : App.Reminder) : bool :=
  (timeLeft now reminder =? 0)%Z.

Inductive label : Type :=
| Completed
| In (minutes seconds : Z).

Definition dueLabel (now : Z) (reminder : App.Reminder) : label :=
  if isOverdue now reminder then Completed
  else In (timeLeft now reminder / 60) (Z.rem (timeLeft now reminder) 60).

(** The panel: nothing without reminders, else one row each. *)
Definition render (now : Z) (reminders : list App.Reminder)
  : option (list (jsval * label)) :=
  if (length reminders =? 0)%nat then None
  else Some (List.map (fun r => (App.text r, dueLabel now r)) reminders).

End ReminderList.

(** ** The pulse ([components/LivePulse.tsx])

    The volumes are numbers, and so is the width: every product and sum is
    rounded ([double]). *)

Module LivePulse.

Definition baseSize : Q := 80.

(** The number the literal [0.01] denotes: the double nearest to 1/100. *)
Definition threshold : Q := 5764607523034235 # 576460752303423488.

(** [1 + Math.min(volume * 5, 1.5)] *)
Definition scaleOf (double : Q -> Q) (volume : Q) : Q :=
  Number.plus double 1 (Qmin (Number.times double volume 5) (3 # 2)).

(** [volume > 0.01] *)
Definition audible (volume : Q) : bool := Qlt_bool threshold volume.

(** The volume the circle shows: the model's while it is audible, else the
    user's. *)
Definition shown (userVolume modelVolume : Q) : Q :=
  if audible modelVolume then modelVolume else userVolume.

(** [baseSize * (modelVolume > 0.01 ? modelScale : userScale)] *)
Definition diameter (double : Q -> Q) (userVolume modelVolume : Q) : Q :=
  Number.times double baseSize
    (if audible modelVolume then scaleOf double modelVolume
     else scaleOf double userVolume).

Definition statusText (active : bool) (userVolume modelVolume : Q) : string :=
  if active then
    if audible modelVolume then "Gemini Speaking..."
    else if audible userVolume then "Listening..."
    else "Live Connected"
  else "Ready to Connect".

End LivePulse.

(** ** The shared client and chat session ([initializeGemini],
    [getChatSession], the session constructor) *)

Module Gemini.

Inductive effect : Type :=
| ConsoleError (message : string)
| NewClient
| CreateChat.

Inductive outcome (T : Type) : Type :=
| Returned (value : T)
| Thrown (message : string).
Arguments Returned {T} value.
Arguments Thrown {T} message.

(** The module's variables: [client] and [chatSession]; a chat session is
    named by the number of chat sessions created before it. *)
Record globals : Type := {
  client : bool;
  chatSession : option nat;
  chatsCreated : nat
}.

Definition initial : globals :=
  {| client := false; chatSession := None; chatsCreated := 0 |}.

(** [hasKey]: the API key of the build is not empty. *)
Definition initializeGemini (hasKey : bool) (g : globals) : globals * list effect :=
  if negb hasKey then (g, [ConsoleError "API Key is missing!"])
  else if negb (client g)
  then ({| client := true; chatSession := chatSession g;
           chatsCreated := chatsCreated g |}, [NewClient])
  else (g, []).

Definition getChatSession (hasKey : bool) (g : globals)
  : outcome nat * globals * list effect :=
  let '(g1, e1) := if negb (client g) then initializeGemini hasKey g else (g, []) in
  if negb (client g1)
  then (Thrown "Failed to initialize Gemini Client", g1, e1)
  else
    match chatSession g1 with
    | Some chat => (Returned chat, g1, e1)
    | None =>
        (Returned (chatsCreated g1),
         {| client := client g1; chatSession := Some (chatsCreated g1);
            chatsCreated := S (chatsCreated g1) |},
         e1 ++ [CreateChat])
    end.

(** The part of [new LiveSession(config)] that needs the client. *)
Definition constructor (hasKey : bool) (g : globals)
  : outcome unit * globals * list effect :=
  let '(g1, e1) := if negb (client g) then initializeGemini hasKey g else (g, []) in
  if negb (client g1)
  then (Thrown "Gemini Client not initialized", g1, e1)
  else (Returned tt, g1, e1).

Inductive request : Type :=
| Initialize
| GetChat
| NewSession.

Definition perform (hasKey : bool) (r : request) (g : globals)
  : globals * list effect :=
  match r with
  | Initialize => initializeGemini hasKey g
  | GetChat => let '(_, g', e) := getChatSession hasKey g in (g', e)
  | NewSession => let '(_, g', e) := constructor hasKey g in (g', e)
  end.

Fixpoint performAll (hasKey : bool) (rs : list request) (g : globals)
  : globals * list effect :=
  match rs with
  | [] => (g, [])
  | r :: rest =>
      let '(g1, e1) := perform hasKey r g in
      let '(g2, e2) := performAll hasKey rest g1 in
      (g2, e1 ++ e2)
  end.

Definition count (e : effect) (effects : list effect) : nat :=
  length (List.filter
            (fun x => match e, x with
                      | NewClient, NewClient => true
                      | CreateChat, CreateChat => true
                      | ConsoleError _, ConsoleError _ => true
                      | _, _ => false
                      end) effects).

Definition has {T} (o : option T) : nat :=
  match o with Some _ => 1 | None => 0 end.

(** What [n] requests may do to the module's variables: the client and the
    chat session, once there, stay; what is created is what was missing. *)
Definition accounted (hasKey : bool) (n : nat) (g g' : globals)
  (effects : list effect) : Prop :=
  (client g = true -> client g' = true)
  /\ (count NewClient effects + (if client g then 1 else 0)
      = (if client g' then 1 else 0))%nat
  /\ (count CreateChat effects + has (chatSession g) = has (chatSession g'))%nat
  /\ (forall c, chatSession g = Some c -> chatSession g' = Some c)
  /\ (hasKey = false -> client g = false ->
      g' = g /\ count (ConsoleError EmptyString) effects = n).

End Gemini.

(** ** Runs of the reminder poll, and fixtures of the application *)

Module AppRuns.

(** The poll ticking at the clock readings [nows], one after the other. *)
Fixpoint pollAll (granted : bool) (nows : list Z) (prev : list App.Reminder)
  : list App.Reminder * list App.effect :=
  match nows with
  | [] => (prev, [])
  | now :: later =>
      let '(next, e1) := App.pollReminders granted now prev in
      let '(final, e2) := pollAll granted later next in
      (final, e1 ++ e2)
  end.

Definition pending (reminders : list App.Reminder) : nat :=
  length (List.filter (fun r => negb (App.completed r)) reminders).

Definition beeps (effects : list App.effect) : nat :=
  length (List.filter
            (fun e => match e with App.AudioPlay _ => true | _ => false end)
            effects).

(** A call the component cannot carry out: one of its tools, without
    arguments. *)
Definition withoutArgs (tc : ToolCallData) : bool :=
  match args tc with
  | JUndefined | JNull =>
      App.isTool (name tc) App.OPEN_URL
      || App.isTool (name tc) App.SEARCH_YOUTUBE
      || App.isTool (name tc) App.SET_REMINDER
  | _ => false
  end.

(** Number to text for whole numbers, as the fixtures need it. *)
Definition wholeToString (value : jsval) : string :=
  match value with
  | JNumber q => DecimalString.NilZero.string_of_int (Z.to_int (Qnum q))
  | _ => "[object Object]"
  end.

(** A browser for whole numbers and plain text: the numbers met are
    doubles already, so that nothing is rounded, every URL parses and every
    text is well-formed. *)
Definition plainBrowser : App.Browser := {|
  App.ToString := wholeToString;
  App.ToNumber := fun _ => 0%Q;
  App.double := fun x => x;
  App.encodeURIComponent := fun s => Some s;
  App.windowOpenRaises := fun _ => false;
  App.Date_now := fun k => (1700000000000 + Z.of_nat k)%Z
|}.

(** A browser whose clock does not advance within a millisecond. *)
Definition stillBrowser : App.Browser := {|
  App.ToString := wholeToString;
  App.ToNumber := fun _ => 0%Q;
  App.double := fun x => x;
  App.encodeURIComponent := fun s => Some s;
  App.windowOpenRaises := fun _ => false;
  App.Date_now := fun _ => 1700000000000%Z
|}.

(** A browser that cannot parse the URL "http://" and parses every other. *)
Definition strictBrowser : App.Browser := {|
  App.ToString := wholeToString;
  App.ToNumber := fun _ => 0%Q;
  App.double := fun x => x;
  App.encodeURIComponent := fun s => Some s;
  App.windowOpenRaises :=
    fun url => match url with
               | JString u => String.eqb u "http://"
               | _ => false
               end;
  App.Date_now := fun k => (1700000000000 + Z.of_nat k)%Z
|}.

Definition openCall (url : string) : ToolCallData := {|
  name := Some "open_url";
  args := JObject [("url", JString url)];
  id := Some "call-2"
|}.

Definition emptyApp : App.state := {| App.reminders := []; App.clockReads := 0 |}.

(** A reminder due 125.5 seconds after clock reading 0. *)
Definition teaReminder : App.Reminder := {|
  App.id := "1"; App.text := JString "tea"; App.dueTime := 125500;
  App.completed := false; App.originalDelayMinutes := JNumber 2
|}.

Definition teaArgs : jsval :=
  JObject [("task", JString "tea"); ("delay_minutes", JNumber 5)].

Definition appConfig (b : App.Browser) (st : App.state) : LiveConfig := {|
  onToolCall := Some (App.dispatcher b st);
  onStateChange := Some (fun _ => Ok tt);
  onVolumeChange := Some (fun _ _ => Ok tt);
  onCaption := Some (fun _ _ _ => Ok tt)
|}.

End AppRuns.

(** * Part II: properties *)

(** ** Round trip of the transport encoding *)

Section Base64Facts.
Import Base64.

Local Ltac Zify.zify_post_hook ::= Z.to_euclidean_division_equations.

Lemma decode_encode_sextet (n : N) :
  (n < 64)%N -> decode_char (encode_sextet n) = Some n.
Proof.
  intros Hn.
  rewrite <- (N2Nat.id n).
  assert (Hk : (N.to_nat n < 64)%nat) by lia.
  generalize dependent (N.to_nat n). clear n Hn. intros k Hk.
  do 64 (destruct k as [|k]; [reflexivity|]). lia.
Qed.

Lemma encode_sextet_not_pad (n : N) :
  (n < 64)%N -> is_pad (encode_sextet n) = false.
Proof.
  intros Hn.
  rewrite <- (N2Nat.id n).
  assert (Hk : (N.to_nat n < 64)%nat) by lia.
  generalize dependent (N.to_nat n). clear n Hn. intros k Hk.
  do 64 (destruct k as [|k]; [reflexivity|]). lia.
Qed.

Lemma encode_sextet_not_space (n : N) :
  (n < 64)%N -> is_ascii_whitespace (encode_sextet n) = false.
Proof.
  intros Hn.
  rewrite <- (N2Nat.id n).
  assert (Hk : (N.to_nat n < 64)%nat) by lia.
  generalize dependent (N.to_nat n). clear n Hn. intros k Hk.
  do 64 (destruct k as [|k]; [reflexivity|]). lia.
Qed.

(** Induction three elements at a time, as [encode_groups] recurses. *)
Lemma list_ind3 {A} (P : list A -> Prop) :
  P [] -> (forall a, P [a]) -> (forall a b, P [a; b]) ->
  (forall a b c l, P l -> P (a :: b :: c :: l)) ->
  forall l, P l.
Proof.
  intros H0 H1 H2 H3.
  assert (H : forall l, P l /\ (forall a, P (a :: l)) /\
                        (forall a b, P (a :: b :: l))).
  { induction l as [|x l (IH0 & IH1 & IH2)].
    - auto.
    - repeat split; auto. }
  intros l. apply H.
Qed.

Lemma sextet_bounds (a b c : ascii) :
  let A := N_of_ascii a in
  let B := N_of_ascii b in
  let C := N_of_ascii c in
  (A / 4 < 64 /\ (A mod 4) * 16 < 64 /\ (A mod 4) * 16 + B / 16 < 64 /\
   (B mod 16) * 4 < 64 /\ (B mod 16) * 4 + C / 64 < 64 /\ C mod 64 < 64)%N.
Proof.
  intros A B C.
  pose proof (N_ascii_bounded a). pose proof (N_ascii_bounded b).
  pose proof (N_ascii_bounded c). subst A B C.
  repeat split; lia.
Qed.

Lemma encode_groups_nonempty (x : ascii) (l : list ascii) :
  exists y ys, encode_groups (x :: l) = y :: ys.
Proof.
  destruct l as [|b [|c rest]]; simpl; eauto.
Qed.

Lemma encode_groups_no_space (l : list ascii) :
  List.filter (fun c => negb (is_ascii_whitespace c)) (encode_groups l)
  = encode_groups l.
Proof.
  induction l as [| a | a b | a b c l IH] using list_ind3.
  - reflexivity.
  - destruct (sextet_bounds a a a) as (H1 & H2 & _).
    cbn [encode_groups List.filter].
    rewrite !encode_sextet_not_space by assumption. reflexivity.
  - destruct (sextet_bounds a b b) as (H1 & _ & H3 & H4 & _).
    cbn [encode_groups List.filter].
    rewrite !encode_sextet_not_space by assumption. reflexivity.
  - destruct (sextet_bounds a b c) as (H1 & _ & H3 & _ & H5 & H6).
    cbn [encode_groups List.filter].
    rewrite !encode_sextet_not_space by assumption.
    cbn [negb]. rewrite IH. reflexivity.
Qed.

Lemma ascii_of_N_eq (a : ascii) (n : N) :
  n = N_of_ascii a -> ascii_of_N n = a.
Proof. intros ->. apply ascii_N_embedding. Qed.

Local Ltac solve_bytes :=
  repeat match goal with
         | a : ascii |- _ =>
             lazymatch goal with
             | H : (N_of_ascii a < 256)%N |- _ => fail
             | _ => pose proof (N_ascii_bounded a)
             end
         end;
  f_equal; repeat (f_equal; try (apply ascii_of_N_eq; lia)).

Lemma decode_encode_groups (l : list ascii) :
  decode_groups (encode_groups l) = Some l.
Proof.
  induction l as [| a | a b | a b c l IH] using list_ind3.
  - reflexivity.
  - destruct (sextet_bounds a a a) as (H1 & H2 & _).
    cbn [encode_groups decode_groups].
    change (is_pad pad) with true. cbn iota.
    unfold decode2. rewrite !decode_encode_sextet by assumption.
    solve_bytes.
  - destruct (sextet_bounds a b b) as (H1 & _ & H3 & H4 & _).
    cbn [encode_groups decode_groups].
    change (is_pad pad) with true. cbn iota.
    rewrite encode_sextet_not_pad by assumption.
    unfold decode3. rewrite !decode_encode_sextet by assumption.
    solve_bytes.
  - destruct (sextet_bounds a b c) as (H1 & _ & H3 & _ & H5 & H6).
    assert (Hgo : decode_groups (encode_groups (a :: b :: c :: l)) =
                  decode4 (encode_sextet (N_of_ascii a / 4))
                    (encode_sextet ((N_of_ascii a mod 4) * 16 + N_of_ascii b / 16))
                    (encode_sextet ((N_of_ascii b mod 16) * 4 + N_of_ascii c / 64))
                    (encode_sextet (N_of_ascii c mod 64))
                    (decode_groups (encode_groups l))).
    { cbn [encode_groups decode_groups].
      destruct l as [|x l'].
      - cbn [encode_groups]. rewrite encode_sextet_not_pad by assumption.
        reflexivity.
      - destruct (encode_groups_nonempty x l') as (y & ys & ->). reflexivity. }
    rewrite Hgo, IH. unfold decode4.
    rewrite !decode_encode_sextet by assumption.
    clear IH Hgo. solve_bytes.
Qed.

Lemma atob_btoa (binary : string) : atob (btoa binary) = Some binary.
Proof.
  unfold atob, btoa.
  rewrite list_ascii_of_string_of_list_ascii, encode_groups_no_space.
  rewrite decode_encode_groups. cbn [option_map].
  rewrite string_of_list_ascii_of_string. reflexivity.
Qed.

Lemma append_nil_r (s : string) : String.append s EmptyString = s.
Proof.
  induction s as [|c s IH]; [reflexivity|].
  change (String c (String.append s EmptyString) = String c s).
  now f_equal.
Qed.

Lemma append_snoc (s t : string) (c : ascii) :
  String.append (String.append s (String c EmptyString)) t
  = String.append s (String c t).
Proof.
  induction s as [|d s IH]; [reflexivity|].
  change (String d (String.append (String.append s (String c EmptyString)) t)
          = String d (String.append s (String c t))).
  now f_equal.
Qed.

Lemma binary_of_bytes (buffer : ArrayBuffer) (acc : string) :
  fold_left (fun acc b => String.append acc (String (ascii_of_byte b) EmptyString))
            buffer acc
  = String.append acc (string_of_list_ascii (List.map ascii_of_byte buffer)).
Proof.
  revert acc. induction buffer as [|b l IH]; intros acc.
  - apply eq_sym, append_nil_r.
  - cbn [fold_left List.map string_of_list_ascii].
    now rewrite IH, append_snoc.
Qed.

End Base64Facts.

(** C7: encoding a byte buffer to transport text and decoding the text gives
    the buffer back, byte for byte; in particular the decoder does not
    raise on the encoder's output. *)
Theorem base64_roundtrip (buffer : ArrayBuffer) :
  base64ToArrayBuffer (arrayBufferToBase64 buffer) = Ok buffer.
Proof.
  unfold base64ToArrayBuffer, arrayBufferToBase64.
  rewrite atob_btoa, binary_of_bytes.
  change (String.append EmptyString ?s) with s.
  rewrite list_ascii_of_string_of_list_ascii, List.map_map.
  f_equal. rewrite <- (List.map_id buffer) at 2.
  apply List.map_ext. intros b. apply byte_of_ascii_of_byte.
Qed.

(** ** PCM16: range of decoded samples and accuracy of the round trip *)

Section PCMFacts.

Local Ltac Zify.zify_post_hook ::= Z.to_euclidean_division_equations.

Lemma to_N_byte_of_Z (z : Z) : Z.of_N (Byte.to_N (byte_of_Z z)) = z mod 256.
Proof.
  unfold byte_of_Z.
  destruct (Byte.of_N (Z.to_N (z mod 256))) as [b|] eqn:E.
  - apply Byte.to_of_N in E. lia.
  - apply Byte.of_N_None_iff in E. lia.
Qed.

Lemma int16_of_bytes_range (lo hi : byte) :
  -32768 <= int16_of_bytes lo hi <= 32767.
Proof.
  unfold int16_of_bytes.
  pose proof (Byte.to_N_bounded lo). pose proof (Byte.to_N_bounded hi).
  destruct (Z.leb_spec 32768
              (Z.of_N (Byte.to_N lo) + 256 * Z.of_N (Byte.to_N hi))); lia.
Qed.

Lemma int16_bytes_roundtrip (v : Z) :
  -32768 <= v <= 32767 ->
  int16_of_bytes (byte_of_Z v) (byte_of_Z (v / 256)) = v.
Proof.
  intros Hv. unfold int16_of_bytes. rewrite !to_N_byte_of_Z.
  destruct (Z.leb_spec 32768 (v mod 256 + 256 * ((v / 256) mod 256))); lia.
Qed.

Lemma int16_elements_length (buf : list byte) :
  length (int16_elements buf) = Nat.div2 (length buf).
Proof.
  assert (H : forall l : list byte,
             length (int16_elements l) = Nat.div2 (length l) /\
             forall a, length (int16_elements (a :: l))
                       = Nat.div2 (length (a :: l))).
  { induction l as [|x l [IH0 IH1]]; split; intros; try reflexivity.
    - apply IH1.
    - cbn [int16_elements length Nat.div2]. now rewrite IH0. }
  apply H.
Qed.

Lemma int16_elements_range (buf : list byte) :
  Forall (fun v => -32768 <= v <= 32767) (int16_elements buf).
Proof.
  assert (H : forall l : list byte,
             Forall (fun v => -32768 <= v <= 32767) (int16_elements l) /\
             forall a, Forall (fun v => -32768 <= v <= 32767)
                         (int16_elements (a :: l))).
  { induction l as [|x l [IH0 IH1]]; split; intros; cbn [int16_elements].
    - constructor.
    - constructor.
    - apply IH1.
    - constructor; [apply int16_of_bytes_range | apply IH0]. }
  apply H.
Qed.

Lemma sample_of_int16_range (v : Z) :
  -32768 <= v <= 32767 ->
  (-1 <= inject_Z v / 32768 /\ inject_Z v / 32768 <= 32767 # 32768)%Q.
Proof.
  intros Hv. unfold Qle, Qdiv, Qmult, Qinv, inject_Z. cbn. lia.
Qed.

End PCMFacts.

(** C10: whatever bytes arrive, a buffer of even length decodes without a
    RangeError into one float per byte pair, every float lies in
    [-1, 32767/32768] (hence in [-1, 1]), and these floats are the channel
    data of the playback buffer whenever one is built. *)
Theorem pcm_decode_in_range (arrayBuffer : ArrayBuffer) :
  Nat.even (length arrayBuffer) = true ->
  exists float32Array,
    pcm16ToFloat arrayBuffer = Ok float32Array /\
    length float32Array = Nat.div2 (length arrayBuffer) /\
    Forall (fun x => (-1 <= x /\ x <= 32767 # 32768 /\ x <= 1)%Q) float32Array /\
    forall audioBuffer,
      pcmToAudioBuffer arrayBuffer = Ok audioBuffer ->
      channelData audioBuffer = float32Array.
Proof.
  intros Heven. unfold pcmToAudioBuffer, pcm16ToFloat, Int16Array.
  rewrite Heven. eexists. split; [reflexivity|]. repeat split.
  - now rewrite length_map, int16_elements_length.
  - rewrite Forall_map.
    eapply Forall_impl; [apply int16_elements_range|].
    intros v Hv. destruct (sample_of_int16_range v Hv) as [Hlo Hhi].
    repeat split; try assumption.
    eapply Qle_trans; [exact Hhi|]. unfold Qle. cbn. lia.
  - intros audioBuffer.
    destruct (createBuffer _ _); [|discriminate].
    now intros [= <-].
Qed.

Lemma pcm_decode_in_range_witness :
  exists float32Array,
    pcm16ToFloat [Byte.x00; Byte.x80; Byte.xff; Byte.x7f] = Ok float32Array /\
    length float32Array = 2%nat /\
    Forall (fun x => (-1 <= x /\ x <= 32767 # 32768 /\ x <= 1)%Q) float32Array /\
    forall audioBuffer,
      pcmToAudioBuffer [Byte.x00; Byte.x80; Byte.xff; Byte.x7f] = Ok audioBuffer ->
      channelData audioBuffer = float32Array.
Proof.
  apply (pcm_decode_in_range [Byte.x00; Byte.x80; Byte.xff; Byte.x7f]).
  reflexivity.
Defined.


Section PCMRoundTrip.

Local Ltac Zify.zify_post_hook ::= Z.to_euclidean_division_equations.
Local Open Scope Q_scope.

Lemma Qle_bool_false (a b : Q) : Qle_bool a b = false -> b < a.
Proof.
  intros H. apply Qnot_le_lt. intros Hle.
  apply Qle_bool_iff in Hle. congruence.
Qed.

Lemma clamp_range (x : Q) : -1 <= clamp x /\ clamp x <= 1.
Proof.
  unfold clamp, Math_max, Math_min.
  destruct (Qle_bool 1 x) eqn:E1.
  - replace (Qle_bool (-1) 1) with true by reflexivity. split; lra.
  - apply Qle_bool_false in E1.
    destruct (Qle_bool (-1) x) eqn:E2.
    + apply Qle_bool_iff in E2. split; lra.
    + split; lra.
Qed.

(** Truncation towards zero, as [Z.quot] computes it on a fraction. *)
Lemma trunc_nonneg (q : Q) :
  0 <= q ->
  inject_Z (Z.quot (Qnum q) (Zpos (Qden q))) <= q /\
  q < inject_Z (Z.quot (Qnum q) (Zpos (Qden q))) + 1.
Proof.
  destruct q as [n d]. unfold Qle, Qlt, Qplus, inject_Z. cbn.
  intros Hn. rewrite Z.quot_div_nonneg by lia.
  split; nia.
Qed.

Lemma trunc_nonpos (q : Q) :
  q <= 0 ->
  q <= inject_Z (Z.quot (Qnum q) (Zpos (Qden q))) /\
  inject_Z (Z.quot (Qnum q) (Zpos (Qden q))) - 1 < q.
Proof.
  destruct q as [n d]. unfold Qle, Qlt, Qminus, Qplus, Qopp, inject_Z. cbn.
  intros Hn.
  assert (E : (n ÷ Z.pos d = - ((- n) / Z.pos d))%Z).
  { rewrite <- Z.quot_div_nonneg by lia.
    rewrite Z.quot_opp_l by lia. lia. }
  rewrite E. split; nia.
Qed.

Lemma ToInt16_range (x : Q) : (-32768 <= ToInt16 x <= 32767)%Z.
Proof.
  unfold ToInt16.
  destruct (Z.leb_spec 32768 ((Qnum x ÷ Z.pos (Qden x)) mod 65536)); lia.
Qed.

Lemma ToInt16_small (x : Q) :
  -32768 <= x -> x <= 32767 ->
  ToInt16 x = Z.quot (Qnum x) (Zpos (Qden x)).
Proof.
  intros Hlo Hhi. unfold ToInt16.
  assert (Ht : (-32768 <= Qnum x ÷ Z.pos (Qden x) <= 32767)%Z).
  { destruct (Qlt_le_dec x 0) as [Hneg|Hpos].
    - destruct (trunc_nonpos x) as [H1 H2]; [lra|].
      split.
      + apply Qle_trans with (z := inject_Z (Qnum x ÷ Z.pos (Qden x))) in Hlo;
          [|exact H1].
        change (-32768) with (inject_Z (-32768)) in Hlo.
        now rewrite <- Zle_Qle in Hlo.
      + assert (H3 : inject_Z (Qnum x ÷ Z.pos (Qden x)) < inject_Z 1) by
          (change (inject_Z 1) with 1; lra).
        rewrite <- Zlt_Qlt in H3. lia.
    - destruct (trunc_nonneg x Hpos) as [H1 H2].
      split.
      + assert (H3 : inject_Z (-1) < inject_Z (Qnum x ÷ Z.pos (Qden x))) by
          (change (inject_Z (-1)) with (-1); lra).
        rewrite <- Zlt_Qlt in H3. lia.
      + apply Qle_trans with (x := inject_Z (Qnum x ÷ Z.pos (Qden x))) in Hhi;
          [|exact H1].
        change 32767 with (inject_Z 32767) in Hhi.
        now rewrite <- Zle_Qle in Hhi. }
  destruct (Z.leb_spec 32768 ((Qnum x ÷ Z.pos (Qden x)) mod 65536)); lia.
Qed.

Lemma scale_sample_cases (x : Q) :
  (clamp x < 0 /\ scale_sample x = clamp x * 32768) \/
  (0 <= clamp x /\ scale_sample x = clamp x * 32767).
Proof.
  unfold scale_sample.
  destruct (Qle_bool 0 (clamp x)) eqn:E; cbn [negb].
  - right. apply Qle_bool_iff in E. auto.
  - left. apply Qle_bool_false in E. auto.
Qed.

(** The error of one sample: below one step for a sample that is not
    positive, below two steps for a positive one, never upwards there. *)
Lemma quantize_error (x : Q) :
  Qabs (quantize x - clamp x) < 2 * quantum /\
  (clamp x <= 0 -> Qabs (quantize x - clamp x) < quantum) /\
  (0 <= clamp x -> quantize x <= clamp x).
Proof.
  unfold quantize, quantum.
  destruct (clamp_range x) as [Hlo Hhi].
  destruct (scale_sample_cases x) as [[Hs Hv] | [Hs Hv]].
  - assert (Hv' : scale_sample x == clamp x * 32768) by now rewrite Hv.
    clear Hv.
    assert (Hq : scale_sample x <= 0) by lra.
    rewrite ToInt16_small by lra.
    destruct (trunc_nonpos _ Hq) as [H1 H2].
    set (t := inject_Z (Qnum (scale_sample x) ÷ Z.pos (Qden (scale_sample x)))) in *.
    clearbody t. unfold Qdiv. change (/ 32768) with (1 # 32768).
    repeat split; intros; try (apply Qabs_case; intros; lra); lra.
  - assert (Hv' : scale_sample x == clamp x * 32767) by now rewrite Hv.
    clear Hv.
    assert (Hq : 0 <= scale_sample x) by lra.
    rewrite ToInt16_small by lra.
    destruct (trunc_nonneg _ Hq) as [H1 H2].
    set (t := inject_Z (Qnum (scale_sample x) ÷ Z.pos (Qden (scale_sample x)))) in *.
    clearbody t. unfold Qdiv. change (/ 32768) with (1 # 32768).
    repeat split; intros; try (apply Qabs_case; intros; lra); lra.
Qed.

Lemma floatTo16BitPCM_even (l : list Q) :
  Nat.even (length (floatTo16BitPCM l)) = true.
Proof. induction l as [|x l IH]; [reflexivity | exact IH]. Qed.

Lemma int16_elements_encode (l : list Q) :
  int16_elements (floatTo16BitPCM l)
  = List.map (fun x => ToInt16 (scale_sample x)) l.
Proof.
  induction l as [|x l IH]; [reflexivity|].
  change (floatTo16BitPCM (x :: l))
    with (byte_of_Z (ToInt16 (scale_sample x))
            :: byte_of_Z (ToInt16 (scale_sample x) / 256)
            :: floatTo16BitPCM l).
  cbn [int16_elements List.map].
  rewrite IH, int16_bytes_roundtrip by apply ToInt16_range. reflexivity.
Qed.

Lemma pcm16_decode_encode (l : list Q) :
  pcm16ToFloat (floatTo16BitPCM l) = Ok (List.map quantize l).
Proof.
  unfold pcm16ToFloat, Int16Array.
  rewrite floatTo16BitPCM_even, int16_elements_encode, List.map_map.
  reflexivity.
Qed.

End PCMRoundTrip.

(** C3 (as amended): encoding a float sequence to PCM16 and decoding it
    never raises and gives one float per sample; each decoded float is
    within TWO quantization steps of the clamped sample (strictly below
    2/32768), and within one step whenever the clamped sample is not
    positive. The 0x7FFF scale of the non-negative side, followed by
    truncation, is what costs the second step. *)
Theorem pcm16_roundtrip_two_steps (samples : list Q) :
  exists decoded,
    pcm16ToFloat (floatTo16BitPCM samples) = Ok decoded /\
    Forall2 (fun x y =>
               (Qabs (y - clamp x) < 2 * quantum)%Q /\
               ((clamp x <= 0)%Q -> (Qabs (y - clamp x) < quantum)%Q))
            samples decoded.
Proof.
  exists (List.map quantize samples). split; [apply pcm16_decode_encode|].
  induction samples as [|x l IH]; cbn [List.map]; constructor; [|exact IH].
  destruct (quantize_error x) as (H2 & H1 & _). split; assumption.
Qed.

Lemma pcm16_roundtrip_two_steps_witness :
  exists decoded,
    pcm16ToFloat (floatTo16BitPCM [65535 # 65536; -1 # 3; 5]%Q) = Ok decoded /\
    Forall2 (fun x y =>
               (Qabs (y - clamp x) < 2 * quantum)%Q /\
               ((clamp x <= 0)%Q -> (Qabs (y - clamp x) < quantum)%Q))
            [65535 # 65536; -1 # 3; 5]%Q decoded.
Proof.
  exact (pcm16_roundtrip_two_steps [65535 # 65536; -1 # 3; 5]%Q).
Defined.

(** C3 (as stated) fails: the sample 1 - 2^-16 is encoded as 32766 and
    decoded as 32766/32768, one and a half steps below it. *)
Lemma pcm16_roundtrip_one_step_fails :
  exists y,
    pcm16ToFloat (floatTo16BitPCM [65535 # 65536]) = Ok [y] /\
    ~ (Qabs (y - clamp (65535 # 65536)) <= quantum)%Q.
Proof.
  exists (quantize (65535 # 65536)). split.
  - apply (pcm16_decode_encode [65535 # 65536]).
  - vm_compute. intros H. apply H. reflexivity.
Qed.

(** ** The session: flush, stop, playback, dispatch *)

Section SessionFacts.

Local Open Scope session_scope.

(** One step of a sequence, when the first part has been evaluated. *)
Lemma bind_ok {A B} (m : M A) (k : A -> M B) w a w1 e1 :
  m w = (Ok a, w1, e1) ->
  bind m k w = (let '(r, w2, e2) := k a w1 in (r, w2, e1 ++ e2)).
Proof. intros H. unfold bind. now rewrite H. Qed.

Lemma stop_one (h : Host) (source : nat) (w : World) :
  try_catch (emit (SourceStop source) ;; host_call h (CallSourceStop source))
            (fun _ => ret tt) w
  = (Ok tt, w, [SourceStop source]).
Proof.
  unfold try_catch, bind, emit, host_call, throw, ret.
  destruct (raises h (CallSourceStop source)); reflexivity.
Qed.

(** Every [source.stop()] of the flush sits in its own [try]: the loop
    ends normally whatever the host answers, and it calls [stop] on each
    element. *)
Lemma forEach_stop (h : Host) (sources : list nat) (w : World) :
  forEach sources
    (fun source =>
       try_catch (emit (SourceStop source) ;; host_call h (CallSourceStop source))
                 (fun _ => ret tt)) w
  = (Ok tt, w, SourceStop <$> sources).
Proof.
  induction sources as [|x l IH]; [reflexivity|].
  cbn [forEach]. rewrite (bind_ok _ _ _ _ _ _ (stop_one h x w)), IH.
  reflexivity.
Qed.

Lemma stopAudioPlayback_eq (h : Host) (w : World) :
  stopAudioPlayback h w
  = (Ok tt, flushed w, SourceStop <$> elements (scheduledSources (this w))).
Proof.
  unfold stopAudioPlayback.
  unfold bind at 1. cbn [get_this].
  unfold bind at 1. rewrite forEach_stop.
  unfold bind, set_this, flushed. cbn.
  now rewrite app_nil_r.
Qed.

Lemma reportedState_quiet (init : LiveConnectionState) (evs : list event) :
  Forall (fun ev => is_StateChange ev = false) evs ->
  reportedState init evs = init.
Proof.
  induction 1 as [|ev l Hev _ IH]; [reflexivity|].
  destruct ev; try discriminate Hev; exact IH.
Qed.

Local Ltac quiet_events :=
  repeat first
    [ apply Forall_nil_2
    | apply Forall_cons; split; [reflexivity|]
    | apply Forall_app; split
    | apply Forall_fmap, Forall_true; intros ?; reflexivity ].

Lemma stop_eq (h : Host) (w : World) :
  exists evs,
    stop h w
    = (Ok tt, {| this := new_LiveSession; nodesCreated := nodesCreated w |}, evs) /\
    (forall init, reportedState init evs = init) /\
    (forall source, source ∈ scheduledSources (this w) -> SourceStop source ∈ evs).
Proof.
  destruct w as [s n].
  destruct s as [se ic oc isrc pr nst srcs act vi vc].
  unfold stop, stopVideoStream.
  destruct vi, ic, oc, pr, isrc, se;
    cbn -[stopAudioPlayback];
    rewrite (bind_ok _ _ _ _ _ _ (stopAudioPlayback_eq _ _)); cbn;
    (eexists; split; [reflexivity|]; split;
     [ intros init; apply reportedState_quiet; quiet_events
     | intros source Hin;
       repeat (apply elem_of_cons; right);
       apply elem_of_app; left;
       apply list_elem_of_fmap; exists source; split; [reflexivity|];
       now apply elem_of_elements ]).
Qed.

End SessionFacts.

(** C6 (as amended): [stop] is total and idempotent. From any state, and
    whatever the host answers to the calls it makes, it returns normally
    after stopping every tracked source, and leaves the session as the
    constructor made it: not active, cursor 0, nothing tracked, the channel,
    both audio contexts, both capture nodes, the video timer and the canvas
    cleared. Called again, or on a session that never connected, it does
    nothing at all. It reports no connection state itself: the state the
    caller was last told stays what it was. *)
Theorem stop_total_idempotent (h h' : Host) (w : World) :
  let cleared := {| this := new_LiveSession; nodesCreated := nodesCreated w |} in
  exists evs,
    stop h w = (Ok tt, cleared, evs) /\
    (forall source, source ∈ scheduledSources (this w) -> SourceStop source ∈ evs) /\
    (forall reported, reportedState reported evs = reported) /\
    stop h' cleared = (Ok tt, cleared, []).
Proof.
  cbn zeta. destruct (stop_eq h w) as (evs & Hstop & Hquiet & Hstops).
  exists evs. split; [exact Hstop|]. split; [exact Hstops|].
  split; [exact Hquiet|]. reflexivity.
Qed.

Lemma stop_total_idempotent_witness :
  let w := {| this := playingSession 10 {[0%nat; 1%nat]}; nodesCreated := 2 |} in
  let cleared := {| this := new_LiveSession; nodesCreated := 2 |} in
  exists evs,
    stop (hostAt 3) w = (Ok tt, cleared, evs) /\
    (forall source, source ∈ scheduledSources (this w) -> SourceStop source ∈ evs) /\
    (forall reported, reportedState reported evs = reported) /\
    stop (hostAt 4) cleared = (Ok tt, cleared, []).
Proof.
  exact (stop_total_idempotent (hostAt 3) (hostAt 4)
           {| this := playingSession 10 {[0%nat; 1%nat]}; nodesCreated := 2 |}).
Defined.

(** C6 (as stated) fails on the connection state: when the microphone is
    refused, [connect] reports CONNECTING, then ERROR, and calls [stop];
    a further [stop] returns with the reported state still ERROR. *)
Lemma stop_leaves_reported_error :
  let cfg := {| onToolCall := None;
                onStateChange := Some (fun _ => Ok tt);
                onVolumeChange := None;
                onCaption := None |} in
  let denied := {| currentTime := 0;
                   raises := fun c => match c with
                                      | CallGetUserMedia => true
                                      | _ => false
                                      end |} in
  let fresh := {| this := new_LiveSession; nodesCreated := 0 |} in
  connect cfg denied fresh
  = (Ok tt, fresh,
     [StateChange CONNECTING; ContextCreate InputContext;
      ContextCreate OutputContext;
      ConsoleError "Failed to connect live session"; StateChange ERROR;
      ContextClose InputContext; ContextClose OutputContext]) /\
  stop denied fresh = (Ok tt, fresh, []) /\
  reportedState DISCONNECTED
    ([StateChange CONNECTING; ContextCreate InputContext;
      ContextCreate OutputContext;
      ConsoleError "Failed to connect live session"; StateChange ERROR;
      ContextClose InputContext; ContextClose OutputContext] ++ [])
  <> DISCONNECTED.
Proof.
  cbn zeta. split; [|split].
  - vm_compute. reflexivity.
  - vm_compute. reflexivity.
  - vm_compute. discriminate.
Qed.

(** ** Playback scheduling *)

Section PlaybackFacts.

Local Open Scope session_scope.

Local Ltac unfold_monad :=
  unfold try_catch, settle, bind, lift, get_this, set_this, emit, throw, ret.

Local Ltac unfold_playback :=
  unfold enqueue, playAudioChunk_resume, scheduleBuffer, createBufferSource,
    call_onVolumeChange, logPlaybackError, host_call, when.

(** An enqueue that no host call refuses: the chunk is started at the
    cursor (brought up to the device time first), the cursor moves on by
    the chunk's duration, and the chunk is tracked. A raising volume
    callback comes too late to change any of that. *)
Lemma enqueue_ok (cfg : LiveConfig) (h : Host) (chunk : AudioBuffer) (w : World) :
  is_Some (outputAudioContext (this w)) ->
  no_playback_fault h ->
  let start := cursorAt (currentTime h) (nextStartTime (this w)) in
  exists evs,
    enqueue cfg h chunk w
    = (Ok tt,
       {| this :=
            with_scheduledSources
              ({[nodesCreated w]} ∪ scheduledSources (this w))
              (with_nextStartTime (start + duration chunk)%Q (this w));
          nodesCreated := S (nodesCreated w) |},
       evs) /\
    startTimes evs = [start] /\
    startedSources evs = [nodesCreated w] /\
    sentBatches evs = [] /\ captions evs = [].
Proof.
  intros [ctx Hctx] (H1 & H2 & H3).
  destruct w as [s n].
  destruct s as [se ic oc isrc pr nst srcs act vi vc].
  cbn in Hctx. subst oc. cbn zeta. unfold cursorAt.
  unfold_playback. rewrite H1, H2, H3. unfold_monad.
  cbn -[union singleton duration Qplus Qmult].
  destruct (Qlt_bool nst (currentTime h));
    (destruct (onVolumeChange cfg) as [f|];
     [destruct (f 0 (4 # 10))%Q as [[]|e]|]);
    cbn -[union singleton duration Qplus Qmult];
    (eexists; split; [reflexivity|]; repeat split; reflexivity).
Qed.

Lemma startTimes_app (e1 e2 : list event) :
  startTimes (e1 ++ e2) = startTimes e1 ++ startTimes e2.
Proof. apply omap_app. Qed.

Lemma enqueueAll_starts (cfg : LiveConfig) (chunks : list (Host * AudioBuffer)) :
  forall w,
    is_Some (outputAudioContext (this w)) ->
    Forall (fun hc => no_playback_fault hc.1) chunks ->
    exists w' evs,
      enqueueAll cfg chunks w = (Ok tt, w', evs) /\
      startTimes evs = scheduleFrom (nextStartTime (this w)) chunks.
Proof.
  induction chunks as [|[h chunk] rest IH]; intros w Hctx Hok.
  - exists w, []. split; reflexivity.
  - apply Forall_cons in Hok as [Hh Hrest]. cbn [fst] in Hh.
    destruct (enqueue_ok cfg h chunk w Hctx Hh) as (e1 & Heq & Hst & _).
    cbn zeta in Heq, Hst.
    set (w1 := {| this := _; nodesCreated := _ |}) in Heq.
    destruct (IH w1) as (w' & e2 & Hall & Hst2).
    { subst w1. destruct w as [s n]. destruct s. exact Hctx. }
    { exact Hrest. }
    exists w', (e1 ++ e2). split.
    + cbn [enqueueAll]. rewrite (bind_ok _ _ _ _ _ _ Heq), Hall. reflexivity.
    + rewrite startTimes_app, Hst, Hst2. subst w1.
      destruct w as [s n]. destruct s. reflexivity.
Qed.

Lemma cursorAt_spec (now cursor : Q) :
  (cursor <= cursorAt now cursor /\ now <= cursorAt now cursor)%Q /\
  ((now <= cursor)%Q -> cursorAt now cursor = cursor) /\
  ((cursor < now)%Q -> cursorAt now cursor = now).
Proof.
  unfold cursorAt, Qlt_bool.
  destruct (Qle_bool now cursor) eqn:E; cbn [negb].
  - apply Qle_bool_iff in E.
    split; [split; lra|]. split; [reflexivity|]. intros; lra.
  - apply Qle_bool_false in E.
    split; [split; lra|]. split; [|reflexivity]. intros; lra.
Qed.

Lemma duration_nonneg (chunk : AudioBuffer) : (0 <= duration chunk)%Q.
Proof. unfold duration, Qle. cbn. lia. Qed.

Lemma scheduleFrom_length (chunks : list (Host * AudioBuffer)) :
  forall cursor, length (scheduleFrom cursor chunks) = length chunks.
Proof.
  induction chunks as [|[h chunk] rest IH]; intros cursor; cbn;
    [reflexivity | now rewrite IH].
Qed.

(** Each start is the previous chunk's end, or the device time when that
    has passed it. *)
Lemma scheduleFrom_next (chunks : list (Host * AudioBuffer)) :
  forall cursor i h chunk h' chunk' start start',
    chunks !! i = Some (h, chunk) ->
    chunks !! S i = Some (h', chunk') ->
    scheduleFrom cursor chunks !! i = Some start ->
    scheduleFrom cursor chunks !! S i = Some start' ->
    start' = cursorAt (currentTime h') (start + duration chunk)%Q.
Proof.
  induction chunks as [|[h0 c0] rest IH];
    intros cursor i h chunk h' chunk' start start' H1 H2 H3 H4.
  - discriminate H1.
  - destruct i as [|i].
    + destruct rest as [|[h1 c1] rest']; [discriminate H2|].
      cbn in H1, H2, H3, H4.
      injection H1 as <- <-. injection H2 as <- <-.
      injection H3 as <-. injection H4 as <-. reflexivity.
    + cbn [scheduleFrom] in H3, H4. cbn in H1, H2, H3, H4.
      exact (IH _ _ _ _ _ _ _ _ H1 H2 H3 H4).
Qed.

End PlaybackFacts.

(** C2: chunks enqueued one after the other (each at its own device time,
    none refused by the host) are all started, in order, and for every two
    consecutive chunks: start times do not decrease; the later start is at
    or after the earlier chunk's end; it is exactly that end when the cursor
    has not starved (device time at or before the cursor), and it is the
    device time when it has, so the gap is never negative. *)
Theorem playback_starts_ordered (cfg : LiveConfig)
  (chunks : list (Host * AudioBuffer)) (w : World) :
  is_Some (outputAudioContext (this w)) ->
  Forall (fun hc => no_playback_fault hc.1) chunks ->
  exists w' evs,
    enqueueAll cfg chunks w = (Ok tt, w', evs) /\
    length (startTimes evs) = length chunks /\
    back_to_back chunks (startTimes evs).
Proof.
  intros Hctx Hok.
  destruct (enqueueAll_starts cfg chunks w Hctx Hok) as (w' & evs & Hrun & Hst).
  exists w', evs. split; [exact Hrun|]. rewrite Hst. split.
  - apply scheduleFrom_length.
  - intros i h chunk h' chunk' start start' H1 H2 H3 H4.
    pose proof (scheduleFrom_next _ _ _ _ _ _ _ _ _ H1 H2 H3 H4) as Hnext.
    destruct (cursorAt_spec (currentTime h') (start + duration chunk)%Q)
      as ((Hle & _) & Hkeep & Hreset).
    pose proof (duration_nonneg chunk) as Hd.
    rewrite <- Hnext in Hle, Hkeep, Hreset.
    repeat split; try assumption. lra.
Qed.

Lemma playback_starts_ordered_witness :
  exists w' evs,
    enqueueAll quietConfig
      [(hostAt 5, silence 2400); (hostAt 5, silence 4800); (hostAt 9, silence 1)]
      {| this := playingSession 0 ∅; nodesCreated := 0 |}
    = (Ok tt, w', evs) /\
    length (startTimes evs) = 3%nat /\
    back_to_back
      [(hostAt 5, silence 2400); (hostAt 5, silence 4800); (hostAt 9, silence 1)]
      (startTimes evs).
Proof.
  apply (playback_starts_ordered quietConfig
           [(hostAt 5, silence 2400); (hostAt 5, silence 4800); (hostAt 9, silence 1)]
           {| this := playingSession 0 ∅; nodesCreated := 0 |}).
  - eexists. reflexivity.
  - repeat constructor.
Defined.

(** C5: a flush followed by an enqueue at device time [t >= 0] starts the
    chunk at the device time itself: the zeroed cursor is brought up to [t]
    before the chunk is scheduled, never leaving it in the past. *)
Theorem flush_then_enqueue (cfg : LiveConfig) (hflush h : Host)
  (chunk : AudioBuffer) (w : World) :
  is_Some (outputAudioContext (this w)) ->
  no_playback_fault h ->
  (0 <= currentTime h)%Q ->
  exists w' evs start,
    (stopAudioPlayback hflush ;; enqueue cfg h chunk)%session w = (Ok tt, w', evs) /\
    startTimes evs = [start] /\
    (currentTime h <= start)%Q /\ (start == currentTime h)%Q /\
    nextStartTime (this w') = (start + duration chunk)%Q.
Proof.
  intros Hctx Hok Ht.
  assert (Hctx' : is_Some (outputAudioContext (this (flushed w)))).
  { destruct w as [s n]. destruct s. exact Hctx. }
  destruct (enqueue_ok cfg h chunk (flushed w) Hctx' Hok) as (e2 & Heq & Hst & _).
  cbn zeta in Heq, Hst.
  eexists. exists ((SourceStop <$> elements (scheduledSources (this w))) ++ e2).
  exists (cursorAt (currentTime h) 0).
  split; [|split; [|split; [|split]]].
  - rewrite (bind_ok _ _ _ _ _ _ (stopAudioPlayback_eq hflush w)), Heq. reflexivity.
  - rewrite startTimes_app, Hst.
    replace (startTimes (SourceStop <$> elements (scheduledSources (this w))))
      with (@nil Q); [reflexivity|].
    induction (elements (scheduledSources (this w))); [reflexivity | assumption].
  - apply cursorAt_spec.
  - destruct (cursorAt_spec (currentTime h) 0) as ((H0 & Hnow) & Hkeep & Hreset).
    destruct (Qlt_le_dec 0 (currentTime h)) as [Hlt | Hle].
    + now rewrite (Hreset Hlt).
    + rewrite (Hkeep Hle). lra.
  - destruct w as [s n]. destruct s. reflexivity.
Qed.

Lemma flush_then_enqueue_witness :
  exists w' evs start,
    (stopAudioPlayback (hostAt 7) ;; enqueue quietConfig (hostAt 7) (silence 2400))%session
      {| this := playingSession 42 {[0%nat; 1%nat]}; nodesCreated := 2 |}
    = (Ok tt, w', evs) /\
    startTimes evs = [start] /\
    (currentTime (hostAt 7) <= start)%Q /\ (start == currentTime (hostAt 7))%Q /\
    nextStartTime (this w') = (start + duration (silence 2400))%Q.
Proof.
  apply (flush_then_enqueue quietConfig (hostAt 7) (hostAt 7) (silence 2400)
           {| this := playingSession 42 {[0%nat; 1%nat]}; nodesCreated := 2 |}).
  - eexists. reflexivity.
  - repeat constructor.
  - unfold Qle. cbn. lia.
Defined.

(** ** Failures inside [playAudioChunk] *)

Section PlaybackFailures.

Local Open Scope session_scope.

Local Ltac unfold_all :=
  unfold playAudioChunk, playAudioChunk_begin, enqueue, playAudioChunk_resume,
    scheduleBuffer, createBufferSource, call_onVolumeChange, logPlaybackError,
    host_call, when;
  unfold try_catch, settle, bind, lift, get_this, set_this, emit, throw, ret.

Local Ltac simp := cbn -[union singleton duration Qplus Qmult cursorAt].

(** [playAudioChunk] is decoding followed by the enqueue of the decoded
    chunk, with every decoding error logged and dropped. *)
Lemma playAudioChunk_decode (cfg : LiveConfig) (h : Host) (base64Audio : string)
  (w : World) :
  playAudioChunk cfg h base64Audio w
  = match outputAudioContext (this w) with
    | None => (Ok tt, w, [])
    | Some _ =>
        match decodeChunk base64Audio with
        | Throw _ => (Ok tt, w, [ConsoleError "Error playing audio chunk"])
        | Ok chunk => enqueue cfg h chunk w
        end
    end.
Proof.
  unfold decodeChunk, playAudioChunk, playAudioChunk_begin, enqueue.
  unfold bind at 1. unfold bind at 1. cbn [get_this].
  destruct (outputAudioContext (this w)) as [ctx|]; [|reflexivity].
  unfold try_catch at 1, bind at 1, lift at 1.
  destruct (base64ToArrayBuffer base64Audio) as [arrayBuffer|e]; simp.
  - destruct (pcmToAudioBuffer arrayBuffer) as [chunk|e].
    + destruct (playAudioChunk_resume cfg h (Ok chunk) w) as [[r w'] evs].
      reflexivity.
    + reflexivity.
  - reflexivity.
Qed.

(** Whatever the host and the callbacks do, the enqueue returns normally. *)
Lemma playAudioChunk_resume_total (cfg : LiveConfig) (h : Host)
  (promise : result AudioBuffer) (w : World) :
  exists w' evs,
    playAudioChunk_resume cfg h promise w = (Ok tt, w', evs) /\
    sentBatches evs = [] /\ captions evs = [].
Proof.
  destruct w as [s n].
  destruct s as [se ic oc isrc pr nst srcs act vi vc].
  unfold_all. simp.
  destruct promise as [chunk|e]; simp; [|eauto].
  destruct oc as [ctx|]; simp; [|eauto].
  destruct (raises h CallCreateBufferSource); simp; [eauto|].
  destruct (raises h CallConnectDestination); simp; [eauto|].
  destruct (Qlt_bool nst (currentTime h)); simp;
    (destruct (raises h CallSourceStart); simp; [eauto|]);
    (destruct (onVolumeChange cfg) as [f|]; simp;
     [destruct (f 0 (4 # 10))%Q as [[]|e]; simp|]); eauto.
Qed.

(** An enqueue that meets no error, event by event. *)
Lemma enqueue_events (cfg : LiveConfig) (h : Host) (chunk : AudioBuffer)
  (w : World) :
  is_Some (outputAudioContext (this w)) ->
  no_playback_fault h ->
  volume_returns cfg ->
  let start := cursorAt (currentTime h) (nextStartTime (this w)) in
  enqueue cfg h chunk w
  = (Ok tt,
     {| this :=
          with_scheduledSources
            ({[nodesCreated w]} ∪ scheduledSources (this w))
            (with_nextStartTime (start + duration chunk)%Q (this w));
        nodesCreated := S (nodesCreated w) |},
     SourceStart (nodesCreated w) start
       :: match onVolumeChange cfg with
          | Some _ => [VolumeChange 0 (4 # 10)]
          | None => []
          end
       ++ [SetTimeout (duration chunk * 1000)]).
Proof.
  intros [ctx Hctx] (H1 & H2 & H3) Hvol.
  destruct w as [s n].
  destruct s as [se ic oc isrc pr nst srcs act vi vc].
  cbn in Hctx. subst oc. cbn zeta. unfold cursorAt.
  unfold_all. rewrite H1, H2, H3. simp.
  destruct (Qlt_bool nst (currentTime h)); simp;
    (destruct (onVolumeChange cfg) as [f|] eqn:Ef; simp;
     [rewrite (Hvol f _ _ Ef); simp|]); reflexivity.
Qed.

(** The output context is gone when the chunk comes back from its [await]
    (a [stop] ran in between): a TypeError, caught and logged, before
    anything is touched. *)
Lemma resume_without_context (cfg : LiveConfig) (h : Host)
  (promise : result AudioBuffer) (w : World) :
  outputAudioContext (this w) = None ->
  playAudioChunk_resume cfg h promise w = (Ok tt, w, [playbackError]).
Proof.
  intros Hctx.
  destruct w as [s n].
  destruct s as [se ic oc isrc pr nst srcs act vi vc].
  cbn in Hctx. subst oc.
  unfold_all. destruct promise as [chunk|e]; reflexivity.
Qed.

End PlaybackFailures.

(** C8: an error raised while a chunk is decoded or scheduled never leaves
    [playAudioChunk], whatever the host and the callbacks do. The errors the
    code can meet are those of decoding (base64 text, PCM16 view, buffer
    creation) and a TypeError when the output context is gone by the time
    the chunk comes back from its [await]; the host calls on a fresh source
    of a live context do not raise and the volume callback returns. Then a
    failed chunk is dropped, the error is logged once and nothing else
    happens: the session, cursor and tracked set included, is exactly as
    before the call. A chunk that decodes is started and tracked and logs no
    error. *)
Theorem playAudioChunk_failure_contained (cfg : LiveConfig) (h : Host)
  (base64Audio : string) (w : World) :
  (exists w' evs, playAudioChunk cfg h base64Audio w = (Ok tt, w', evs)) /\
  (forall e,
     decodeChunk base64Audio = Throw e ->
     is_Some (outputAudioContext (this w)) ->
     playAudioChunk cfg h base64Audio w = (Ok tt, w, [playbackError])) /\
  (forall promise,
     outputAudioContext (this w) = None ->
     playAudioChunk_resume cfg h promise w = (Ok tt, w, [playbackError])) /\
  (no_playback_fault h ->
   volume_returns cfg ->
   forall w' evs,
     playAudioChunk cfg h base64Audio w = (Ok tt, w', evs) ->
     playbackError ∈ evs ->
     w' = w /\ evs = [playbackError] /\ startTimes evs = []) /\
  (no_playback_fault h ->
   volume_returns cfg ->
   forall chunk,
     decodeChunk base64Audio = Ok chunk ->
     is_Some (outputAudioContext (this w)) ->
     exists w' evs,
       playAudioChunk cfg h base64Audio w = (Ok tt, w', evs) /\
       (playbackError ∉ evs) /\
       startTimes evs = [cursorAt (currentTime h) (nextStartTime (this w))] /\
       nodesCreated w ∈ scheduledSources (this w') /\
       nextStartTime (this w')
       = (cursorAt (currentTime h) (nextStartTime (this w)) + duration chunk)%Q).
Proof.
  assert (Hclean : forall chunk,
    no_playback_fault h -> volume_returns cfg ->
    is_Some (outputAudioContext (this w)) ->
    exists w' evs,
      enqueue cfg h chunk w = (Ok tt, w', evs) /\
      (playbackError ∉ evs) /\
      startTimes evs = [cursorAt (currentTime h) (nextStartTime (this w))] /\
      nodesCreated w ∈ scheduledSources (this w') /\
      nextStartTime (this w')
      = (cursorAt (currentTime h) (nextStartTime (this w)) + duration chunk)%Q).
  { intros chunk Hok Hvol Hctx.
    pose proof (enqueue_events cfg h chunk w Hctx Hok Hvol) as Hrun.
    cbn zeta in Hrun. do 2 eexists. split; [exact Hrun|].
    split; [|split; [|split]].
    - intros Hin. apply elem_of_cons in Hin. destruct Hin as [Hin|Hin];
        [discriminate Hin|].
      apply elem_of_app in Hin. destruct Hin as [Hin|Hin].
      + destruct (onVolumeChange cfg); [|now apply elem_of_nil in Hin].
        apply list_elem_of_singleton in Hin. discriminate Hin.
      + apply list_elem_of_singleton in Hin. discriminate Hin.
    - destruct (onVolumeChange cfg); reflexivity.
    - destruct w as [s n]. destruct s. cbn. set_solver.
    - destruct w as [s n]. destruct s. reflexivity. }
  split; [|split; [|split; [|split]]].
  - rewrite playAudioChunk_decode.
    destruct (outputAudioContext (this w)); [|eauto].
    destruct (decodeChunk base64Audio) as [chunk|e]; [|eauto].
    destruct (playAudioChunk_resume_total cfg h (Ok chunk) w) as (w' & evs & H & _).
    eauto.
  - intros e He [ctx Hctx]. rewrite playAudioChunk_decode, Hctx, He. reflexivity.
  - intros promise Hctx. exact (resume_without_context cfg h promise w Hctx).
  - intros Hok Hvol w' evs Hrun Hin.
    rewrite playAudioChunk_decode in Hrun.
    destruct (outputAudioContext (this w)) as [ctx|] eqn:Hctx.
    + destruct (decodeChunk base64Audio) as [chunk|e].
      * destruct (Hclean chunk Hok Hvol (ex_intro _ ctx eq_refl))
          as (w1 & e1 & Hrun1 & Hnot & _).
        rewrite Hrun1 in Hrun. injection Hrun as <- <-. contradiction.
      * injection Hrun as <- <-. repeat split.
    + injection Hrun as <- <-. now apply elem_of_nil in Hin.
  - intros Hok Hvol chunk Hdec Hctx.
    rewrite playAudioChunk_decode, Hdec.
    destruct Hctx as [ctx Hctx]. rewrite Hctx.
    apply Hclean; [assumption | assumption | now exists ctx].
Qed.

Lemma playAudioChunk_failure_contained_witness :
  playAudioChunk quietConfig (hostAt 5) "AID/f"
    {| this := playingSession 0 ∅; nodesCreated := 0 |}
  = (Ok tt, {| this := playingSession 0 ∅; nodesCreated := 0 |},
     [ConsoleError "Error playing audio chunk"])
  /\ exists w' evs,
       playAudioChunk quietConfig (hostAt 5) "AID/fw=="
         {| this := playingSession 0 ∅; nodesCreated := 0 |}
       = (Ok tt, w', evs) /\
       (playbackError ∉ evs) /\
       startTimes evs = [5%Q] /\
       0%nat ∈ scheduledSources (this w').
Proof.
  pose proof (playAudioChunk_failure_contained quietConfig (hostAt 5) "AID/f"
                {| this := playingSession 0 ∅; nodesCreated := 0 |})
    as (_ & Hbad & _).
  pose proof (playAudioChunk_failure_contained quietConfig (hostAt 5) "AID/fw=="
                {| this := playingSession 0 ∅; nodesCreated := 0 |})
    as (_ & _ & _ & _ & Hgood).
  split.
  - apply (Hbad InvalidCharacterError); [reflexivity | eexists; reflexivity].
  - destruct (Hgood ltac:(repeat constructor)
                ltac:(intros f u m Hf; injection Hf as <-; reflexivity)
                {| sampleRate := 24000;
                   channelData := [-32768 # 32768; 32767 # 32768] |}
                ltac:(vm_compute; reflexivity)
                ltac:(eexists; reflexivity))
      as (w' & evs & Hrun & Hnot & Hst & Hin & _).
    exists w', evs. repeat split; assumption.
Defined.

(** ** Dispatch of one server message *)

Section DispatchFacts.

Local Open Scope session_scope.

Local Ltac pure_done :=
  do 2 eexists; split; [reflexivity|]; split; reflexivity.

Lemma bind_run {A B} (m : M A) (k : A -> M B) w r1 w1 e1 :
  m w = (r1, w1, e1) ->
  bind m k w
  = match r1 with
    | Ok a => let '(r, w2, e2) := k a w1 in (r, w2, e1 ++ e2)
    | Throw e => (Throw e, w1, e1)
    end.
Proof. intros H. unfold bind. rewrite H. now destruct r1. Qed.

Lemma captions_app (e1 e2 : list event) :
  captions (e1 ++ e2) = captions e1 ++ captions e2.
Proof. apply omap_app. Qed.

Lemma captions_stops (sources : list nat) : captions (SourceStop <$> sources) = [].
Proof. induction sources as [|x l IH]; [reflexivity | exact IH]. Qed.

Lemma call_onCaption_eq (cfg : LiveConfig) f (txt : string) (u c : bool) (w : World) :
  onCaption cfg = Some f ->
  call_onCaption cfg txt u c w = (f txt u c, w, [Caption txt u c]).
Proof.
  intros Hf. unfold call_onCaption. rewrite Hf.
  unfold bind, emit, lift. destruct (f txt u c); reflexivity.
Qed.

Lemma handleInterruption_eq (cfg : LiveConfig) (h : Host) f (w : World) :
  onCaption cfg = Some f ->
  handleInterruption cfg h w
  = (f "[Interrupted]" false true, flushed w,
     (SourceStop <$> elements (scheduledSources (this w)))
       ++ [Caption "[Interrupted]" false true]).
Proof.
  intros Hf. unfold handleInterruption.
  rewrite (bind_ok _ _ _ _ _ _ (stopAudioPlayback_eq h w)).
  now rewrite (call_onCaption_eq cfg f _ _ _ _ Hf).
Qed.

(** Starting the playback of a message changes nothing yet; at most a
    decoding error is logged. *)
Lemma beginPlayback_pure (message : LiveServerMessage) (w : World) :
  exists pending evs,
    beginPlayback message w = (Ok pending, w, evs) /\
    captions evs = [] /\ sentBatches evs = [].
Proof.
  destruct w as [s n].
  destruct s as [se ic oc isrc pr nst srcs act vi vc].
  unfold beginPlayback, playAudioChunk_begin.
  unfold try_catch, logPlaybackError, bind, lift, get_this, emit, ret.
  destruct (serverContent message) as [sc|]; cbn; [|pure_done].
  destruct (truthy (audioData sc)) as [audio|]; cbn; [|pure_done].
  destruct oc as [ctx|]; cbn; [|pure_done].
  destruct (base64ToArrayBuffer audio); cbn; pure_done.
Qed.

Lemma handleTranscriptions_pure (cfg : LiveConfig) (sc : ServerContent) (w : World) :
  exists r evs,
    handleTranscriptions cfg sc w = (r, w, evs) /\
    Forall (transcriptionCaption sc) (captions evs) /\
    sentBatches evs = [] /\
    ((forall f txt u c, onCaption cfg = Some f -> f txt u c = Ok tt) -> r = Ok tt).
Proof.
  unfold handleTranscriptions, call_onCaption.
  unfold bind, lift, emit, ret.
  destruct (inputTranscription sc) as [ti|] eqn:Ei;
    destruct (outputTranscription sc) as [to|] eqn:Eo;
    try destruct (truthy (text ti)) as [txi|] eqn:Eti;
    try destruct (truthy (text to)) as [txo|] eqn:Eto;
    destruct (onCaption cfg) as [f|]; cbn;
    try (destruct (f txi true (turnComplete sc)) as [[]|e] eqn:Ef1; cbn);
    try (destruct (f txo false (turnComplete sc)) as [[]|e'] eqn:Ef2; cbn);
    (do 2 eexists; split; [reflexivity|]; split; [|split; [reflexivity|]]);
    try (repeat constructor; fail);
    try (intros Hret;
         first [ reflexivity
               | rewrite (Hret _ _ _ _ eq_refl) in Ef1; discriminate
               | rewrite (Hret _ _ _ _ eq_refl) in Ef2; discriminate ]).
  all: repeat (constructor;
               try (left; eexists; split; [eassumption|]; rewrite ?Eti; reflexivity);
               try (right; eexists; split; [eassumption|]; rewrite ?Eto; reflexivity)).
Qed.

Lemma dispatchToolCalls_pure (cfg : LiveConfig) (message : LiveServerMessage)
  (w : World) :
  exists awaited evs,
    dispatchToolCalls cfg message w = (Ok awaited, w, evs) /\
    captions evs = [] /\ sentBatches evs = [].
Proof.
  unfold dispatchToolCalls, bind, emit, ret.
  destruct (toolCall message); [|pure_done].
  destruct (onToolCall cfg); cbn; pure_done.
Qed.

End DispatchFacts.

(** ** Tool calls *)

Section ToolCallFacts.

Local Open Scope session_scope.

Lemma sentBatches_app (e1 e2 : list event) :
  sentBatches (e1 ++ e2) = sentBatches e1 ++ sentBatches e2.
Proof. apply omap_app. Qed.

Lemma sentBatches_stops (sources : list nat) :
  sentBatches (SourceStop <$> sources) = [].
Proof. induction sources as [|x l IH]; [reflexivity | exact IH]. Qed.

(** The responses are built position by position from the calls. *)
Lemma functionResponsesFrom_ok (toolCalls : list ToolCallData)
  (results : list jsval) :
  forall index,
    (index + length results <= length toolCalls)%nat ->
    exists responses,
      functionResponsesFrom toolCalls index results = Ok responses /\
      length responses = length results /\
      forall i result,
        results !! i = Some result ->
        exists tc,
          toolCalls !! (index + i)%nat = Some tc /\
          responses !! i
          = Some {| fr_id := id tc; fr_name := name tc;
                    response := JObject [("result", result)] |}.
Proof.
  induction results as [|result rest IH]; intros index Hlen.
  - exists []. repeat split. intros i r Hr. discriminate Hr.
  - cbn [length] in Hlen. cbn [functionResponsesFrom].
    destruct (lookup_lt_is_Some_2 toolCalls index) as [tc Htc]; [lia|].
    rewrite Htc.
    destruct (IH (S index)) as (tail & Htail & Hlt & Hnth); [lia|].
    rewrite Htail. eexists. split; [reflexivity|]. split.
    + cbn [length]. now rewrite Hlt.
    + intros [|i] r Hr.
      * injection Hr as <-. exists tc. rewrite Nat.add_0_r. split; [exact Htc|reflexivity].
      * destruct (Hnth i r Hr) as (tc' & Htc' & Hresp).
        exists tc'. split; [|exact Hresp].
        now replace (index + S i)%nat with (S index + i)%nat by lia.
Qed.

Lemma mapToolCalls_lookup (functionCalls : list ToolCallData) (i : nat) tc :
  mapToolCalls functionCalls !! i = Some tc ->
  exists fc, functionCalls !! i = Some fc /\ id tc = id fc /\ name tc = name fc.
Proof.
  unfold mapToolCalls. intros H.
  change (List.map ?f functionCalls) with (f <$> functionCalls) in H.
  rewrite list_lookup_fmap in H.
  destruct (functionCalls !! i) as [fc|]; [|discriminate H].
  injection H as <-. exists fc. repeat split.
Qed.

(** Steps 2 and 3 return normally when the caption callback does, and send
    nothing to the channel. *)
Lemma handleServerContent_returns (cfg : LiveConfig) (h : Host)
  (message : LiveServerMessage) (w : World) :
  captions_return cfg ->
  exists w' evs,
    handleServerContent cfg h message w = (Ok tt, w', evs) /\
    sentBatches evs = [].
Proof.
  intros Hret. unfold handleServerContent.
  destruct (serverContent message) as [sc|]; [|exists w, []; split; reflexivity].
  assert (Hflush :
            exists w1 e1,
              when (interrupted sc) (handleInterruption cfg h) w = (Ok tt, w1, e1) /\
              sentBatches e1 = []).
  { destruct (interrupted sc); cbn [when];
      [|exists w, []; split; reflexivity].
    destruct (onCaption cfg) as [f|] eqn:Ef.
    - rewrite (handleInterruption_eq cfg h f w Ef), (Hret _ _ _ _ Ef).
      do 2 eexists. split; [reflexivity|].
      now rewrite sentBatches_app, sentBatches_stops.
    - unfold handleInterruption.
      rewrite (bind_ok _ _ _ _ _ _ (stopAudioPlayback_eq h w)).
      unfold call_onCaption. rewrite Ef. cbn [ret].
      do 2 eexists. split; [reflexivity|].
      now rewrite sentBatches_app, sentBatches_stops. }
  destruct Hflush as (w1 & e1 & Hrun & Hs1).
  rewrite (bind_ok _ _ _ _ _ _ Hrun).
  destruct (handleTranscriptions_pure cfg sc w1) as (r & e2 & Ht & _ & Hs2 & Hr).
  rewrite Ht, (Hr Hret). do 2 eexists. split; [reflexivity|].
  now rewrite sentBatches_app, Hs1, Hs2.
Qed.

End ToolCallFacts.

(** C1: a tool-call batch of size k, handed to a dispatcher that answers
    with k results, is answered by exactly one [sendToolResponse], whose
    batch has k entries; entry i carries the id and the name of call i and
    wraps result i in an object with the single key [result]. *)
Theorem tool_batch_answered (cfg : LiveConfig) (h : Host)
  (message : LiveServerMessage) (functionCalls : list ToolCallData)
  dispatcher (results : list jsval) (w : World) :
  toolCall message = Some functionCalls ->
  onToolCall cfg = Some dispatcher ->
  dispatcher (mapToolCalls functionCalls) = Ok results ->
  length results = length functionCalls ->
  captions_return cfg ->
  exists w' evs responses,
    handleMessage cfg h message w = (Ok tt, w', evs) /\
    sentBatches evs = [responses] /\
    length responses = length functionCalls /\
    forall i,
      (i < length functionCalls)%nat ->
      exists fc result,
        functionCalls !! i = Some fc /\
        results !! i = Some result /\
        responses !! i
        = Some {| fr_id := id fc; fr_name := name fc;
                  response := JObject [("result", result)] |}.
Proof.
  intros Hcall Hdisp Hres Hlen Hret.
  destruct (functionResponsesFrom_ok (mapToolCalls functionCalls) results 0%nat)
    as (responses & Hresp & Hrlen & Hnth).
  { unfold mapToolCalls. rewrite length_map. cbn. lia. }
  destruct (beginPlayback_pure message w) as (pending & e0 & Hb & _ & Hs0).
  destruct (handleServerContent_returns cfg h message w Hret)
    as (w1 & e1 & Hcontent & Hs1).
  assert (Hsync :
            handleMessage_sync cfg h message w
            = (Ok (pending,
                   Ok (Some (mapToolCalls functionCalls, Ok results))),
               w1, e0 ++ (e1 ++ [ToolCall (mapToolCalls functionCalls)]) ++ [])).
  { unfold handleMessage_sync.
    rewrite (bind_ok _ _ _ _ _ _ Hb).
    unfold settle at 1. unfold bind at 1.
    rewrite (bind_ok _ _ _ _ _ _ Hcontent).
    unfold dispatchToolCalls. rewrite Hcall, Hdisp, Hres.
    reflexivity. }
  assert (Hplay :
            exists w2 e2,
              match pending with
              | None => ret tt
              | Some promise => playAudioChunk_resume cfg h promise
              end w1 = (Ok tt, w2, e2) /\ sentBatches e2 = []).
  { destruct pending as [promise|].
    - destruct (playAudioChunk_resume_total cfg h promise w1)
        as (w2 & e2 & Hp & Hs2 & _).
      eauto.
    - exists w1, []. split; reflexivity. }
  destruct Hplay as (w2 & e2 & Hp & Hs2).
  exists w2. eexists. exists responses. split; [|split; [|split]].
  - unfold handleMessage. rewrite (bind_ok _ _ _ _ _ _ Hsync).
    unfold handleMessage_async. cbn [fst snd].
    rewrite (bind_ok _ _ _ _ _ _ Hp).
    unfold sendToolResponses, functionResponses.
    unfold bind, lift, emit. rewrite Hresp. reflexivity.
  - rewrite !sentBatches_app, Hs0, Hs1, Hs2. reflexivity.
  - now rewrite Hrlen.
  - intros i Hi.
    destruct (lookup_lt_is_Some_2 results i) as [result Hresult]; [lia|].
    destruct (Hnth i result Hresult) as (tc & Htc & Hri).
    destruct (mapToolCalls_lookup functionCalls i tc Htc) as (fc & Hfc & Hid & Hname).
    exists fc, result. rewrite Hri, Hid, Hname. repeat split; assumption.
Qed.

Lemma tool_batch_answered_witness :
  exists w' evs responses,
    handleMessage reminderConfig (hostAt 0) reminderMessage
      {| this := playingSession 0 ∅; nodesCreated := 0 |}
    = (Ok tt, w', evs) /\
    sentBatches evs = [responses] /\
    length responses = length [reminderCall] /\
    forall i,
      (i < length [reminderCall])%nat ->
      exists fc result,
        [reminderCall] !! i = Some fc /\
        [JString "Reminder set for call mom"] !! i = Some result /\
        responses !! i
        = Some {| fr_id := id fc; fr_name := name fc;
                  response := JObject [("result", result)] |}.
Proof.
  apply (tool_batch_answered reminderConfig (hostAt 0) reminderMessage
           [reminderCall] (fun _ => Ok [JString "Reminder set for call mom"])
           [JString "Reminder set for call mom"]
           {| this := playingSession 0 ∅; nodesCreated := 0 |}).
  - reflexivity.
  - reflexivity.
  - reflexivity.
  - reflexivity.
  - intros f txt u c Hf. injection Hf as <-. reflexivity.
Defined.

(** ** Speech helper *)

(** C9: after any recognition error the listening flag is false. The kinds
    [no-speech] and [aborted] are swallowed: nothing is logged. Every other
    kind is logged, once, with the kind in the message. *)
Theorem recognition_error_handling (error : string) (st : Speech.state) :
  Speech.isListening (Speech.onerror error st) = false /\
  (error = "no-speech" \/ error = "aborted" ->
   Speech.console (Speech.onerror error st) = Speech.console st) /\
  (error <> "no-speech" -> error <> "aborted" ->
   Speech.console (Speech.onerror error st)
   = Speech.console st ++ [String.append "Speech recognition error " error]).
Proof.
  unfold Speech.onerror.
  destruct (String.eqb_spec error "no-speech") as [E1|E1];
    destruct (String.eqb_spec error "aborted") as [E2|E2];
    cbn [orb]; (split; [reflexivity|]); split;
    try (intros; reflexivity); try (intros; congruence).
  intros [H|H]; congruence.
Qed.

Lemma recognition_error_handling_witness :
  Speech.console
    (Speech.onerror "network" {| Speech.isListening := true; Speech.console := [] |})
  = [] ++ [String.append "Speech recognition error " "network"] /\
  Speech.console
    (Speech.onerror "aborted" {| Speech.isListening := true; Speech.console := [] |})
  = [].
Proof.
  split.
  - apply (proj2 (proj2 (recognition_error_handling "network"
                           {| Speech.isListening := true; Speech.console := [] |})));
      discriminate.
  - apply (proj1 (proj2 (recognition_error_handling "aborted"
                           {| Speech.isListening := true; Speech.console := [] |}))).
    right. reflexivity.
Defined.

(** * Part III: further properties of the code *)

(** ** Codec: sizes, saturation, order, re-encoding, capture *)

Section CodecMore.
Import Base64.

Local Ltac Zify.zify_post_hook ::= Z.to_euclidean_division_equations.
Local Open Scope Q_scope.

Lemma floatTo16BitPCM_length (float32Array : list Q) :
  length (floatTo16BitPCM float32Array) = (2 * length float32Array)%nat.
Proof.
  induction float32Array as [|x l IH]; [reflexivity|].
  change (floatTo16BitPCM (x :: l))
    with (setInt16_le (scale_sample x) ++ floatTo16BitPCM l).
  rewrite length_app, IH. cbn [setInt16_le length]. lia.
Qed.

Lemma encode_groups_length (l : list ascii) :
  length (encode_groups l) = (4 * ((length l + 2) / 3))%nat.
Proof.
  induction l as [| a | a b | a b c l IH] using list_ind3;
    try reflexivity.
  cbn [encode_groups length]. rewrite IH.
  replace (S (S (S (length l))) + 2)%nat with ((length l + 2) + 1 * 3)%nat by lia.
  rewrite Nat.div_add by lia. lia.
Qed.

Lemma string_of_list_ascii_length (l : list ascii) :
  String.length (string_of_list_ascii l) = length l.
Proof. induction l as [|c l IH]; cbn; [reflexivity | now rewrite IH]. Qed.

Lemma binary_string_length (buffer : ArrayBuffer) :
  length (list_ascii_of_string
            (fold_left (fun acc b => String.append acc (String (ascii_of_byte b) EmptyString))
                       buffer EmptyString))
  = length buffer.
Proof.
  rewrite binary_of_bytes.
  change (String.append EmptyString ?s) with s.
  now rewrite list_ascii_of_string_of_list_ascii, length_map.
Qed.

(** The number [q] stands for the integer [z]: truncation finds it. *)
Lemma trunc_of_integer (q : Q) (z : Z) :
  q == inject_Z z -> Z.quot (Qnum q) (Zpos (Qden q)) = z.
Proof.
  destruct q as [n d]. unfold Qeq, inject_Z. cbn. intros H.
  replace n with (z * Z.pos d)%Z by lia.
  apply Z.quot_mul. lia.
Qed.

Lemma clamp_high (x : Q) : 1 <= x -> clamp x = 1.
Proof.
  intros H. unfold clamp, Math_min, Math_max.
  apply Qle_bool_iff in H. rewrite H. reflexivity.
Qed.

Lemma clamp_low (x : Q) : x <= -1 -> clamp x == -1.
Proof.
  intros H. unfold clamp, Math_min, Math_max.
  destruct (Qle_bool 1 x) eqn:E1.
  - apply Qle_bool_iff in E1. lra.
  - destruct (Qle_bool (-1) x) eqn:E2; [|reflexivity].
    apply Qle_bool_iff in E2. lra.
Qed.

Lemma clamp_inside (x : Q) : -1 <= x -> x < 1 -> clamp x = x.
Proof.
  intros Hlo Hhi. unfold clamp, Math_min, Math_max.
  destruct (Qle_bool 1 x) eqn:E1.
  - apply Qle_bool_iff in E1. lra.
  - apply Qle_bool_iff in Hlo. now rewrite Hlo.
Qed.

Lemma clamp_mono (x y : Q) : x <= y -> clamp x <= clamp y.
Proof.
  intros H. unfold clamp, Math_min, Math_max.
  destruct (Qle_bool 1 x) eqn:X1; destruct (Qle_bool 1 y) eqn:Y1;
    try apply Qle_bool_iff in X1; try apply Qle_bool_false in X1;
    try apply Qle_bool_iff in Y1; try apply Qle_bool_false in Y1;
    try replace (Qle_bool (-1) 1) with true by reflexivity;
    try (destruct (Qle_bool (-1) x) eqn:X2;
         [apply Qle_bool_iff in X2 | apply Qle_bool_false in X2]);
    try (destruct (Qle_bool (-1) y) eqn:Y2;
         [apply Qle_bool_iff in Y2 | apply Qle_bool_false in Y2]);
    lra.
Qed.

Lemma trunc_mono (a b : Q) :
  a <= b ->
  (Z.quot (Qnum a) (Zpos (Qden a)) <= Z.quot (Qnum b) (Zpos (Qden b)))%Z.
Proof.
  intros Hab.
  set (ta := Z.quot (Qnum a) (Zpos (Qden a))).
  set (tb := Z.quot (Qnum b) (Zpos (Qden b))).
  assert (Hgoal : inject_Z ta < inject_Z (tb + 1)).
  { rewrite inject_Z_plus. change (inject_Z 1) with 1.
    destruct (Qlt_le_dec a 0) as [Ha|Ha]; destruct (Qlt_le_dec b 0) as [Hb|Hb].
    - destruct (trunc_nonpos a) as [_ A2]; [lra|].
      destruct (trunc_nonpos b) as [B1 _]; [lra|].
      fold ta in A2. fold tb in B1. lra.
    - destruct (trunc_nonpos a) as [_ A2]; [lra|].
      destruct (trunc_nonneg b Hb) as [_ B2].
      fold ta in A2. fold tb in B2.
      assert (Hta : inject_Z ta < inject_Z 1) by (change (inject_Z 1) with 1; lra).
      assert (Htb : inject_Z (-1) < inject_Z tb) by (change (inject_Z (-1)) with (-1); lra).
      rewrite <- Zlt_Qlt in Hta, Htb.
      assert (Hz : (ta < tb + 1)%Z) by lia.
      rewrite Zlt_Qlt, inject_Z_plus in Hz. exact Hz.
    - lra.
    - destruct (trunc_nonneg a Ha) as [A1 _].
      destruct (trunc_nonneg b Hb) as [_ B2].
      fold ta in A1. fold tb in B2. lra. }
  rewrite <- Zlt_Qlt in Hgoal. lia.
Qed.

Lemma scale_sample_mono (x y : Q) : x <= y -> scale_sample x <= scale_sample y.
Proof.
  intros H. pose proof (clamp_mono x y H) as Hc.
  destruct (scale_sample_cases x) as [[Hx Ex] | [Hx Ex]];
    destruct (scale_sample_cases y) as [[Hy Ey] | [Hy Ey]];
    rewrite Ex, Ey; lra.
Qed.

Lemma scale_sample_range (x : Q) :
  -32768 <= scale_sample x /\ scale_sample x <= 32767.
Proof.
  destruct (clamp_range x) as [Hlo Hhi].
  destruct (scale_sample_cases x) as [[Hx Ex] | [Hx Ex]]; rewrite Ex; split; lra.
Qed.

End CodecMore.

Section CodecMoreFacts.

Local Ltac Zify.zify_post_hook ::= Z.to_euclidean_division_equations.
Local Open Scope Q_scope.

Lemma reencode_sample (v : Z) :
  (-32768 <= v <= 32767)%Z ->
  ToInt16 (scale_sample (inject_Z v / 32768)) = reencoded v.
Proof.
  intros Hv.
  destruct (sample_of_int16_range v Hv) as [Hlo Hhi].
  assert (Hlt : inject_Z v / 32768 < 1) by lra.
  unfold scale_sample. rewrite (clamp_inside _ Hlo Hlt).
  unfold reencoded, ToInt16.
  destruct (Qle_bool 0 (inject_Z v / 32768)) eqn:E; cbn [negb].
  - apply Qle_bool_iff in E.
    assert (Hv0 : (0 <= v)%Z).
    { unfold Qle, Qdiv, Qmult, Qinv, inject_Z in E. cbn in E. lia. }
    unfold Qdiv, Qmult, Qinv, inject_Z. cbn [Qnum Qden].
    change (Z.pos (1 * 32768 * 1)) with 32768%Z.
    clear Hlo Hhi Hlt E.
    destruct (Z.ltb_spec 0 v);
      destruct (Z.leb_spec 32768 (((v * 1 * 32767) ÷ 32768) mod 65536)); lia.
  - apply Qle_bool_false in E.
    assert (Hv0 : (v < 0)%Z).
    { unfold Qlt, Qdiv, Qmult, Qinv, inject_Z in E. cbn in E. lia. }
    unfold Qdiv, Qmult, Qinv, inject_Z. cbn [Qnum Qden].
    change (Z.pos (1 * 32768 * 1)) with 32768%Z.
    clear Hlo Hhi Hlt E.
    destruct (Z.ltb_spec 0 v);
      destruct (Z.leb_spec 32768 (((v * 1 * 32768) ÷ 32768) mod 65536)); lia.
Qed.

End CodecMoreFacts.

Lemma base64_decode_encode (buffer : ArrayBuffer) :
  base64ToArrayBuffer (arrayBufferToBase64 buffer) = Ok buffer.
Proof.
  unfold base64ToArrayBuffer, arrayBufferToBase64.
  rewrite atob_btoa, binary_of_bytes.
  change (String.append EmptyString ?s) with s.
  rewrite list_ascii_of_string_of_list_ascii, List.map_map.
  rewrite <- (List.map_id buffer) at 2.
  f_equal. apply List.map_ext. intros b. apply byte_of_ascii_of_byte.
Qed.

(** X1: while the session is not active the capture handler returns at once:
    no volume is reported and nothing is to be sent. While it is active (and
    the volume callback returns) it hands over a payload that decodes, as
    base64 and then as PCM16, to two bytes and one float per captured
    sample, each float within two quantization steps of the clamped
    sample. *)
Theorem capture_frame_decodes (cfg : LiveConfig) (Math_sqrt : Q -> Q)
  (inputData : list Q) (w : World) :
  (active (this w) = false ->
   onaudioprocess cfg Math_sqrt inputData w = (Ok None, w, [])) /\
  (active (this w) = true ->
   (forall f u m, onVolumeChange cfg = Some f -> f u m = Ok tt) ->
   exists payload evs pcm decoded,
     onaudioprocess cfg Math_sqrt inputData w = (Ok (Some payload), w, evs) /\
     base64ToArrayBuffer payload = Ok pcm /\
     length pcm = (2 * length inputData)%nat /\
     pcm16ToFloat pcm = Ok decoded /\
     Forall2 (fun x y => (Qabs (y - clamp x) < 2 * quantum)%Q) inputData decoded).
Proof.
  destruct w as [s n].
  destruct s as [se ic oc isrc pr nst srcs act vi vc].
  unfold onaudioprocess, call_onVolumeChange.
  unfold bind at 1. cbn [get_this this active]. split.
  - intros ->. reflexivity.
  - intros -> Hret. cbn [negb].
    assert (Hrest :
              base64ToArrayBuffer (arrayBufferToBase64 (floatTo16BitPCM inputData))
              = Ok (floatTo16BitPCM inputData) /\
              length (floatTo16BitPCM inputData) = (2 * length inputData)%nat /\
              pcm16ToFloat (floatTo16BitPCM inputData)
              = Ok (List.map quantize inputData) /\
              Forall2 (fun x y => (Qabs (y - clamp x) < 2 * quantum)%Q)
                      inputData (List.map quantize inputData)).
    { split; [apply base64_decode_encode|].
      split; [apply floatTo16BitPCM_length|].
      split; [apply pcm16_decode_encode|].
      induction inputData as [|x l IH]; cbn [List.map]; constructor; [|exact IH].
      apply quantize_error. }
    unfold bind, emit, lift, ret.
    destruct (onVolumeChange cfg) as [f|] eqn:Ef;
      [rewrite (Hret f _ _ eq_refl)|];
      (do 4 eexists; split; [reflexivity | exact Hrest]).
Qed.

Lemma capture_frame_decodes_witness :
  exists payload evs pcm decoded,
    onaudioprocess quietConfig (fun q => q) [1 # 2; -1 # 4; 3]%Q
      {| this := playingSession 0 ∅; nodesCreated := 0 |}
    = (Ok (Some payload), {| this := playingSession 0 ∅; nodesCreated := 0 |}, evs) /\
    base64ToArrayBuffer payload = Ok pcm /\
    length pcm = (2 * length [1 # 2; -1 # 4; 3]%Q)%nat /\
    pcm16ToFloat pcm = Ok decoded /\
    Forall2 (fun x y => (Qabs (y - clamp x) < 2 * quantum)%Q)
            [1 # 2; -1 # 4; 3]%Q decoded.
Proof.
  apply (proj2 (capture_frame_decodes quietConfig (fun q => q) [1 # 2; -1 # 4; 3]%Q
                  {| this := playingSession 0 ∅; nodesCreated := 0 |})).
  - reflexivity.
  - intros f u m Hf. injection Hf as <-. reflexivity.
Defined.

(** X2: the encoder saturates. A sample at or above 1 is written as 0x7FFF
    and a sample at or below -1 as 0x8000, whatever its size. *)
Theorem pcm_encoding_saturates (x : Q) (rest : list Q) :
  ((1 <= x)%Q ->
   floatTo16BitPCM (x :: rest) = Byte.xff :: Byte.x7f :: floatTo16BitPCM rest) /\
  ((x <= -1)%Q ->
   floatTo16BitPCM (x :: rest) = Byte.x00 :: Byte.x80 :: floatTo16BitPCM rest).
Proof.
  change (floatTo16BitPCM (x :: rest))
    with (setInt16_le (scale_sample x) ++ floatTo16BitPCM rest).
  split; intros Hx.
  - unfold scale_sample. rewrite (clamp_high x Hx). reflexivity.
  - assert (Hv : setInt16_le (scale_sample x) = [Byte.x00; Byte.x80]).
    { unfold setInt16_le.
      pose proof (clamp_low x Hx) as Hc.
      assert (Hs : (scale_sample x == inject_Z (-32768))%Q).
      { destruct (scale_sample_cases x) as [[Hneg E] | [Hpos E]]; rewrite E.
        - rewrite Hc. reflexivity.
        - rewrite Hc in Hpos. exfalso. revert Hpos. unfold Qle. cbn. lia. }
      assert (Hr : (-32768 <= scale_sample x /\ scale_sample x <= 32767)%Q)
        by apply scale_sample_range.
      rewrite (ToInt16_small _ (proj1 Hr) (proj2 Hr)).
      rewrite (trunc_of_integer _ _ Hs). reflexivity. }
    rewrite Hv. reflexivity.
Qed.

Lemma pcm_encoding_saturates_witness :
  floatTo16BitPCM [7 # 2; 0]%Q
  = Byte.xff :: Byte.x7f :: floatTo16BitPCM [0%Q] /\
  floatTo16BitPCM [-3; 0]%Q
  = Byte.x00 :: Byte.x80 :: floatTo16BitPCM [0%Q].
Proof.
  split.
  - apply (proj1 (pcm_encoding_saturates (7 # 2) [0%Q])). unfold Qle. cbn. lia.
  - apply (proj2 (pcm_encoding_saturates (-3) [0%Q])). unfold Qle. cbn. lia.
Defined.

(** X3: the round trip keeps the order of samples: of two samples, the
    smaller one never comes back larger than the other. *)
Theorem pcm_roundtrip_preserves_order (x y : Q) :
  (x <= y)%Q ->
  exists qx qy,
    pcm16ToFloat (floatTo16BitPCM [x; y]) = Ok [qx; qy] /\ (qx <= qy)%Q.
Proof.
  intros Hxy. exists (quantize x), (quantize y).
  split; [apply (pcm16_decode_encode [x; y])|].
  unfold quantize.
  destruct (scale_sample_range x) as [Hx1 Hx2].
  destruct (scale_sample_range y) as [Hy1 Hy2].
  rewrite (ToInt16_small _ Hx1 Hx2), (ToInt16_small _ Hy1 Hy2).
  pose proof (trunc_mono _ _ (scale_sample_mono x y Hxy)) as Ht.
  rewrite Zle_Qle in Ht.
  unfold Qdiv. change (/ 32768)%Q with (1 # 32768)%Q. lra.
Qed.

Lemma pcm_roundtrip_preserves_order_witness :
  exists qx qy,
    pcm16ToFloat (floatTo16BitPCM [-1 # 3; 65535 # 65536]%Q) = Ok [qx; qy] /\
    (qx <= qy)%Q.
Proof.
  apply (pcm_roundtrip_preserves_order (-1 # 3) (65535 # 65536)).
  unfold Qle. cbn. lia.
Defined.

(** X4: decoding a PCM16 buffer and encoding the floats again is not the
    identity: every positive sample comes back one lower (the 0x7FFF scale
    followed by truncation), every other sample comes back unchanged. *)
Theorem pcm_reencoding_lowers_positive (arrayBuffer : ArrayBuffer)
  (int16Array : list Z) (float32Array : list Q) :
  Int16Array arrayBuffer = Ok int16Array ->
  pcm16ToFloat arrayBuffer = Ok float32Array ->
  Int16Array (floatTo16BitPCM float32Array) = Ok (List.map reencoded int16Array).
Proof.
  unfold pcm16ToFloat. intros Hview. rewrite Hview. intros [= <-].
  unfold Int16Array in *.
  rewrite floatTo16BitPCM_even, int16_elements_encode, List.map_map.
  destruct (Nat.even (length arrayBuffer)); [|discriminate Hview].
  injection Hview as <-. f_equal.
  pose proof (int16_elements_range arrayBuffer) as Hrange.
  induction Hrange as [|v l Hv _ IH]; [reflexivity|].
  cbn [List.map]. now rewrite IH, (reencode_sample v Hv).
Qed.

Lemma pcm_reencoding_lowers_positive_witness :
  Int16Array (floatTo16BitPCM [-32768 # 32768; 32767 # 32768; 0 # 32768; 1 # 32768]%Q)
  = Ok (List.map reencoded [-32768; 32767; 0; 1]%Z).
Proof.
  apply (pcm_reencoding_lowers_positive
           [Byte.x00; Byte.x80; Byte.xff; Byte.x7f; Byte.x00; Byte.x00; Byte.x01; Byte.x00]
           [-32768; 32767; 0; 1]%Z
           [-32768 # 32768; 32767 # 32768; 0 # 32768; 1 # 32768]%Q).
  - reflexivity.
  - reflexivity.
Defined.

(** X5: the three outcomes of building a playback buffer. A buffer with an
    odd number of bytes raises a RangeError; an empty buffer raises a
    NotSupportedError; any other buffer gives a mono buffer at 24 kHz with
    one frame per byte pair, whose duration is positive. *)
Theorem pcmToAudioBuffer_outcomes (arrayBuffer : ArrayBuffer) :
  (Nat.even (length arrayBuffer) = false ->
   pcmToAudioBuffer arrayBuffer = Throw RangeError) /\
  (arrayBuffer = [] -> pcmToAudioBuffer arrayBuffer = Throw NotSupportedError) /\
  (Nat.even (length arrayBuffer) = true -> arrayBuffer <> [] ->
   exists audioBuffer,
     pcmToAudioBuffer arrayBuffer = Ok audioBuffer /\
     sampleRate audioBuffer = 24000%positive /\
     length (channelData audioBuffer) = Nat.div2 (length arrayBuffer) /\
     duration audioBuffer = (Z.of_nat (Nat.div2 (length arrayBuffer)) # 24000)%Q /\
     (0 < duration audioBuffer)%Q).
Proof.
  unfold pcmToAudioBuffer, pcm16ToFloat, Int16Array.
  split; [|split].
  - intros ->. reflexivity.
  - intros ->. reflexivity.
  - intros Heven Hne. rewrite Heven.
    assert (Hlen : length (List.map (fun v => (inject_Z v / 32768)%Q)
                             (int16_elements arrayBuffer))
                   = Nat.div2 (length arrayBuffer))
      by now rewrite length_map, int16_elements_length.
    assert (Hpos : (0 < Nat.div2 (length arrayBuffer))%nat).
    { destruct arrayBuffer as [|lo [|hi rest]];
        [congruence | discriminate Heven |].
      cbn [length Nat.div2]. apply Nat.lt_0_succ. }
    destruct (List.map (fun v => (inject_Z v / 32768)%Q)
                (int16_elements arrayBuffer)) as [|x l] eqn:Esamples.
    { cbn in Hlen. lia. }
    cbn [length createBuffer].
    eexists. split; [reflexivity|].
    split; [reflexivity|]. split; [exact Hlen|].
    unfold duration. cbn [channelData sampleRate]. rewrite Hlen.
    split; [reflexivity|].
    unfold Qlt. cbn [Qnum Qden]. lia.
Qed.

Lemma pcmToAudioBuffer_outcomes_witness :
  pcmToAudioBuffer [Byte.x01; Byte.x02; Byte.x03] = Throw RangeError /\
  exists audioBuffer,
    pcmToAudioBuffer [Byte.x01; Byte.x02] = Ok audioBuffer /\
    sampleRate audioBuffer = 24000%positive /\
    length (channelData audioBuffer) = Nat.div2 (length [Byte.x01; Byte.x02]) /\
    duration audioBuffer
    = (Z.of_nat (Nat.div2 (length [Byte.x01; Byte.x02])) # 24000)%Q /\
    (0 < duration audioBuffer)%Q.
Proof.
  split.
  - apply (proj1 (pcmToAudioBuffer_outcomes [Byte.x01; Byte.x02; Byte.x03])).
    reflexivity.
  - apply (proj2 (proj2 (pcmToAudioBuffer_outcomes [Byte.x01; Byte.x02]))).
    + reflexivity.
    + discriminate.
Defined.

(** X6: the size of what the capture path sends: n samples become 2n bytes
    and 4 * ceil(2n / 3) characters of base64 text. *)
Theorem capture_payload_length (float32Array : list Q) :
  length (floatTo16BitPCM float32Array) = (2 * length float32Array)%nat /\
  String.length (arrayBufferToBase64 (floatTo16BitPCM float32Array))
  = (4 * ((2 * length float32Array + 2) / 3))%nat.
Proof.
  split; [apply floatTo16BitPCM_length|].
  unfold arrayBufferToBase64, Base64.btoa.
  rewrite string_of_list_ascii_length, encode_groups_length.
  now rewrite binary_string_length, floatTo16BitPCM_length.
Qed.

(** ** Playback: tracking, cursor accounting, flushes *)

Section PlaybackMore.

Local Open Scope session_scope.

Lemma enqueueAll_tracking (cfg : LiveConfig) (chunks : list (Host * AudioBuffer)) :
  forall w,
    is_Some (outputAudioContext (this w)) ->
    Forall (fun hc => no_playback_fault hc.1) chunks ->
    tracked_created w ->
    exists w' evs,
      enqueueAll cfg chunks w = (Ok tt, w', evs) /\
      tracked_created w' /\
      nodesCreated w' = (nodesCreated w + length chunks)%nat /\
      size (scheduledSources (this w'))
      = (size (scheduledSources (this w)) + length chunks)%nat /\
      startedSources evs = seq (nodesCreated w) (length chunks).
Proof.
  induction chunks as [|[h chunk] rest IH]; intros w Hctx Hok Hinv.
  - exists w, []. cbn. rewrite !Nat.add_0_r. repeat split; assumption.
  - apply Forall_cons in Hok as [Hh Hrest]. cbn [fst] in Hh.
    destruct (enqueue_ok cfg h chunk w Hctx Hh) as (e1 & Heq & _ & Hsrc & _).
    cbn zeta in Heq.
    set (w1 := {| this := _; nodesCreated := _ |}) in Heq.
    assert (Hfresh : nodesCreated w ∉ scheduledSources (this w)).
    { intros Hin. apply Hinv in Hin. lia. }
    assert (Hset1 : scheduledSources (this w1)
                    = {[nodesCreated w]} ∪ scheduledSources (this w)).
    { subst w1. destruct w as [s n]. destruct s. reflexivity. }
    assert (Hinv1 : tracked_created w1).
    { intros source Hin. rewrite Hset1 in Hin.
      change (nodesCreated w1) with (S (nodesCreated w)).
      apply elem_of_union in Hin as [Hin|Hin].
      - apply elem_of_singleton in Hin. lia.
      - apply Hinv in Hin. lia. }
    destruct (IH w1) as (w' & e2 & Hall & Hinv' & Hn & Hsize & Hstarted).
    { subst w1. destruct w as [s n]. destruct s. exact Hctx. }
    { exact Hrest. }
    { exact Hinv1. }
    exists w', (e1 ++ e2). split; [|split; [|split; [|split]]].
    + cbn [enqueueAll]. rewrite (bind_ok _ _ _ _ _ _ Heq), Hall. reflexivity.
    + exact Hinv'.
    + rewrite Hn. change (nodesCreated w1) with (S (nodesCreated w)).
      cbn [length]. lia.
    + rewrite Hsize, Hset1, size_union, size_singleton by set_solver.
      cbn [length]. lia.
    + unfold startedSources in *. rewrite omap_app, Hsrc, Hstarted.
      reflexivity.
Qed.

Lemma stoppedSources_stops (sources : list nat) :
  stoppedSources (SourceStop <$> sources) = sources.
Proof.
  induction sources as [|x l IH]; [reflexivity|].
  change (stoppedSources (SourceStop <$> x :: l))
    with (x :: stoppedSources (SourceStop <$> l)).
  now rewrite IH.
Qed.

End PlaybackMore.

(** X7: every enqueued chunk gets a source node of its own. Starting from a
    session whose tracked sources were all created by the host, a run of n
    enqueues that the host does not refuse creates the n next nodes, starts
    them in that order and tracks n sources more. *)
Theorem enqueues_track_fresh_sources (cfg : LiveConfig)
  (chunks : list (Host * AudioBuffer)) (w : World) :
  is_Some (outputAudioContext (this w)) ->
  Forall (fun hc => no_playback_fault hc.1) chunks ->
  tracked_created w ->
  exists w' evs,
    enqueueAll cfg chunks w = (Ok tt, w', evs) /\
    tracked_created w' /\
    size (scheduledSources (this w'))
    = (size (scheduledSources (this w)) + length chunks)%nat /\
    startedSources evs = seq (nodesCreated w) (length chunks).
Proof.
  intros Hctx Hok Hinv.
  destruct (enqueueAll_tracking cfg chunks w Hctx Hok Hinv)
    as (w' & evs & Hrun & Hinv' & _ & Hsize & Hstarted).
  exists w', evs. repeat split; assumption.
Qed.

Lemma enqueues_track_fresh_sources_witness :
  exists w' evs,
    enqueueAll quietConfig [(hostAt 5, silence 2400); (hostAt 5, silence 4800)]
      {| this := playingSession 0 ∅; nodesCreated := 0 |}
    = (Ok tt, w', evs) /\
    tracked_created w' /\
    size (scheduledSources (this w'))
    = (size (scheduledSources
               (this {| this := playingSession 0 ∅; nodesCreated := 0 |}))
       + length [(hostAt 5, silence 2400); (hostAt 5, silence 4800)])%nat /\
    startedSources evs
    = seq (nodesCreated {| this := playingSession 0 ∅; nodesCreated := 0 |})
          (length [(hostAt 5, silence 2400); (hostAt 5, silence 4800)]).
Proof.
  apply (enqueues_track_fresh_sources quietConfig
           [(hostAt 5, silence 2400); (hostAt 5, silence 4800)]
           {| this := playingSession 0 ∅; nodesCreated := 0 |}).
  - eexists. reflexivity.
  - repeat constructor.
  - intros source Hin. cbn in Hin. set_solver.
Defined.

(** X9: a chunk that played to its end is no longer tracked, so a flush
    does not call [stop] on it, while it still stops every other tracked
    chunk; and a flush right after a flush stops nothing. *)
Theorem flush_skips_ended_chunks (h h' : Host) (source : nat) (w : World) :
  (exists w' evs,
     (onended source ;; stopAudioPlayback h)%session w = (Ok tt, w', evs) /\
     this w' = this (flushed w) /\
     (source ∉ stoppedSources evs) /\
     (forall other, other ∈ scheduledSources (this w) -> other <> source ->
                    other ∈ stoppedSources evs)) /\
  (stopAudioPlayback h ;; stopAudioPlayback h')%session w
  = (Ok tt, flushed w, SourceStop <$> elements (scheduledSources (this w))).
Proof.
  split.
  - destruct w as [s n]. destruct s as [se ic oc isrc pr nst srcs act vi vc].
    unfold onended. unfold bind at 1. cbn [set_this this nodesCreated].
    rewrite stopAudioPlayback_eq.
    do 2 eexists. split; [reflexivity|]. split; [reflexivity|].
    cbn [this scheduledSources with_scheduledSources app].
    rewrite stoppedSources_stops. split.
    + rewrite elem_of_elements. intros Hin.
      apply elem_of_difference in Hin as [_ Hn]. apply Hn.
      now apply elem_of_singleton.
    + intros other Hin Hne. rewrite elem_of_elements.
      apply elem_of_difference. split; [exact Hin|].
      intros Hs. apply elem_of_singleton in Hs. contradiction.
  - rewrite (bind_ok _ _ _ _ _ _ (stopAudioPlayback_eq h w)).
    rewrite stopAudioPlayback_eq.
    destruct w as [s n]. destruct s as [se ic oc isrc pr nst srcs act vi vc].
    cbn. rewrite elements_empty. cbn. now rewrite app_nil_r.
Qed.

Lemma flush_skips_ended_chunks_witness :
  exists w' evs,
    (onended 1%nat ;; stopAudioPlayback (hostAt 3))%session
      {| this := playingSession 10 {[0%nat; 1%nat; 2%nat]}; nodesCreated := 3 |}
    = (Ok tt, w', evs) /\
    this w'
    = this (flushed {| this := playingSession 10 {[0%nat; 1%nat; 2%nat]};
                       nodesCreated := 3 |}) /\
    (1%nat ∉ stoppedSources evs) /\
    (forall other,
       other ∈ scheduledSources
                 (this {| this := playingSession 10 {[0%nat; 1%nat; 2%nat]};
                          nodesCreated := 3 |}) ->
       other <> 1%nat -> other ∈ stoppedSources evs).
Proof.
  exact (proj1 (flush_skips_ended_chunks (hostAt 3) (hostAt 3) 1%nat
                  {| this := playingSession 10 {[0%nat; 1%nat; 2%nat]};
                     nodesCreated := 3 |})).
Defined.

(** ** Message handling: how the steps compose *)

Section MessageShape.

Local Open Scope session_scope.

(** [handleMessage] from the runs of its three parts: the start of the
    playback, the handler up to its first [await], and the pending
    playback. *)
Lemma handleMessage_parts (cfg : LiveConfig) (h : Host)
  (message : LiveServerMessage) (w w1 w2 : World) pending e0 rh e1 e2 :
  beginPlayback message w = (Ok pending, w, e0) ->
  (handleServerContent cfg h message ;; dispatchToolCalls cfg message) w
  = (rh, w1, e1) ->
  resumePlayback cfg h pending w1 = (Ok tt, w2, e2) ->
  handleMessage cfg h message w
  = match rh with
    | Throw e => (Throw e, w2, (e0 ++ e1 ++ []) ++ e2 ++ [])
    | Ok awaited =>
        let '(r, w3, e3) := sendToolResponses awaited w2 in
        (r, w3, (e0 ++ e1 ++ []) ++ e2 ++ [] ++ e3)
    end.
Proof.
  intros Hb Hh Hp.
  unfold handleMessage, handleMessage_sync.
  assert (Hsync :
            (pending0 <- beginPlayback message ;;
             handler <- settle (handleServerContent cfg h message ;;
                                dispatchToolCalls cfg message) ;;
             ret (pending0, handler)) w
            = (Ok (pending, rh), w1, e0 ++ e1 ++ [])).
  { rewrite (bind_ok _ _ _ _ _ _ Hb).
    unfold settle at 1. unfold bind at 1. rewrite Hh. reflexivity. }
  rewrite (bind_ok _ _ _ _ _ _ Hsync).
  unfold handleMessage_async. cbn [fst snd].
  fold (resumePlayback cfg h pending).
  rewrite (bind_ok _ _ _ _ _ _ Hp).
  unfold bind at 1. unfold lift at 1.
  destruct rh as [awaited|e]; [|reflexivity].
  destruct (sendToolResponses awaited w2) as [[r w3] e3]. reflexivity.
Qed.

End MessageShape.

Section MessageWorld.

Local Open Scope session_scope.

Lemma notices_quiet (evs : list event) :
  Forall (fun ev => is_notice ev = true) evs ->
  startTimes evs = [] /\ stoppedSources evs = [] /\ sentBatches evs = [].
Proof.
  induction 1 as [|ev l Hev _ (IH1 & IH2 & IH3)]; [repeat split|].
  destruct ev; try discriminate Hev; repeat split; assumption.
Qed.

Local Ltac notices := repeat constructor.

Lemma startTimes_stops (sources : list nat) :
  startTimes (SourceStop <$> sources) = [].
Proof. induction sources as [|x l IH]; [reflexivity | exact IH]. Qed.

Lemma call_onCaption_notice (cfg : LiveConfig) (txt : string) (u c : bool)
  (w : World) :
  exists r evs,
    call_onCaption cfg txt u c w = (r, w, evs) /\
    Forall (fun ev => is_notice ev = true) evs.
Proof.
  unfold call_onCaption, bind, emit, lift, ret.
  destruct (onCaption cfg) as [f|]; [destruct (f txt u c)|];
    do 2 eexists; (split; [reflexivity | notices]).
Qed.

Lemma handleTranscriptions_notice (cfg : LiveConfig) (sc : ServerContent)
  (w : World) :
  exists r evs,
    handleTranscriptions cfg sc w = (r, w, evs) /\
    Forall (fun ev => is_notice ev = true) evs.
Proof.
  unfold handleTranscriptions.
  assert (Hin : exists r evs,
             match inputTranscription sc with
             | Some t =>
                 match truthy (text t) with
                 | Some txt => call_onCaption cfg txt true (turnComplete sc)
                 | None => ret tt
                 end
             | None => ret tt
             end w = (r, w, evs) /\ Forall (fun ev => is_notice ev = true) evs).
  { destruct (inputTranscription sc) as [t|];
      [destruct (truthy (text t))|];
      try apply call_onCaption_notice;
      exists (Ok tt), []; (split; [reflexivity | constructor]). }
  assert (Hout : exists r evs,
             match outputTranscription sc with
             | Some t =>
                 match truthy (text t) with
                 | Some txt => call_onCaption cfg txt false (turnComplete sc)
                 | None => ret tt
                 end
             | None => ret tt
             end w = (r, w, evs) /\ Forall (fun ev => is_notice ev = true) evs).
  { destruct (outputTranscription sc) as [t|];
      [destruct (truthy (text t))|];
      try apply call_onCaption_notice;
      exists (Ok tt), []; (split; [reflexivity | constructor]). }
  destruct Hin as (r1 & e1 & H1 & N1). destruct Hout as (r2 & e2 & H2 & N2).
  rewrite (bind_run _ _ _ _ _ _ H1).
  destruct r1 as [[]|e].
  - rewrite H2. exists r2, (e1 ++ e2). split; [reflexivity|].
    apply Forall_app. split; assumption.
  - exists (Throw e), e1. split; [reflexivity | exact N1].
Qed.

Lemma dispatchToolCalls_notice (cfg : LiveConfig) (message : LiveServerMessage)
  (w : World) :
  exists awaited evs,
    dispatchToolCalls cfg message w = (Ok awaited, w, evs) /\
    Forall (fun ev => is_notice ev = true) evs.
Proof.
  unfold dispatchToolCalls, bind, emit, ret.
  destruct (toolCall message); [destruct (onToolCall cfg)|];
    do 2 eexists; (split; [reflexivity | notices]).
Qed.

Lemma beginPlayback_notice (message : LiveServerMessage) (w : World) :
  exists pending evs,
    beginPlayback message w = (Ok pending, w, evs) /\
    Forall (fun ev => is_notice ev = true) evs.
Proof.
  destruct w as [s n].
  destruct s as [se ic oc isrc pr nst srcs act vi vc].
  unfold beginPlayback, playAudioChunk_begin.
  unfold try_catch, logPlaybackError, bind, lift, get_this, emit, ret.
  destruct (serverContent message) as [sc|]; cbn;
    [|do 2 eexists; (split; [reflexivity | notices])].
  destruct (truthy (audioData sc)) as [audio|]; cbn;
    [|do 2 eexists; (split; [reflexivity | notices])].
  destruct oc as [ctx|]; cbn;
    [|do 2 eexists; (split; [reflexivity | notices])].
  destruct (base64ToArrayBuffer audio); cbn;
    do 2 eexists; (split; [reflexivity | notices]).
Qed.

(** The handler up to its first [await]: apart from the flush of an
    interruption, it leaves the session alone. *)
Lemma handler_world (cfg : LiveConfig) (h : Host) (message : LiveServerMessage)
  (w : World) :
  exists rh evs,
    (handleServerContent cfg h message ;; dispatchToolCalls cfg message) w
    = (rh, (if isInterruption message then flushed w else w),
       (if isInterruption message
        then SourceStop <$> elements (scheduledSources (this w)) else [])
         ++ evs) /\
    Forall (fun ev => is_notice ev = true) evs.
Proof.
  assert (Hcontent :
            exists r evs,
              handleServerContent cfg h message w
              = (r, (if isInterruption message then flushed w else w),
                 (if isInterruption message
                  then SourceStop <$> elements (scheduledSources (this w)) else [])
                   ++ evs) /\
              Forall (fun ev => is_notice ev = true) evs).
  { unfold handleServerContent, isInterruption.
    destruct (serverContent message) as [sc|];
      [|exists (Ok tt), []; split; [reflexivity | constructor]].
    destruct (interrupted sc); cbn [when].
    - unfold handleInterruption.
      destruct (call_onCaption_notice cfg "[Interrupted]" false true (flushed w))
        as (rc & ec & Hc & Nc).
      assert (Hint : (stopAudioPlayback h ;;
                      call_onCaption cfg "[Interrupted]" false true) w
                     = (rc, flushed w,
                        (SourceStop <$> elements (scheduledSources (this w))) ++ ec)).
      { rewrite (bind_ok _ _ _ _ _ _ (stopAudioPlayback_eq h w)), Hc. reflexivity. }
      rewrite (bind_run _ _ _ _ _ _ Hint).
      destruct rc as [[]|e].
      + destruct (handleTranscriptions_notice cfg sc (flushed w))
          as (rt & et & Ht & Nt).
        rewrite Ht. exists rt, (ec ++ et). split; [now rewrite app_assoc|].
        apply Forall_app. split; assumption.
      + exists (Throw e), ec. split; [reflexivity | exact Nc].
    - destruct (handleTranscriptions_notice cfg sc w) as (rt & et & Ht & Nt).
      rewrite (bind_ok _ _ _ _ _ _ (eq_refl : ret tt w = (Ok tt, w, []))), Ht.
      exists rt, et. split; [reflexivity | exact Nt]. }
  destruct Hcontent as (r & e1 & Hrun & N1).
  rewrite (bind_run _ _ _ _ _ _ Hrun).
  destruct r as [[]|e].
  - destruct (dispatchToolCalls_notice cfg message
                (if isInterruption message then flushed w else w))
      as (awaited & e2 & Hd & N2).
    rewrite Hd. exists (Ok awaited), (e1 ++ e2).
    split; [now rewrite app_assoc|]. apply Forall_app. split; assumption.
  - exists (Throw e), e1. split; [reflexivity | exact N1].
Qed.

Lemma sendToolResponses_world awaited (w : World) :
  exists r evs,
    sendToolResponses awaited w = (r, w, evs) /\
    startTimes evs = [] /\ stoppedSources evs = [] /\ captions evs = [].
Proof.
  unfold sendToolResponses, bind, lift, emit, ret.
  destruct awaited as [[toolCalls [results|e]]|];
    [destruct (functionResponses toolCalls results)| |];
    do 2 eexists; repeat split.
Qed.

(** A message: what it starts and what it stops. The sources stopped are
    those of the flush, then those the pending playback stops (none); the
    chunks started are those of the pending playback; and the session ends
    as the pending playback leaves it. *)
Lemma handleMessage_world (cfg : LiveConfig) (h : Host)
  (message : LiveServerMessage) (w w2 : World) pending e0 e2 :
  beginPlayback message w = (Ok pending, w, e0) ->
  resumePlayback cfg h pending (if isInterruption message then flushed w else w)
  = (Ok tt, w2, e2) ->
  exists r evs,
    handleMessage cfg h message w = (r, w2, evs) /\
    startTimes evs = startTimes e2 /\
    stoppedSources evs
    = (if isInterruption message then elements (scheduledSources (this w)) else [])
        ++ stoppedSources e2.
Proof.
  intros Hb Hp.
  destruct (beginPlayback_notice message w) as (p' & e0' & Hb' & N0).
  rewrite Hb in Hb'. injection Hb' as <- <-.
  destruct (handler_world cfg h message w) as (rh & e1 & Hh & N1).
  rewrite (handleMessage_parts cfg h message w _ w2 pending e0 rh _ e2 Hb Hh Hp).
  destruct (notices_quiet e0 N0) as (S0 & T0 & _).
  destruct (notices_quiet e1 N1) as (S1 & T1 & _).
  assert (Hflush_starts :
            startTimes (if isInterruption message
                        then SourceStop <$> elements (scheduledSources (this w))
                        else []) = []).
  { destruct (isInterruption message); [apply startTimes_stops | reflexivity]. }
  assert (Hflush_stops :
            stoppedSources (if isInterruption message
                            then SourceStop <$> elements (scheduledSources (this w))
                            else [])
            = (if isInterruption message
               then elements (scheduledSources (this w)) else [])).
  { destruct (isInterruption message); [apply stoppedSources_stops | reflexivity]. }
  destruct rh as [awaited|e].
  - destruct (sendToolResponses_world awaited w2) as (r & e3 & Hs & S3 & T3 & _).
    rewrite Hs. exists r. eexists. split; [reflexivity|].
    unfold startTimes, stoppedSources in *.
    rewrite !omap_app, S0, S1, T0, T1, S3, T3, Hflush_starts, Hflush_stops.
    cbn [omap app]. rewrite !app_nil_r. split; reflexivity.
  - exists (Throw e). eexists. split; [reflexivity|].
    unfold startTimes, stoppedSources in *.
    rewrite !omap_app, S0, S1, T0, T1, Hflush_starts, Hflush_stops.
    cbn [omap app]. rewrite !app_nil_r. split; reflexivity.
Qed.

End MessageWorld.

Section MessagePlayback.

Local Open Scope session_scope.

Lemma beginPlayback_no_context (message : LiveServerMessage) (w : World) :
  outputAudioContext (this w) = None ->
  beginPlayback message w = (Ok None, w, []).
Proof.
  destruct w as [s n].
  destruct s as [se ic oc isrc pr nst srcs act vi vc].
  cbn. intros ->.
  unfold beginPlayback, bind, get_this, ret. cbn.
  destruct (serverContent message) as [sc|]; [|reflexivity].
  destruct (truthy (audioData sc)); reflexivity.
Qed.

Lemma beginPlayback_decoded (message : LiveServerMessage) (sc : ServerContent)
  (audio : string) (chunk : AudioBuffer) (w : World) :
  serverContent message = Some sc ->
  truthy (audioData sc) = Some audio ->
  decodeChunk audio = Ok chunk ->
  is_Some (outputAudioContext (this w)) ->
  beginPlayback message w = (Ok (Some (Ok chunk)), w, []).
Proof.
  intros Hsc Haudio Hdec [ctx Hctx].
  destruct w as [s n].
  destruct s as [se ic oc isrc pr nst srcs act vi vc].
  cbn in Hctx. subst oc.
  unfold decodeChunk in Hdec.
  unfold beginPlayback, playAudioChunk_begin.
  unfold try_catch, logPlaybackError, bind, lift, get_this, emit, ret.
  rewrite Hsc, Haudio. cbn.
  destruct (base64ToArrayBuffer audio) as [arrayBuffer|e]; [|discriminate Hdec].
  cbn. rewrite Hdec. reflexivity.
Qed.

Lemma resume_stops_nothing (cfg : LiveConfig) (h : Host)
  (promise : result AudioBuffer) (w : World) r w' evs :
  playAudioChunk_resume cfg h promise w = (r, w', evs) ->
  stoppedSources evs = [].
Proof.
  intros Hrun. apply (f_equal snd) in Hrun. cbn [snd] in Hrun. subst evs.
  destruct w as [s n].
  destruct s as [se ic oc isrc pr nst srcs act vi vc].
  unfold playAudioChunk_resume, scheduleBuffer, createBufferSource,
    call_onVolumeChange, logPlaybackError, host_call, when.
  unfold try_catch, bind, lift, get_this, set_this, emit, throw, ret.
  cbn -[union singleton duration Qplus Qmult].
  destruct promise as [chunk|e];
    cbn -[union singleton duration Qplus Qmult]; [|reflexivity].
  destruct oc as [ctx|];
    cbn -[union singleton duration Qplus Qmult]; [|reflexivity].
  destruct (raises h CallCreateBufferSource);
    cbn -[union singleton duration Qplus Qmult]; [reflexivity|].
  destruct (raises h CallConnectDestination);
    cbn -[union singleton duration Qplus Qmult]; [reflexivity|].
  destruct (Qlt_bool nst (currentTime h));
    cbn -[union singleton duration Qplus Qmult];
    (destruct (raises h CallSourceStart);
     cbn -[union singleton duration Qplus Qmult]; [reflexivity|]);
    (destruct (onVolumeChange cfg) as [f|];
     cbn -[union singleton duration Qplus Qmult];
     [destruct (f 0 (4 # 10))%Q as [[]|e];
      cbn -[union singleton duration Qplus Qmult]|]); reflexivity.
Qed.

End MessagePlayback.

(** X10: a session without an output context (before [connect], after
    [stop]) plays nothing: whatever a message carries, no source is started;
    the session is left as it was, apart from the flush of an interruption,
    which leaves a cleared session cleared. *)
Theorem no_playback_without_output (cfg : LiveConfig) (h : Host)
  (message : LiveServerMessage) (w : World) :
  outputAudioContext (this w) = None ->
  exists r evs,
    handleMessage cfg h message w
    = (r, (if isInterruption message then flushed w else w), evs) /\
    startTimes evs = [] /\
    (this w = new_LiveSession ->
     this (if isInterruption message then flushed w else w) = new_LiveSession).
Proof.
  intros Hctx.
  pose proof (beginPlayback_no_context message w Hctx) as Hb.
  destruct (handleMessage_world cfg h message w
              (if isInterruption message then flushed w else w) None [] []
              Hb eq_refl) as (r & evs & Hrun & Hst & _).
  exists r, evs. split; [exact Hrun|]. split; [exact Hst|].
  intros Hnew. destruct (isInterruption message); [|exact Hnew].
  cbn. rewrite Hnew. reflexivity.
Qed.

Lemma no_playback_without_output_witness :
  exists r evs,
    handleMessage quietConfig (hostAt 3) (interruptingAudioMessage "AID/fw==")
      {| this := new_LiveSession; nodesCreated := 4 |}
    = (r, (if isInterruption (interruptingAudioMessage "AID/fw==")
           then flushed {| this := new_LiveSession; nodesCreated := 4 |}
           else {| this := new_LiveSession; nodesCreated := 4 |}), evs) /\
    startTimes evs = [] /\
    (this {| this := new_LiveSession; nodesCreated := 4 |} = new_LiveSession ->
     this (if isInterruption (interruptingAudioMessage "AID/fw==")
           then flushed {| this := new_LiveSession; nodesCreated := 4 |}
           else {| this := new_LiveSession; nodesCreated := 4 |})
     = new_LiveSession).
Proof.
  apply (no_playback_without_output quietConfig (hostAt 3)
           (interruptingAudioMessage "AID/fw==")
           {| this := new_LiveSession; nodesCreated := 4 |}).
  reflexivity.
Defined.

(** X11: audio carried by an interrupting message is not flushed with the
    rest. The flush runs while [playAudioChunk] is suspended at its [await];
    the chunk is scheduled afterwards, at the device time (the cursor is 0
    by then), and ends up as the only tracked chunk. *)
Theorem interrupting_audio_plays_after_flush (cfg : LiveConfig) (h : Host)
  (message : LiveServerMessage) (sc : ServerContent) (audio : string)
  (chunk : AudioBuffer) (w : World) :
  serverContent message = Some sc ->
  truthy (audioData sc) = Some audio ->
  decodeChunk audio = Ok chunk ->
  interrupted sc = true ->
  is_Some (outputAudioContext (this w)) ->
  no_playback_fault h ->
  exists r w' evs,
    handleMessage cfg h message w = (r, w', evs) /\
    stoppedSources evs = elements (scheduledSources (this w)) /\
    startTimes evs = [cursorAt (currentTime h) 0] /\
    scheduledSources (this w') = {[nodesCreated w]} /\
    nextStartTime (this w') = (cursorAt (currentTime h) 0 + duration chunk)%Q.
Proof.
  intros Hsc Haudio Hdec Hint Hctx Hok.
  pose proof (beginPlayback_decoded message sc audio chunk w Hsc Haudio Hdec Hctx)
    as Hb.
  assert (Hflag : isInterruption message = true).
  { unfold isInterruption. now rewrite Hsc. }
  assert (Hctx' : is_Some (outputAudioContext (this (flushed w)))).
  { destruct w as [s n]. destruct s. exact Hctx. }
  destruct (enqueue_ok cfg h chunk (flushed w) Hctx' Hok)
    as (e2 & Heq & Hst & Hsrc & _).
  cbn zeta in Heq, Hst.
  set (w2 := {| this := _; nodesCreated := _ |}) in Heq.
  assert (Hp : resumePlayback cfg h (Some (Ok chunk))
                 (if isInterruption message then flushed w else w)
               = (Ok tt, w2, e2)).
  { rewrite Hflag. exact Heq. }
  destruct (handleMessage_world cfg h message w w2 _ [] e2 Hb Hp)
    as (r & evs & Hrun & Hstarts & Hstops).
  exists r, w2, evs. split; [exact Hrun|].
  rewrite Hflag in Hstops.
  pose proof (resume_stops_nothing cfg h (Ok chunk) (flushed w) _ _ _ Heq) as Hnone.
  rewrite Hnone, app_nil_r in Hstops.
  split; [exact Hstops|]. split; [now rewrite Hstarts, Hst|].
  subst w2. destruct w as [s n]. destruct s. cbn.
  split; [apply union_empty_r_L | reflexivity].
Qed.

Lemma interrupting_audio_plays_after_flush_witness :
  exists r w' evs,
    handleMessage quietConfig (hostAt 3) (interruptingAudioMessage "AID/fw==")
      {| this := playingSession 10 {[0%nat; 1%nat]}; nodesCreated := 2 |}
    = (r, w', evs) /\
    stoppedSources evs
    = elements (scheduledSources
                  (this {| this := playingSession 10 {[0%nat; 1%nat]};
                           nodesCreated := 2 |})) /\
    startTimes evs = [cursorAt (currentTime (hostAt 3)) 0] /\
    scheduledSources (this w')
    = {[nodesCreated {| this := playingSession 10 {[0%nat; 1%nat]};
                        nodesCreated := 2 |}]} /\
    nextStartTime (this w')
    = (cursorAt (currentTime (hostAt 3)) 0
       + duration {| sampleRate := 24000;
                     channelData := [-32768 # 32768; 32767 # 32768] |})%Q.
Proof.
  apply (interrupting_audio_plays_after_flush quietConfig (hostAt 3)
           (interruptingAudioMessage "AID/fw==")
           {| audioData := Some "AID/fw=="; interrupted := true;
              inputTranscription := None; outputTranscription := None;
              turnComplete := false |}
           "AID/fw=="
           {| sampleRate := 24000;
              channelData := [-32768 # 32768; 32767 # 32768] |}
           {| this := playingSession 10 {[0%nat; 1%nat]}; nodesCreated := 2 |}).
  - reflexivity.
  - reflexivity.
  - vm_compute. reflexivity.
  - reflexivity.
  - eexists. reflexivity.
  - repeat constructor.
Defined.

(** ** Tool calls and captions: the other outcomes *)

Section ToolOutcomes.

Local Open Scope session_scope.

Lemma functionResponsesFrom_too_many (toolCalls : list ToolCallData)
  (results : list jsval) :
  forall index,
    (index <= length toolCalls)%nat ->
    (length toolCalls < index + length results)%nat ->
    functionResponsesFrom toolCalls index results = Throw TypeError.
Proof.
  induction results as [|result rest IH]; intros index Hle Hlt.
  - cbn in Hlt. lia.
  - cbn [functionResponsesFrom].
    destruct (toolCalls !! index) as [tc|] eqn:Etc; [|reflexivity].
    apply lookup_lt_Some in Etc.
    rewrite IH; [reflexivity | lia | cbn [length] in Hlt; lia].
Qed.

(** A message with tool calls and a dispatcher, when the caption callback
    returns: everything up to the answer of the dispatcher. *)
Lemma handleMessage_dispatched (cfg : LiveConfig) (h : Host)
  (message : LiveServerMessage) (functionCalls : list ToolCallData) dispatcher
  (w : World) :
  captions_return cfg ->
  toolCall message = Some functionCalls ->
  onToolCall cfg = Some dispatcher ->
  exists w' evs,
    sentBatches evs = [] /\
    handleMessage cfg h message w
    = match dispatcher (mapToolCalls functionCalls) with
      | Throw e => (Throw e, w', evs)
      | Ok results =>
          match functionResponses (mapToolCalls functionCalls) results with
          | Throw e => (Throw e, w', evs)
          | Ok responses => (Ok tt, w', evs ++ [SendToolResponse responses])
          end
      end.
Proof.
  intros Hret Hcall Hdisp.
  destruct (beginPlayback_pure message w) as (pending & e0 & Hb & _ & Hs0).
  destruct (handleServerContent_returns cfg h message w Hret)
    as (w1 & e1 & Hcontent & Hs1).
  assert (Hh : (handleServerContent cfg h message ;; dispatchToolCalls cfg message) w
               = (Ok (Some (mapToolCalls functionCalls,
                            dispatcher (mapToolCalls functionCalls))),
                  w1, e1 ++ [ToolCall (mapToolCalls functionCalls)])).
  { rewrite (bind_ok _ _ _ _ _ _ Hcontent).
    unfold dispatchToolCalls. rewrite Hcall, Hdisp. reflexivity. }
  assert (Hplay : exists w2 e2,
             resumePlayback cfg h pending w1 = (Ok tt, w2, e2) /\
             sentBatches e2 = []).
  { destruct pending as [promise|].
    - destruct (playAudioChunk_resume_total cfg h promise w1)
        as (w2 & e2 & Hp & Hs2 & _).
      eauto.
    - exists w1, []. split; reflexivity. }
  destruct Hplay as (w2 & e2 & Hp & Hs2).
  rewrite (handleMessage_parts cfg h message w w1 w2 pending e0 _ _ e2 Hb Hh Hp).
  exists w2, ((e0 ++ (e1 ++ [ToolCall (mapToolCalls functionCalls)]) ++ []) ++ e2).
  split.
  - rewrite !sentBatches_app, Hs0, Hs1, Hs2. reflexivity.
  - unfold sendToolResponses, bind, lift, emit.
    destruct (dispatcher (mapToolCalls functionCalls)) as [results|e].
    + destruct (functionResponses (mapToolCalls functionCalls) results);
        f_equal; repeat rewrite <- app_assoc; cbn [app];
        repeat rewrite app_nil_r; reflexivity.
    + f_equal; repeat rewrite <- app_assoc; cbn [app];
        repeat rewrite app_nil_r; reflexivity.
Qed.

End ToolOutcomes.

(** X12: when a batch of tool calls gets no usable answer, nothing is sent
    back. Without a dispatcher the calls are dropped and the handler ends
    normally; when the dispatcher rejects, the handler ends with that error;
    when the dispatcher answers with more results than there were calls, the
    handler ends with a TypeError (it reads the id of a call that does not
    exist). In none of the three cases is a tool response sent. *)
Theorem tool_calls_left_unanswered (cfg : LiveConfig) (h : Host)
  (message : LiveServerMessage) (functionCalls : list ToolCallData) (w : World) :
  captions_return cfg ->
  toolCall message = Some functionCalls ->
  (onToolCall cfg = None ->
   exists w' evs,
     handleMessage cfg h message w = (Ok tt, w', evs) /\ sentBatches evs = []) /\
  (forall dispatcher e,
     onToolCall cfg = Some dispatcher ->
     dispatcher (mapToolCalls functionCalls) = Throw e ->
     exists w' evs,
       handleMessage cfg h message w = (Throw e, w', evs) /\
       sentBatches evs = []) /\
  (forall dispatcher results,
     onToolCall cfg = Some dispatcher ->
     dispatcher (mapToolCalls functionCalls) = Ok results ->
     (length functionCalls < length results)%nat ->
     exists w' evs,
       handleMessage cfg h message w = (Throw TypeError, w', evs) /\
       sentBatches evs = []).
Proof.
  intros Hret Hcall. split; [|split].
  - intros Hnone.
    destruct (beginPlayback_pure message w) as (pending & e0 & Hb & _ & Hs0).
    destruct (handleServerContent_returns cfg h message w Hret)
      as (w1 & e1 & Hcontent & Hs1).
    assert (Hh : bind (handleServerContent cfg h message)
                      (fun _ => dispatchToolCalls cfg message) w
                 = (Ok None, w1, e1 ++ [])).
    { rewrite (bind_ok _ _ _ _ _ _ Hcontent).
      unfold dispatchToolCalls. rewrite Hcall, Hnone. reflexivity. }
    assert (Hplay : exists w2 e2,
               resumePlayback cfg h pending w1 = (Ok tt, w2, e2) /\
               sentBatches e2 = []).
    { destruct pending as [promise|].
      - destruct (playAudioChunk_resume_total cfg h promise w1)
          as (w2 & e2 & Hp & Hs2 & _).
        eauto.
      - exists w1, []. split; reflexivity. }
    destruct Hplay as (w2 & e2 & Hp & Hs2).
    rewrite (handleMessage_parts cfg h message w w1 w2 pending e0 _ _ e2 Hb Hh Hp).
    cbn. do 2 eexists. split; [reflexivity|].
    rewrite !sentBatches_app, Hs0, Hs1, Hs2. reflexivity.
  - intros dispatcher e Hdisp Hrej.
    destruct (handleMessage_dispatched cfg h message functionCalls dispatcher w
                Hret Hcall Hdisp) as (w' & evs & Hs & Hrun).
    rewrite Hrej in Hrun. eauto.
  - intros dispatcher results Hdisp Hres Hmany.
    destruct (handleMessage_dispatched cfg h message functionCalls dispatcher w
                Hret Hcall Hdisp) as (w' & evs & Hs & Hrun).
    rewrite Hres in Hrun. unfold functionResponses in Hrun.
    rewrite functionResponsesFrom_too_many in Hrun.
    + eauto.
    + lia.
    + unfold mapToolCalls. rewrite length_map. cbn. lia.
Qed.

Lemma tool_calls_left_unanswered_witness :
  exists w' evs,
    handleMessage quietConfig (hostAt 0) reminderMessage
      {| this := playingSession 0 ∅; nodesCreated := 0 |}
    = (Ok tt, w', evs) /\ sentBatches evs = [].
Proof.
  refine (proj1 (tool_calls_left_unanswered quietConfig (hostAt 0) reminderMessage
                   [reminderCall]
                   {| this := playingSession 0 ∅; nodesCreated := 0 |} _ _) _).
  - intros f txt u c Hf. injection Hf as <-. reflexivity.
  - reflexivity.
  - reflexivity.
Defined.

(** X13: a dispatcher that answers with fewer results than there were calls
    gets a shorter batch sent: one response per result, in order, each with
    the id and the name of the call at the same position; the calls beyond
    the results get no response. *)
Theorem tool_batch_short_answer (cfg : LiveConfig) (h : Host)
  (message : LiveServerMessage) (functionCalls : list ToolCallData)
  dispatcher (results : list jsval) (w : World) :
  captions_return cfg ->
  toolCall message = Some functionCalls ->
  onToolCall cfg = Some dispatcher ->
  dispatcher (mapToolCalls functionCalls) = Ok results ->
  (length results <= length functionCalls)%nat ->
  exists w' evs responses,
    handleMessage cfg h message w = (Ok tt, w', evs) /\
    sentBatches evs = [responses] /\
    length responses = length results /\
    forall i result,
      results !! i = Some result ->
      exists fc,
        functionCalls !! i = Some fc /\
        responses !! i
        = Some {| fr_id := id fc; fr_name := name fc;
                  response := JObject [("result", result)] |}.
Proof.
  intros Hret Hcall Hdisp Hres Hlen.
  destruct (handleMessage_dispatched cfg h message functionCalls dispatcher w
              Hret Hcall Hdisp) as (w' & evs & Hs & Hrun).
  destruct (functionResponsesFrom_ok (mapToolCalls functionCalls) results 0%nat)
    as (responses & Hresp & Hrlen & Hnth).
  { unfold mapToolCalls. rewrite length_map. cbn. lia. }
  rewrite Hres in Hrun. unfold functionResponses in Hrun. rewrite Hresp in Hrun.
  exists w', (evs ++ [SendToolResponse responses]), responses.
  split; [exact Hrun|]. split; [now rewrite sentBatches_app, Hs|].
  split; [exact Hrlen|].
  intros i result Hresult.
  destruct (Hnth i result Hresult) as (tc & Htc & Hri).
  destruct (mapToolCalls_lookup functionCalls i tc Htc) as (fc & Hfc & Hid & Hname).
  exists fc. rewrite Hri, Hid, Hname. split; [assumption | reflexivity].
Qed.

Lemma tool_batch_short_answer_witness :
  exists w' evs responses,
    handleMessage reminderConfig (hostAt 0) twoCallsMessage
      {| this := playingSession 0 ∅; nodesCreated := 0 |}
    = (Ok tt, w', evs) /\
    sentBatches evs = [responses] /\
    length responses = length [JString "Reminder set for call mom"] /\
    forall i result,
      [JString "Reminder set for call mom"] !! i = Some result ->
      exists fc,
        [reminderCall; reminderCall] !! i = Some fc /\
        responses !! i
        = Some {| fr_id := id fc; fr_name := name fc;
                  response := JObject [("result", result)] |}.
Proof.
  apply (tool_batch_short_answer reminderConfig (hostAt 0) twoCallsMessage
           [reminderCall; reminderCall]
           (fun _ => Ok [JString "Reminder set for call mom"])
           [JString "Reminder set for call mom"]
           {| this := playingSession 0 ∅; nodesCreated := 0 |}).
  - intros f txt u c Hf. injection Hf as <-. reflexivity.
  - reflexivity.
  - reflexivity.
  - reflexivity.
  - cbn. lia.
Defined.

Section CaptionFacts.

Local Open Scope session_scope.

Lemma transcription_step (cfg : LiveConfig) f (t : option Transcription)
  (isUser complete : bool) (w : World) :
  captions_return cfg ->
  onCaption cfg = Some f ->
  exists evs,
    match t with
    | Some t =>
        match truthy (text t) with
        | Some txt => call_onCaption cfg txt isUser complete
        | None => ret tt
        end
    | None => ret tt
    end w = (Ok tt, w, evs) /\
    captions evs = transcriptionCaptions t isUser complete.
Proof.
  intros Hret Hf. unfold transcriptionCaptions.
  destruct t as [t|]; [destruct (truthy (text t)) as [txt|]|];
    try (exists []; split; reflexivity).
  rewrite (call_onCaption_eq cfg f _ _ _ _ Hf), (Hret _ _ _ _ Hf).
  eexists. split; reflexivity.
Qed.

Lemma handler_captions (cfg : LiveConfig) (h : Host) f
  (message : LiveServerMessage) (w : World) :
  captions_return cfg ->
  onCaption cfg = Some f ->
  exists awaited w1 evs,
    (handleServerContent cfg h message ;; dispatchToolCalls cfg message) w
    = (Ok awaited, w1, evs) /\
    captions evs = messageCaptions message.
Proof.
  intros Hret Hf.
  assert (Hcontent :
            exists w1 evs,
              handleServerContent cfg h message w = (Ok tt, w1, evs) /\
              captions evs = messageCaptions message).
  { unfold handleServerContent, messageCaptions.
    destruct (serverContent message) as [sc|];
      [|exists w, []; split; reflexivity].
    assert (Hflush :
              exists w1 e1,
                when (interrupted sc) (handleInterruption cfg h) w = (Ok tt, w1, e1) /\
                captions e1
                = (if interrupted sc then [("[Interrupted]", false, true)] else [])).
    { destruct (interrupted sc); cbn [when];
        [|exists w, []; split; reflexivity].
      rewrite (handleInterruption_eq cfg h f w Hf), (Hret _ _ _ _ Hf).
      do 2 eexists. split; [reflexivity|].
      now rewrite captions_app, captions_stops. }
    destruct Hflush as (w1 & e1 & Hrun & Hc1).
    rewrite (bind_ok _ _ _ _ _ _ Hrun).
    unfold handleTranscriptions.
    destruct (transcription_step cfg f (inputTranscription sc) true
                (turnComplete sc) w1 Hret Hf) as (e2 & H2 & Hc2).
    destruct (transcription_step cfg f (outputTranscription sc) false
                (turnComplete sc) w1 Hret Hf) as (e3 & H3 & Hc3).
    rewrite (bind_ok _ _ _ _ _ _ H2), H3.
    do 2 eexists. split; [reflexivity|].
    now rewrite !captions_app, Hc1, Hc2, Hc3. }
  destruct Hcontent as (w1 & e1 & Hrun & Hc1).
  rewrite (bind_ok _ _ _ _ _ _ Hrun).
  destruct (dispatchToolCalls_pure cfg message w1) as (awaited & e2 & Hd & Hc2 & _).
  rewrite Hd. do 3 eexists. split; [reflexivity|].
  now rewrite captions_app, Hc1, Hc2, app_nil_r.
Qed.

Lemma handleServerContent_silent (cfg : LiveConfig) (h : Host)
  (message : LiveServerMessage) (w : World) :
  onCaption cfg = None ->
  exists w1 evs,
    handleServerContent cfg h message w = (Ok tt, w1, evs) /\ captions evs = [].
Proof.
  intros Ef. unfold handleServerContent.
  destruct (serverContent message) as [sc|];
    [|exists w, []; split; reflexivity].
  assert (Hflush :
            exists w1 e1,
              when (interrupted sc) (handleInterruption cfg h) w = (Ok tt, w1, e1) /\
              captions e1 = []).
  { destruct (interrupted sc); cbn [when];
      [|exists w, []; split; reflexivity].
    unfold handleInterruption.
    rewrite (bind_ok _ _ _ _ _ _ (stopAudioPlayback_eq h w)).
    unfold call_onCaption. rewrite Ef. cbn [ret].
    do 2 eexists. split; [reflexivity|].
    now rewrite captions_app, captions_stops. }
  destruct Hflush as (w1 & e1 & Hrun & Hc1).
  rewrite (bind_ok _ _ _ _ _ _ Hrun).
  unfold handleTranscriptions, call_onCaption. rewrite Ef.
  unfold bind, ret.
  destruct (inputTranscription sc) as [ti|];
    [destruct (truthy (text ti))|];
    (destruct (outputTranscription sc) as [to|];
     [destruct (truthy (text to))|]);
    (do 2 eexists; split; [reflexivity|]; cbn [app];
     now rewrite ?app_nil_r).
Qed.

End CaptionFacts.

(** X14: the captions of a message, when the caption callback returns: the
    "[Interrupted]" caption first if the message interrupts, then the user's
    transcription, then the model's, each marked with the message's
    turn-completion flag; a transcription without text, or with an empty
    text, gives no caption, and nothing else in the message gives one.
    Without a caption callback there is no caption at all. *)
Theorem captions_of_message (cfg : LiveConfig) (h : Host)
  (message : LiveServerMessage) (w : World) :
  captions_return cfg ->
  exists r w' evs,
    handleMessage cfg h message w = (r, w', evs) /\
    captions evs
    = match onCaption cfg with
      | Some _ => messageCaptions message
      | None => []
      end.
Proof.
  intros Hret.
  destruct (beginPlayback_pure message w) as (pending & e0 & Hb & Hc0 & _).
  assert (Hh : exists awaited w1 e1,
             bind (handleServerContent cfg h message)
                  (fun _ => dispatchToolCalls cfg message) w
             = (Ok awaited, w1, e1) /\
             captions e1 = match onCaption cfg with
                           | Some _ => messageCaptions message
                           | None => []
                           end).
  { destruct (onCaption cfg) as [f|] eqn:Ef.
    - exact (handler_captions cfg h f message w Hret Ef).
    - destruct (handleServerContent_silent cfg h message w Ef)
        as (w1 & e1 & Hcontent & Hc1).
      destruct (dispatchToolCalls_pure cfg message w1)
        as (awaited & e2 & Hd & Hc2 & _).
      exists awaited, w1, (e1 ++ e2). split.
      + rewrite (bind_ok _ _ _ _ _ _ Hcontent), Hd. reflexivity.
      + now rewrite captions_app, Hc1, Hc2. }
  destruct Hh as (awaited & w1 & e1 & Hh & Hc1).
  assert (Hplay : exists w2 e2,
             resumePlayback cfg h pending w1 = (Ok tt, w2, e2) /\ captions e2 = []).
  { destruct pending as [promise|].
    - destruct (playAudioChunk_resume_total cfg h promise w1)
        as (w2 & e2 & Hp & _ & Hc2).
      eauto.
    - exists w1, []. split; reflexivity. }
  destruct Hplay as (w2 & e2 & Hp & Hc2).
  rewrite (handleMessage_parts cfg h message w w1 w2 pending e0 _ _ e2 Hb Hh Hp).
  destruct (sendToolResponses_world awaited w2) as (r & e3 & Hs & _ & _ & Hc3).
  rewrite Hs. do 3 eexists. split; [reflexivity|].
  rewrite !captions_app, Hc0, Hc1, Hc2, Hc3. cbn [app captions omap].
  now rewrite !app_nil_r.
Qed.

Lemma captions_of_message_witness :
  exists r w' evs,
    handleMessage quietConfig (hostAt 0) captionedMessage
      {| this := playingSession 0 ∅; nodesCreated := 0 |}
    = (r, w', evs) /\
    captions evs
    = match onCaption quietConfig with
      | Some _ => messageCaptions captionedMessage
      | None => []
      end.
Proof.
  apply (captions_of_message quietConfig (hostAt 0) captionedMessage
           {| this := playingSession 0 ∅; nodesCreated := 0 |}).
  intros f txt u c Hf. injection Hf as <-. reflexivity.
Defined.

(** ** A message that interrupts *)

Section InterruptionRuns.

Local Open Scope session_scope.







End InterruptionRuns.




(** ** Life cycle: connect, channel callbacks, video timer *)

Section LifeCycle.

Local Open Scope session_scope.

Lemma call_onStateChange_eq (cfg : LiveConfig) (st : LiveConnectionState)
  (w : World) :
  states_return cfg ->
  call_onStateChange cfg st w
  = (Ok tt, w, match onStateChange cfg with
               | Some _ => [StateChange st]
               | None => []
               end).
Proof.
  intros Hret. unfold call_onStateChange.
  destruct (onStateChange cfg) as [f|] eqn:Ef; [|reflexivity].
  unfold bind, emit, lift. rewrite (Hret f st Ef). reflexivity.
Qed.

Lemma stateChanges_app (e1 e2 : list event) :
  stateChanges (e1 ++ e2) = stateChanges e1 ++ stateChanges e2.
Proof. apply omap_app. Qed.

Lemma stateChanges_quiet (evs : list event) :
  Forall (fun ev => is_StateChange ev = false) evs -> stateChanges evs = [].
Proof.
  induction 1 as [|ev l Hev _ IH]; [reflexivity|].
  destruct ev; try discriminate Hev; exact IH.
Qed.

End LifeCycle.

(** ** Life cycle: the whole of [connect], [stop] and the channel callbacks *)

Section LifeCycleRuns.

Local Open Scope session_scope.

Lemma stop_events (h : Host) (w : World) :
  stop h w
  = (Ok tt, {| this := new_LiveSession; nodesCreated := nodesCreated w |},
     stopEvents (this w)).
Proof.
  destruct w as [s n].
  destruct s as [se ic oc isrc pr nst srcs act vi vc].
  unfold stop, stopVideoStream, stopEvents.
  destruct vi, ic, oc, pr, isrc, se;
    cbn -[stopAudioPlayback];
    rewrite (bind_ok _ _ _ _ _ _ (stopAudioPlayback_eq _ _)); cbn;
    rewrite ?app_nil_r; reflexivity.
Qed.

Lemma stateChanges_stopEvents (s : LiveSession) : stateChanges (stopEvents s) = [].
Proof.
  unfold stopEvents. rewrite !stateChanges_app.
  rewrite (stateChanges_quiet (SourceStop <$> _))
    by (apply Forall_fmap, Forall_true; intros ?; reflexivity).
  destruct (videoInterval s), (inputAudioContext s), (outputAudioContext s),
    (processor s), (inputSource s), (session s); reflexivity.
Qed.

Lemma stateChanges_report (cfg : LiveConfig) (st : LiveConnectionState) :
  stateChanges (stateReport cfg st)
  = match onStateChange cfg with Some _ => [st] | None => [] end.
Proof. unfold stateReport. now destruct (onStateChange cfg). Qed.

Lemma call_onStateChange_report (cfg : LiveConfig) (st : LiveConnectionState)
  (w : World) :
  states_return cfg ->
  call_onStateChange cfg st w = (Ok tt, w, stateReport cfg st).
Proof. exact (call_onStateChange_eq cfg st w). Qed.

Lemma connect_granted (cfg : LiveConfig) (h : Host) (w : World) :
  states_return cfg ->
  active (this w) = false ->
  raises h CallGetUserMedia = false ->
  connect cfg h w
  = (Ok tt, {| this := connectingSession (this w); nodesCreated := nodesCreated w |},
     stateReport cfg CONNECTING
     ++ [ContextCreate InputContext; ContextCreate OutputContext; ChannelOpen]).
Proof.
  intros Hret Hact Hmic. unfold connect.
  unfold bind at 1. cbn [get_this]. rewrite Hact.
  unfold try_catch.
  rewrite (bind_ok _ _ _ _ _ _ (call_onStateChange_report cfg CONNECTING w Hret)).
  unfold host_call. rewrite Hmic.
  destruct w as [s n]. cbn. rewrite ?app_nil_r. reflexivity.
Qed.

Lemma connect_denied (cfg : LiveConfig) (h : Host) (w : World) :
  states_return cfg ->
  active (this w) = false ->
  raises h CallGetUserMedia = true ->
  connect cfg h w
  = (Ok tt, {| this := new_LiveSession; nodesCreated := nodesCreated w |},
     stateReport cfg CONNECTING
     ++ [ContextCreate InputContext; ContextCreate OutputContext;
         ConsoleError "Failed to connect live session"]
     ++ stateReport cfg ERROR
     ++ stopEvents
          (with_outputAudioContext (Some {| contextRate := 24000 |})
             (with_inputAudioContext (Some {| contextRate := 16000 |}) (this w)))).
Proof.
  intros Hret Hact Hmic. unfold connect.
  unfold bind at 1. cbn [get_this]. rewrite Hact.
  unfold try_catch.
  rewrite (bind_ok _ _ _ _ _ _ (call_onStateChange_report cfg CONNECTING w Hret)).
  unfold host_call. rewrite Hmic.
  destruct w as [s n]. cbn -[stop stopEvents call_onStateChange].
  rewrite (bind_ok _ _ _ _ _ _ (call_onStateChange_report cfg ERROR _ Hret)).
  rewrite stop_events. cbn -[stopEvents]. rewrite ?app_nil_r, <- app_assoc.
  reflexivity.
Qed.

Lemma onopen_eq (cfg : LiveConfig) (w : World) :
  states_return cfg ->
  is_Some (inputAudioContext (this w)) ->
  onopen cfg w
  = (Ok tt,
     {| this := with_processor (Some Processor)
                  (with_inputSource (Some MicSource)
                     (with_active true (this w)));
        nodesCreated := nodesCreated w |},
     stateReport cfg CONNECTED).
Proof.
  intros Hret [c Hc]. unfold onopen.
  rewrite (bind_ok _ _ _ _ _ _ (call_onStateChange_report cfg CONNECTED w Hret)).
  destruct w as [s n].
  destruct s as [se ic oc isrc pr nst srcs act vi vc].
  cbn in Hc. subst ic. cbn. now rewrite ?app_nil_r.
Qed.

Lemma stopEvents_close (s : LiveSession) (ev : event) :
  ev ∈ stopEvents s -> is_close ev = true \/ exists source, ev = SourceStop source.
Proof.
  unfold stopEvents. rewrite !elem_of_app.
  intros [H|[H|[H|[H|[H|[H|H]]]]]].
  - destruct (videoInterval s); [|now apply elem_of_nil in H].
    apply list_elem_of_singleton in H. subst ev. now left.
  - apply list_elem_of_fmap in H. destruct H as (x & -> & _). right. now exists x.
  - destruct (inputAudioContext s); [|now apply elem_of_nil in H].
    apply list_elem_of_singleton in H. subst ev. now left.
  - destruct (outputAudioContext s); [|now apply elem_of_nil in H].
    apply list_elem_of_singleton in H. subst ev. now left.
  - destruct (processor s); [|now apply elem_of_nil in H].
    apply list_elem_of_singleton in H. subst ev. now left.
  - destruct (inputSource s); [|now apply elem_of_nil in H].
    apply list_elem_of_singleton in H. subst ev. now left.
  - destruct (session s); [|now apply elem_of_nil in H].
    apply list_elem_of_singleton in H. subst ev. now left.
Qed.

Lemma stateReport_states (cfg : LiveConfig) (st : LiveConnectionState) (ev : event) :
  ev ∈ stateReport cfg st -> ev = StateChange st.
Proof.
  unfold stateReport. destruct (onStateChange cfg); intros H.
  - now apply list_elem_of_singleton in H.
  - now apply elem_of_nil in H.
Qed.

Lemma connectingSession_twice (s : LiveSession) :
  connectingSession (connectingSession s) = connectingSession s.
Proof. now destruct s. Qed.

End LifeCycleRuns.

(** X15: a successful start. [connect] on a session that is not active,
    with the microphone granted, followed by the channel's [onopen], reports
    CONNECTING and then CONNECTED and nothing else (no caption, no playback
    before them), and leaves the session active with both contexts, the
    channel and both capture nodes in place. From then on [connect] does
    nothing. *)
Theorem connect_then_open (cfg : LiveConfig) (h h' : Host) (w : World) :
  states_return cfg ->
  active (this w) = false ->
  raises h CallGetUserMedia = false ->
  let connected :=
    {| this := connectedSession (this w); nodesCreated := nodesCreated w |} in
  exists evs,
    (connect cfg h ;; onopen cfg)%session w = (Ok tt, connected, evs) /\
    stateChanges evs
    = match onStateChange cfg with
      | Some _ => [CONNECTING; CONNECTED]
      | None => []
      end /\
    startTimes evs = [] /\ captions evs = [] /\
    connect cfg h' connected = (Ok tt, connected, []).
Proof.
  intros Hret Hact Hmic. cbn zeta.
  exists ((stateReport cfg CONNECTING
           ++ [ContextCreate InputContext; ContextCreate OutputContext; ChannelOpen])
          ++ stateReport cfg CONNECTED).
  split.
  { rewrite (bind_ok _ _ _ _ _ _ (connect_granted cfg h w Hret Hact Hmic)).
    rewrite onopen_eq; [reflexivity | exact Hret | ].
    destruct w as [s n]. destruct s. cbn. eexists; reflexivity. }
  unfold stateReport.
  destruct (onStateChange cfg); (split; [reflexivity|]);
    (split; [reflexivity|]); (split; [reflexivity|]);
    destruct w as [s n]; destruct s; reflexivity.
Qed.

Lemma connect_then_open_witness :
  let connected :=
    {| this := connectedSession new_LiveSession; nodesCreated := 0 |} in
  exists evs,
    (connect quietConfig (hostAt 0) ;; onopen quietConfig)%session
      {| this := new_LiveSession; nodesCreated := 0 |}
    = (Ok tt, connected, evs) /\
    stateChanges evs
    = match onStateChange quietConfig with
      | Some _ => [CONNECTING; CONNECTED]
      | None => []
      end /\
    startTimes evs = [] /\ captions evs = [] /\
    connect quietConfig (hostAt 1) connected = (Ok tt, connected, []).
Proof.
  apply (connect_then_open quietConfig (hostAt 0) (hostAt 1)
           {| this := new_LiveSession; nodesCreated := 0 |}).
  - intros f st Hf. injection Hf as <-. reflexivity.
  - reflexivity.
  - reflexivity.
Defined.

(** X16: a refused microphone. [connect] reports CONNECTING and then ERROR,
    returns normally, and leaves the session cleared: the two audio contexts
    it had created are closed again and no channel is opened. *)
Theorem connect_refused (cfg : LiveConfig) (h : Host) (w : World) :
  states_return cfg ->
  active (this w) = false ->
  raises h CallGetUserMedia = true ->
  exists evs,
    connect cfg h w
    = (Ok tt, {| this := new_LiveSession; nodesCreated := nodesCreated w |}, evs) /\
    stateChanges evs
    = match onStateChange cfg with
      | Some _ => [CONNECTING; ERROR]
      | None => []
      end /\
    ContextClose InputContext ∈ evs /\
    ContextClose OutputContext ∈ evs /\
    ChannelOpen ∉ evs.
Proof.
  intros Hret Hact Hmic.
  eexists. split; [exact (connect_denied cfg h w Hret Hact Hmic)|].
  set (s1 := with_outputAudioContext _ _).
  assert (Hin : inputAudioContext s1 = Some {| contextRate := 16000 |})
    by (subst s1; destruct w as [s n]; now destruct s).
  assert (Hout : outputAudioContext s1 = Some {| contextRate := 24000 |})
    by (subst s1; destruct w as [s n]; now destruct s).
  split; [|split; [|split]].
  - rewrite !stateChanges_app, !stateChanges_report, stateChanges_stopEvents.
    now destruct (onStateChange cfg).
  - apply elem_of_app. right. apply elem_of_app. right.
    apply elem_of_app. right. unfold stopEvents. rewrite Hin.
    apply elem_of_app. right. apply elem_of_app. right.
    apply elem_of_app. left. apply list_elem_of_here.
  - apply elem_of_app. right. apply elem_of_app. right.
    apply elem_of_app. right. unfold stopEvents. rewrite Hout.
    apply elem_of_app. right. apply elem_of_app. right.
    apply elem_of_app. right. apply elem_of_app. left. apply list_elem_of_here.
  - intros H.
    apply elem_of_app in H. destruct H as [H|H].
    { apply stateReport_states in H. discriminate H. }
    apply elem_of_app in H. destruct H as [H|H].
    { repeat (apply elem_of_cons in H; destruct H as [H|H]; [discriminate H|]).
      now apply elem_of_nil in H. }
    apply elem_of_app in H. destruct H as [H|H].
    { apply stateReport_states in H. discriminate H. }
    apply stopEvents_close in H. destruct H as [H|[x H]]; discriminate H.
Qed.

Lemma connect_refused_witness :
  exists evs,
    connect quietConfig micDenied {| this := new_LiveSession; nodesCreated := 0 |}
    = (Ok tt, {| this := new_LiveSession; nodesCreated := 0 |}, evs) /\
    stateChanges evs
    = match onStateChange quietConfig with
      | Some _ => [CONNECTING; ERROR]
      | None => []
      end /\
    ContextClose InputContext ∈ evs /\
    ContextClose OutputContext ∈ evs /\
    ChannelOpen ∉ evs.
Proof.
  apply (connect_refused quietConfig micDenied
           {| this := new_LiveSession; nodesCreated := 0 |}).
  - intros f st Hf. injection Hf as <-. reflexivity.
  - reflexivity.
  - reflexivity.
Defined.

(** X17: the channel's callbacks end the session and say so. From any
    state, [onclose] leaves the session cleared with DISCONNECTED as the
    state last reported, and [onerror] leaves it cleared with ERROR as the
    state last reported (given a state callback that returns). *)
Theorem channel_end_reports (cfg : LiveConfig) (h : Host) (w : World) f :
  states_return cfg ->
  onStateChange cfg = Some f ->
  let cleared := {| this := new_LiveSession; nodesCreated := nodesCreated w |} in
  (exists evs,
     onclose cfg h w = (Ok tt, cleared, evs) /\
     forall reported, reportedState reported evs = DISCONNECTED) /\
  (exists evs,
     onerror cfg h w = (Ok tt, cleared, evs) /\
     forall reported, reportedState reported evs = ERROR).
Proof.
  intros Hret Hf. cbn zeta.
  destruct (stop_eq h w) as (evs & Hstop & Hquiet & _).
  pose proof (call_onStateChange_eq cfg DISCONNECTED w Hret) as Hd.
  pose proof (call_onStateChange_eq cfg ERROR w Hret) as He.
  rewrite Hf in Hd, He.
  split.
  - exists ([StateChange DISCONNECTED] ++ evs). split.
    + unfold onclose. rewrite (bind_ok _ _ _ _ _ _ Hd), Hstop. reflexivity.
    + intros reported. cbn [app reportedState fold_left].
      apply (Hquiet DISCONNECTED).
  - exists ([ConsoleError "Live API Error:"] ++ [StateChange ERROR] ++ evs). split.
    + unfold onerror.
      rewrite (bind_ok _ _ _ _ _ _
                 (eq_refl : emit (ConsoleError "Live API Error:") w
                            = (Ok tt, w, [ConsoleError "Live API Error:"]))).
      rewrite (bind_ok _ _ _ _ _ _ He), Hstop. reflexivity.
    + intros reported. cbn [app reportedState fold_left].
      apply (Hquiet ERROR).
Qed.

Lemma channel_end_reports_witness :
  let w := {| this := playingSession 10 {[0%nat; 1%nat]}; nodesCreated := 2 |} in
  let cleared := {| this := new_LiveSession; nodesCreated := nodesCreated w |} in
  (exists evs,
     onclose quietConfig (hostAt 3) w = (Ok tt, cleared, evs) /\
     forall reported, reportedState reported evs = DISCONNECTED) /\
  (exists evs,
     onerror quietConfig (hostAt 3) w = (Ok tt, cleared, evs) /\
     forall reported, reportedState reported evs = ERROR).
Proof.
  apply (channel_end_reports quietConfig (hostAt 3)
           {| this := playingSession 10 {[0%nat; 1%nat]}; nodesCreated := 2 |}
           (fun _ => Ok tt)).
  - intros f st Hf. injection Hf as <-. reflexivity.
  - reflexivity.
Defined.

(** X18: at most one video timer. Without a channel [startVideoStream] does
    nothing. With a channel and no timer it creates the canvas and one timer
    (every 500 ms); a further [startVideoStream] does nothing;
    [stopVideoStream] clears that timer and the canvas, and is then a
    no-op. *)
Theorem video_timer_single (t1 t2 : positive) (w : World) :
  (session (this w) = None -> startVideoStream t1 w = (Ok tt, w, [])) /\
  (is_Some (session (this w)) -> videoInterval (this w) = None ->
   exists w1 w2,
     startVideoStream t1 w = (Ok tt, w1, [SetInterval t1 (1000 / 2)]) /\
     videoInterval (this w1) = Some t1 /\
     startVideoStream t2 w1 = (Ok tt, w1, []) /\
     stopVideoStream w1 = (Ok tt, w2, [ClearInterval t1]) /\
     videoInterval (this w2) = None /\ videoCanvas (this w2) = None /\
     stopVideoStream w2 = (Ok tt, w2, [])).
Proof.
  destruct w as [s n].
  destruct s as [se ic oc isrc pr nst srcs act vi vc].
  cbn [this session videoInterval]. split.
  - intros ->. reflexivity.
  - intros [x ->] ->. do 2 eexists.
    split; [reflexivity|]. repeat split.
Qed.

Lemma video_timer_single_witness :
  exists w1 w2,
    startVideoStream 7 {| this := playingSession 0 ∅; nodesCreated := 0 |}
    = (Ok tt, w1, [SetInterval 7 (1000 / 2)]) /\
    videoInterval (this w1) = Some 7%positive /\
    startVideoStream 8 w1 = (Ok tt, w1, []) /\
    stopVideoStream w1 = (Ok tt, w2, [ClearInterval 7]) /\
    videoInterval (this w2) = None /\ videoCanvas (this w2) = None /\
    stopVideoStream w2 = (Ok tt, w2, []).
Proof.
  apply (proj2 (video_timer_single 7 8
                  {| this := playingSession 0 ∅; nodesCreated := 0 |})).
  - eexists. reflexivity.
  - reflexivity.
Defined.

(** X19: [connect] only guards on the active flag, which the channel sets
    when it opens. A second [connect] before that is not a no-op: it does
    everything the first one did again (two more contexts, one more channel)
    and closes nothing of what the first one created. *)
Theorem connect_twice_before_open (cfg : LiveConfig) (h : Host) (w : World) :
  states_return cfg ->
  active (this w) = false ->
  raises h CallGetUserMedia = false ->
  exists w1 evs,
    connect cfg h w = (Ok tt, w1, evs) /\
    connect cfg h w1 = (Ok tt, w1, evs) /\
    ContextCreate InputContext ∈ evs /\
    ContextCreate OutputContext ∈ evs /\
    ChannelOpen ∈ evs /\
    Forall (fun ev => is_close ev = false) evs.
Proof.
  intros Hret Hact Hmic.
  pose proof (connect_granted cfg h w Hret Hact Hmic) as H1.
  set (w1 := {| this := connectingSession (this w);
                nodesCreated := nodesCreated w |}) in *.
  assert (Hact1 : active (this w1) = false).
  { subst w1. destruct w as [s n]. destruct s. exact Hact. }
  pose proof (connect_granted cfg h w1 Hret Hact1 Hmic) as H2.
  assert (Hw1 : {| this := connectingSession (this w1);
                   nodesCreated := nodesCreated w1 |} = w1).
  { subst w1. cbn [this nodesCreated]. now rewrite connectingSession_twice. }
  rewrite Hw1 in H2.
  exists w1. eexists. split; [exact H1|]. split; [exact H2|].
  split; [|split; [|split]].
  - apply elem_of_app. right. apply list_elem_of_here.
  - apply elem_of_app. right. apply list_elem_of_further, list_elem_of_here.
  - apply elem_of_app. right.
    apply list_elem_of_further, list_elem_of_further, list_elem_of_here.
  - apply Forall_app. split.
    + unfold stateReport. destruct (onStateChange cfg); repeat constructor.
    + repeat constructor.
Qed.

Lemma connect_twice_before_open_witness :
  exists w1 evs,
    connect quietConfig (hostAt 0) {| this := new_LiveSession; nodesCreated := 0 |}
    = (Ok tt, w1, evs) /\
    connect quietConfig (hostAt 0) w1 = (Ok tt, w1, evs) /\
    ContextCreate InputContext ∈ evs /\
    ContextCreate OutputContext ∈ evs /\
    ChannelOpen ∈ evs /\
    Forall (fun ev => is_close ev = false) evs.
Proof.
  apply (connect_twice_before_open quietConfig (hostAt 0)
           {| this := new_LiveSession; nodesCreated := 0 |}).
  - intros f st Hf. injection Hf as <-. reflexivity.
  - reflexivity.
  - reflexivity.
Defined.

Section SpeechHook.

Import UseSpeech.

Lemma append_empty_r (s : string) : String.append s EmptyString = s.
Proof. induction s as [|c s IH]; [reflexivity|]. change (String c (String.append s EmptyString) = String c s). now rewrite IH. Qed.

Lemma append_assoc (a b c : string) :
  String.append (String.append a b) c = String.append a (String.append b c).
Proof.
induction a as [|x a IH]; [reflexivity|].
change (String x (String.append (String.append a b) c)
        = String x (String.append a (String.append b c))).
now rewrite IH.
Qed.

Lemma concat_empty_cons (x : string) (l : list string) :
  String.concat EmptyString (x :: l)
  = String.append x (String.concat EmptyString l).
Proof.
destruct l as [|y l].
- cbn [String.concat]. now rewrite append_empty_r.
- reflexivity.
Qed.

Lemma accumulate_all (l : list SpeechRecognitionResult) (i f : string) :
  fold_left accumulate l (i, f)
  = (String.append i
       (String.concat EmptyString
          (List.map alternative (List.filter (fun r => Bool.eqb (isFinal r) false) l))),
     String.append f
       (String.concat EmptyString
          (List.map alternative (List.filter (fun r => Bool.eqb (isFinal r) true) l)))).
Proof.
revert i f. induction l as [|r l IH]; intros i f.
- cbn. now rewrite !append_empty_r.
- cbn [fold_left]. unfold accumulate at 2. cbn [fst snd List.filter].
  destruct (isFinal r); cbn [Bool.eqb List.map]; rewrite IH;
    rewrite concat_empty_cons, append_assoc; reflexivity.
Qed.

(** X20: the recognition result handler shows the final text of the results
    from [resultIndex] on when there is some, and their interim text
    otherwise; it hands the final text to the caller exactly when that text
    is not empty and a callback is set. *)
Theorem onresult_transcript (resultIndex : nat)
  (results : list SpeechRecognitionResult) (st : state) :
  let finals := spoken true resultIndex results in
  let interims := spoken false resultIndex results in
  onresult resultIndex results st
  = (setTranscript (if nonempty finals then finals else interims) st,
     if nonempty finals && onFinalTranscript st
     then [OnFinalTranscript finals] else [])
  /\ ((length results <= resultIndex)%nat ->
      onresult resultIndex results st = (setTranscript EmptyString st, [])).
Proof.
cbn zeta. unfold onresult, spoken.
assert (Hgen : forall l,
  (let '(interimTranscript, finalTranscript) :=
     fold_left accumulate l (EmptyString, EmptyString) in
   if nonempty finalTranscript && onFinalTranscript st
   then (setTranscript (if nonempty finalTranscript then finalTranscript
                        else interimTranscript) st,
         [OnFinalTranscript finalTranscript])
   else (setTranscript (if nonempty finalTranscript then finalTranscript
                        else interimTranscript) st, []))
  = (setTranscript
       (if nonempty (String.concat EmptyString
              (List.map alternative (List.filter (fun r => Bool.eqb (isFinal r) true) l)))
        then String.concat EmptyString
              (List.map alternative (List.filter (fun r => Bool.eqb (isFinal r) true) l))
        else String.concat EmptyString
              (List.map alternative (List.filter (fun r => Bool.eqb (isFinal r) false) l))) st,
     if nonempty (String.concat EmptyString
              (List.map alternative (List.filter (fun r => Bool.eqb (isFinal r) true) l)))
        && onFinalTranscript st
     then [OnFinalTranscript (String.concat EmptyString
              (List.map alternative (List.filter (fun r => Bool.eqb (isFinal r) true) l)))]
     else [])).
{ intros l. rewrite accumulate_all. cbn [String.append].
  destruct (nonempty _ && onFinalTranscript st); reflexivity. }
split.
- apply Hgen.
- intros Hlen. rewrite drop_ge by exact Hlen. reflexivity.
Qed.

(** X21: [speak] cancels the current speech before it speaks, and the voice
    it sets is one of the browser's: a voice whose name contains
    "Google US English" when there is one, even behind an "en-US" voice;
    otherwise the first "en-US" voice; otherwise none, which leaves the
    default voice. Without speech synthesis it does nothing. *)
Theorem speak_voice_preference (voices : list SpeechSynthesisVoice) (text : string) :
  speak false voices text = []
  /\ speak true voices text
     = [SynthesisCancel; SynthesisSpeak text (preferredVoice voices)]
  /\ match preferredVoice voices with
     | Some v =>
         In v voices
         /\ (includes (voiceName v) "Google US English" = true
             \/ (lang v = "en-US"
                 /\ forall u, In u voices ->
                      includes (voiceName u) "Google US English" = false))
     | None =>
         forall u, In u voices ->
           includes (voiceName u) "Google US English" = false
           /\ lang u <> "en-US"
     end
  /\ (forall pre g post,
        includes (voiceName g) "Google US English" = true ->
        (forall u, In u pre ->
           includes (voiceName u) "Google US English" = false) ->
        preferredVoice (pre ++ g :: post) = Some g).
Proof.
split; [reflexivity|]. split; [reflexivity|]. split.
- unfold preferredVoice.
  destruct (List.find (fun v => includes (voiceName v) "Google US English") voices)
    as [v|] eqn:Hg.
  + apply List.find_some in Hg. destruct Hg as [Hin Hv]. split; [exact Hin|]. now left.
  + destruct (List.find (fun v => String.eqb (lang v) "en-US") voices) as [v|] eqn:He.
    * apply List.find_some in He. destruct He as [Hin Hv].
      split; [exact Hin|]. right. split.
      -- now apply String.eqb_eq.
      -- intros u Hu. exact (List.find_none _ _ Hg u Hu).
    * intros u Hu. split.
      -- exact (List.find_none _ _ Hg u Hu).
      -- intros Heq. pose proof (List.find_none _ _ He u Hu) as Hn. cbn in Hn.
         apply String.eqb_neq in Hn. contradiction.
- intros pre g post Hg Hpre. unfold preferredVoice.
  assert (Hf : List.find (fun v => includes (voiceName v) "Google US English")
                 (pre ++ g :: post) = Some g).
  { induction pre as [|p pre IH].
    - cbn [app List.find]. now rewrite Hg.
    - cbn [app List.find]. rewrite (Hpre p (or_introl eq_refl)).
      apply IH. intros u Hu. apply Hpre. now right. }
  now rewrite Hf.
Qed.

End SpeechHook.

Lemma onresult_transcript_witness :
  UseSpeech.onresult 1
    [{| UseSpeech.isFinal := true; UseSpeech.alternative := "stop " |};
     {| UseSpeech.isFinal := true; UseSpeech.alternative := "play " |};
     {| UseSpeech.isFinal := false; UseSpeech.alternative := "ja" |};
     {| UseSpeech.isFinal := true; UseSpeech.alternative := "jazz" |}]
    {| UseSpeech.isListening := true; UseSpeech.isSpeaking := false;
       UseSpeech.transcript := "pla"; UseSpeech.recognition := true;
       UseSpeech.onFinalTranscript := true |}
  = ({| UseSpeech.isListening := true; UseSpeech.isSpeaking := false;
        UseSpeech.transcript := "play jazz"; UseSpeech.recognition := true;
        UseSpeech.onFinalTranscript := true |},
     [UseSpeech.OnFinalTranscript "play jazz"])
  /\ UseSpeech.onresult 1
       [{| UseSpeech.isFinal := true; UseSpeech.alternative := "stop " |};
        {| UseSpeech.isFinal := false; UseSpeech.alternative := "pl" |};
        {| UseSpeech.isFinal := false; UseSpeech.alternative := "ay" |}]
       {| UseSpeech.isListening := true; UseSpeech.isSpeaking := false;
          UseSpeech.transcript := ""; UseSpeech.recognition := true;
          UseSpeech.onFinalTranscript := true |}
     = ({| UseSpeech.isListening := true; UseSpeech.isSpeaking := false;
           UseSpeech.transcript := "play"; UseSpeech.recognition := true;
           UseSpeech.onFinalTranscript := true |}, []).
Proof.
split.
- exact (proj1 (onresult_transcript 1
           [{| UseSpeech.isFinal := true; UseSpeech.alternative := "stop " |};
            {| UseSpeech.isFinal := true; UseSpeech.alternative := "play " |};
            {| UseSpeech.isFinal := false; UseSpeech.alternative := "ja" |};
            {| UseSpeech.isFinal := true; UseSpeech.alternative := "jazz" |}]
           {| UseSpeech.isListening := true; UseSpeech.isSpeaking := false;
              UseSpeech.transcript := "pla"; UseSpeech.recognition := true;
              UseSpeech.onFinalTranscript := true |})).
- exact (proj1 (onresult_transcript 1
           [{| UseSpeech.isFinal := true; UseSpeech.alternative := "stop " |};
            {| UseSpeech.isFinal := false; UseSpeech.alternative := "pl" |};
            {| UseSpeech.isFinal := false; UseSpeech.alternative := "ay" |}]
           {| UseSpeech.isListening := true; UseSpeech.isSpeaking := false;
              UseSpeech.transcript := ""; UseSpeech.recognition := true;
              UseSpeech.onFinalTranscript := true |})).
Defined.

Lemma speak_voice_preference_witness :
  UseSpeech.preferredVoice
    ([{| UseSpeech.voiceName := "Samantha"; UseSpeech.lang := "en-US" |}]
     ++ {| UseSpeech.voiceName := "Google US English"; UseSpeech.lang := "en-US" |}
     :: [{| UseSpeech.voiceName := "Google UK English Male";
            UseSpeech.lang := "en-GB" |}])
  = Some {| UseSpeech.voiceName := "Google US English"; UseSpeech.lang := "en-US" |}.
Proof.
apply (proj2 (proj2 (proj2 (speak_voice_preference [] EmptyString)))).
- reflexivity.
- intros u [<-|[]]. reflexivity.
Defined.

Section NumberFacts.

Local Open Scope Q_scope.

Lemma representable_Z (z : Z) :
  (Z.abs z < 2 ^ 53)%Z -> Number.representable (inject_Z z).
Proof.
intros Hz. exists z, 0%Z. split; [exact Hz|]. split; [lia|].
change (2 ^ 0) with 1. ring.
Qed.

Lemma rounding_proper (double : Q -> Q) (x y : Q) :
  Number.rounding double -> x == y -> double x == double y.
Proof.
intros [Hmono _] Hxy. apply Qle_antisym; apply Hmono; rewrite Hxy; apply Qle_refl.
Qed.

Lemma rounding_whole (double : Q -> Q) (x : Q) (z : Z) :
  Number.rounding double -> x == inject_Z z -> (Z.abs z < 2 ^ 53)%Z ->
  double x == inject_Z z.
Proof.
intros Hr Hx Hz.
rewrite (rounding_proper double x (inject_Z z) Hr Hx).
apply (proj2 Hr). now apply representable_Z.
Qed.

End NumberFacts.

Section AppFacts.

Lemma isDue_spec (now : Z) (r : App.Reminder) :
  App.isDue now r = true
  <-> App.completed r = false /\ (App.dueTime r <= inject_Z now)%Q.
Proof.
unfold App.isDue. rewrite andb_true_iff, negb_true_iff, Qle_bool_iff. tauto.
Qed.

Lemma set_reminder_run (b : App.Browser) (args task : jsval) (q : Q)
  (st : App.state) :
  App.getProp args "task" = Ok task ->
  App.ToBoolean task = true ->
  App.getProp args "delay_minutes" = Ok (JNumber q) ->
  ~ (q == 0)%Q ->
  App.handleToolAction b (Some App.SET_REMINDER) args st
  = (Ok (String.append "Reminder set for " (App.toText b task)),
     {| App.reminders :=
          App.reminders st ++
          [{| App.id := App.ToString b
                 (JNumber (inject_Z (App.Date_now b (App.clockReads st))));
              App.text := task;
              App.dueTime :=
                Number.plus (App.double b)
                  (inject_Z (App.Date_now b (S (App.clockReads st))))
                  (Number.times (App.double b)
                     (Number.times (App.double b) q 60) 1000);
              App.completed := false;
              App.originalDelayMinutes := JNumber q |}];
        App.clockReads := S (S (App.clockReads st)) |},
     []).
Proof.
intros Htask Htruthy Hdelay Hq.
unfold App.handleToolAction.
replace (App.isTool (Some App.SET_REMINDER) App.OPEN_URL) with false by reflexivity.
replace (App.isTool (Some App.SET_REMINDER) App.SEARCH_YOUTUBE) with false by reflexivity.
replace (App.isTool (Some App.SET_REMINDER) App.SET_REMINDER) with true by reflexivity.
rewrite Htask, Htruthy, Hdelay.
assert (Hnz : App.ToBoolean (JNumber q) = true).
{ cbn [App.ToBoolean]. apply negb_true_iff.
  destruct (Qeq_bool q 0) eqn:E; [|reflexivity].
  apply Qeq_bool_iff in E. contradiction. }
rewrite Hnz. reflexivity.
Qed.

(** X22: a [set_reminder] action with a task and a delay of [q] minutes,
    [q] a number other than 0, adds one reminder at the end of the list: not
    completed, with the task as its text, and it opens no window. The due
    time is the clock reading taken for it plus the delay in milliseconds,
    each product and the sum rounded as numbers are; a poll completes the
    reminder exactly from a clock reading on that is not below its due time.
    With a delay that is not negative the reminder is never due before the
    reading it was set at, with one that is not positive it is due at once,
    and with a whole number of minutes, the numbers staying below 2^53, it
    is due exactly [q * 60000] milliseconds after that reading. *)
Theorem reminder_set_and_due (b : App.Browser) (args task : jsval) (q : Q)
  (st : App.state) :
  App.getProp args "task" = Ok task ->
  App.ToBoolean task = true ->
  App.getProp args "delay_minutes" = Ok (JNumber q) ->
  ~ (q == 0)%Q ->
  Number.rounding (App.double b) ->
  (Z.abs (App.Date_now b (S (App.clockReads st))) < 2 ^ 53)%Z ->
  exists r,
    App.handleToolAction b (Some App.SET_REMINDER) args st
    = (Ok (String.append "Reminder set for " (App.toText b task)),
       {| App.reminders := App.reminders st ++ [r];
          App.clockReads := S (S (App.clockReads st)) |},
       [])
    /\ App.text r = task
    /\ App.completed r = false
    /\ (forall now,
          App.isDue now r = true <-> (App.dueTime r <= inject_Z now)%Q)
    /\ ((0 <= q)%Q ->
        forall now,
          (now < App.Date_now b (S (App.clockReads st)))%Z ->
          App.isDue now r = false)
    /\ ((q <= 0)%Q ->
        forall now,
          (App.Date_now b (S (App.clockReads st)) <= now)%Z ->
          App.isDue now r = true)
    /\ (forall k : Z,
          (q == inject_Z k)%Q ->
          (Z.abs (k * 60000) < 2 ^ 53)%Z ->
          (Z.abs (App.Date_now b (S (App.clockReads st)) + k * 60000) < 2 ^ 53)%Z ->
          (App.dueTime r
           == inject_Z (App.Date_now b (S (App.clockReads st)) + k * 60000))%Q).
Proof.
intros Htask Htruthy Hdelay Hq Hr Ht.
eexists. split; [exact (set_reminder_run b args task q st Htask Htruthy Hdelay Hq)|].
split; [reflexivity|]. split; [reflexivity|].
set (t := App.Date_now b (S (App.clockReads st))) in *.
set (d := App.double b) in *.
destruct Hr as [Hmono Hexact].
assert (Hzero : (d 0 == 0)%Q).
{ apply Hexact. apply (representable_Z 0). reflexivity. }
assert (Hself : (d (inject_Z t) == inject_Z t)%Q).
{ apply Hexact. now apply representable_Z. }
cbn [App.dueTime App.completed]. unfold Number.plus, Number.times. fold d.
split.
{ intros now. rewrite isDue_spec. cbn [App.completed App.dueTime].
  unfold Number.plus, Number.times. fold d. fold t. tauto. }
split.
{ intros Hpos now Hnow.
  destruct (App.isDue now _) eqn:E; [|reflexivity].
  apply isDue_spec in E. destruct E as [_ E]. cbn [App.dueTime] in E.
  unfold Number.plus, Number.times in E. fold d in E. fold t in E.
  assert (H1 : (0 <= d (q * 60))%Q).
  { rewrite <- Hzero. apply Hmono. lra. }
  assert (H2 : (0 <= d (d (q * 60) * 1000))%Q).
  { rewrite <- Hzero. apply Hmono. lra. }
  assert (H3 : (inject_Z t <= d (inject_Z t + d (d (q * 60) * 1000)))%Q).
  { rewrite <- Hself at 1. apply Hmono. lra. }
  assert (H4 : (inject_Z t <= inject_Z now)%Q) by (eapply Qle_trans; eassumption).
  rewrite <- Zle_Qle in H4. lia. }
split.
{ intros Hneg now Hnow. apply isDue_spec. split; [reflexivity|].
  cbn [App.dueTime]. unfold Number.plus, Number.times. fold d. fold t.
  assert (H1 : (d (q * 60) <= 0)%Q).
  { rewrite <- Hzero. apply Hmono. lra. }
  assert (H2 : (d (d (q * 60) * 1000) <= 0)%Q).
  { rewrite <- Hzero. apply Hmono. lra. }
  assert (H3 : (d (inject_Z t + d (d (q * 60) * 1000)) <= inject_Z t)%Q).
  { rewrite <- Hself at 2. apply Hmono. lra. }
  eapply Qle_trans; [exact H3|]. rewrite <- Zle_Qle. exact Hnow. }
intros k Hk Hsmall Hsum.
assert (Hround : Number.rounding d) by (split; assumption).
assert (H1 : (d (q * 60) == inject_Z (k * 60))%Q).
{ apply (rounding_whole d _ _ Hround); [|lia].
  rewrite Hk. unfold Qeq, Qmult, inject_Z. cbn [Qnum Qden]. lia. }
assert (H2 : (d (d (q * 60) * 1000) == inject_Z (k * 60000))%Q).
{ apply (rounding_whole d _ _ Hround); [|exact Hsmall].
  rewrite H1. unfold Qeq, Qmult, inject_Z. cbn [Qnum Qden]. lia. }
apply (rounding_whole d _ _ Hround); [|exact Hsum].
rewrite H2. unfold Qeq, Qplus, inject_Z. cbn [Qnum Qden]. lia.
Qed.

Lemma reminder_set_and_due_witness :
  exists r,
    App.handleToolAction AppRuns.plainBrowser (Some App.SET_REMINDER)
      AppRuns.teaArgs AppRuns.emptyApp
    = (Ok "Reminder set for tea",
       {| App.reminders := [r]; App.clockReads := 2 |}, [])
    /\ App.text r = JString "tea"
    /\ App.completed r = false
    /\ (App.dueTime r == 1700000300001)%Q
    /\ App.isDue 1700000000000 r = false
    /\ App.isDue 1700000300001 r = true.
Proof.
destruct (reminder_set_and_due AppRuns.plainBrowser AppRuns.teaArgs
            (JString "tea") 5 AppRuns.emptyApp)
  as (r & Hrun & Htxt & Hc & Hdue & Hbefore & _ & Hexact).
- reflexivity.
- reflexivity.
- reflexivity.
- intros H. vm_compute in H. discriminate H.
- split.
  + intros x y Hxy. exact Hxy.
  + intros x _. reflexivity.
- vm_compute. reflexivity.
- assert (Hd : (App.dueTime r == 1700000300001)%Q).
  { rewrite (Hexact 5%Z); [vm_compute; reflexivity | reflexivity | | ];
      vm_compute; reflexivity. }
  exists r. split; [exact Hrun|]. split; [exact Htxt|]. split; [exact Hc|].
  split; [exact Hd|]. split.
  + apply Hbefore; [vm_compute; discriminate | vm_compute; reflexivity].
  + apply Hdue. rewrite Hd. vm_compute. discriminate.
Defined.

Lemma isTool_cases (name : option string) :
  name = Some App.OPEN_URL \/ name = Some App.SEARCH_YOUTUBE
  \/ name = Some App.SET_REMINDER
  \/ (App.isTool name App.OPEN_URL = false
      /\ App.isTool name App.SEARCH_YOUTUBE = false
      /\ App.isTool name App.SET_REMINDER = false).
Proof.
destruct name as [n|]; [|now repeat right].
cbn [App.isTool].
destruct (String.eqb_spec n App.OPEN_URL) as [->|_]; [now left|].
destruct (String.eqb_spec n App.SEARCH_YOUTUBE) as [->|_]; [now right; left|].
destruct (String.eqb_spec n App.SET_REMINDER) as [->|_]; [now right; right; left|].
now repeat right.
Qed.

(** X23: a tool action on an arguments object. It raises only where the
    browser does: when [window.open] refuses the URL of an [open_url] or of
    a [search_youtube] action, or [encodeURIComponent] the query; then
    nothing has been done. When it returns it has left the reminders it
    found in place and added at most one, has opened at most one window,
    and its answer is "done" exactly when it did nothing at all; that is the
    answer to a tool the component does not know and to a reminder with a
    delay of 0 minutes. A [set_reminder] action and an action the component
    does not know never raise. *)
Theorem tool_action_on_object (b : App.Browser) (name : option string)
  (fields : list (string * jsval)) (st : App.state) :
  exists r st' effects (extra : list App.Reminder),
    App.handleToolAction b name (JObject fields) st = (r, st', effects)
    /\ App.reminders st' = App.reminders st ++ extra
    /\ (length effects + length extra <= 1)%nat
    /\ (forall e,
          r = Throw e ->
          e = HostError /\ st' = st /\ effects = []
          /\ ((App.isTool name App.OPEN_URL = true
               /\ App.windowOpenRaises b (App.lookupField fields "url") = true)
              \/ (App.isTool name App.SEARCH_YOUTUBE = true
                  /\ match App.encodeURIComponent b
                             (App.toText b (App.lookupField fields "query")) with
                     | None => True
                     | Some encoded =>
                         App.windowOpenRaises b
                           (JString (String.append
                              "https://www.youtube.com/results?search_query="
                              encoded)) = true
                     end)))
    /\ (forall res, r = Ok res -> (res = "done" <-> st' = st /\ effects = []))
    /\ (App.isTool name App.OPEN_URL = false ->
        App.isTool name App.SEARCH_YOUTUBE = false ->
        App.isTool name App.SET_REMINDER = false -> r = Ok "done")
    /\ (App.isTool name App.SET_REMINDER = true ->
        (exists res, r = Ok res)
        /\ (App.lookupField fields "delay_minutes" = JNumber 0 -> r = Ok "done")).
Proof.
assert (Hst : forall l r0,
  {| App.reminders := l ++ [r0]; App.clockReads := S (S (App.clockReads st)) |} <> st).
{ intros l r0 H. apply (f_equal App.clockReads) in H. cbn in H. lia. }
unfold App.handleToolAction, App.windowOpen. cbn [App.getProp].
destruct (isTool_cases name) as [->|[->|[->|(E1 & E2 & E3)]]].
- replace (App.isTool (Some App.OPEN_URL) App.OPEN_URL) with true by reflexivity.
  destruct (App.ToBoolean (App.lookupField fields "url")).
  + destruct (App.windowOpenRaises b (App.lookupField fields "url")) eqn:Eo.
    * do 3 eexists. exists []. split; [reflexivity|]. rewrite app_nil_r.
      split; [reflexivity|]. split; [cbn; lia|].
      split.
      { intros e He. injection He as <-. repeat split. left. split; reflexivity. }
      split; [intros res H; discriminate H|].
      split; [intros H; vm_compute in H; discriminate H|].
      intros H; vm_compute in H; discriminate H.
    * do 3 eexists. exists []. split; [reflexivity|]. rewrite app_nil_r.
      split; [reflexivity|]. split; [cbn; lia|].
      split; [intros e H; discriminate H|].
      split.
      { intros res H. injection H as <-.
        split; [intros H; discriminate H | intros [_ H]; discriminate H]. }
      split; [intros H; vm_compute in H; discriminate H|].
      intros H; vm_compute in H; discriminate H.
  + do 3 eexists. exists []. split; [reflexivity|]. rewrite app_nil_r.
    split; [reflexivity|]. split; [cbn; lia|].
    split; [intros e H; discriminate H|].
    split; [intros res H; injection H as <-; tauto|].
    split; [reflexivity|].
    intros H; vm_compute in H; discriminate H.
- replace (App.isTool (Some App.SEARCH_YOUTUBE) App.OPEN_URL) with false by reflexivity.
  replace (App.isTool (Some App.SEARCH_YOUTUBE) App.SEARCH_YOUTUBE) with true
    by reflexivity.
  destruct (App.ToBoolean (App.lookupField fields "query")).
  + destruct (App.encodeURIComponent b
                (App.toText b (App.lookupField fields "query")))
      as [encoded|] eqn:Ee.
    * cbn zeta.
      destruct (App.windowOpenRaises b _) eqn:Eo.
      -- do 3 eexists. exists []. split; [reflexivity|]. rewrite app_nil_r.
         split; [reflexivity|]. split; [cbn; lia|].
         split.
         { intros e He. injection He as <-. repeat split. right.
           split; reflexivity. }
         split; [intros res H; discriminate H|].
         split; [intros _ H; vm_compute in H; discriminate H|].
         intros H; vm_compute in H; discriminate H.
      -- do 3 eexists. exists []. split; [reflexivity|]. rewrite app_nil_r.
         split; [reflexivity|]. split; [cbn; lia|].
         split; [intros e H; discriminate H|].
         split.
         { intros res H. injection H as <-.
           split; [intros H; discriminate H | intros [_ H]; discriminate H]. }
         split; [intros _ H; vm_compute in H; discriminate H|].
         intros H; vm_compute in H; discriminate H.
    * do 3 eexists. exists []. split; [reflexivity|]. rewrite app_nil_r.
      split; [reflexivity|]. split; [cbn; lia|].
      split.
      { intros e He. injection He as <-. repeat split. right.
        split; [reflexivity|exact I]. }
      split; [intros res H; discriminate H|].
      split; [intros _ H; vm_compute in H; discriminate H|].
      intros H; vm_compute in H; discriminate H.
  + do 3 eexists. exists []. split; [reflexivity|]. rewrite app_nil_r.
    split; [reflexivity|]. split; [cbn; lia|].
    split; [intros e H; discriminate H|].
    split; [intros res H; injection H as <-; tauto|].
    split; [intros _ H; vm_compute in H; discriminate H|].
    intros H; vm_compute in H; discriminate H.
- replace (App.isTool (Some App.SET_REMINDER) App.OPEN_URL) with false by reflexivity.
  replace (App.isTool (Some App.SET_REMINDER) App.SEARCH_YOUTUBE) with false
    by reflexivity.
  replace (App.isTool (Some App.SET_REMINDER) App.SET_REMINDER) with true
    by reflexivity.
  destruct (App.ToBoolean (App.lookupField fields "task")).
  + destruct (App.ToBoolean (App.lookupField fields "delay_minutes")) eqn:Ed.
    * do 3 eexists. eexists [_]. split; [reflexivity|].
      split; [reflexivity|]. split; [cbn; lia|].
      split; [intros e H; discriminate H|].
      split.
      { intros res H. injection H as <-.
        split; [intros H; discriminate H
               | intros [H _]; exfalso; exact (Hst _ _ H)]. }
      split; [intros _ _ H; discriminate H|].
      intros _. split; [eexists; reflexivity|].
      intros Hz. rewrite Hz in Ed. discriminate Ed.
    * do 3 eexists. exists []. split; [reflexivity|]. rewrite app_nil_r.
      split; [reflexivity|]. split; [cbn; lia|].
      split; [intros e H; discriminate H|].
      split; [intros res H; injection H as <-; tauto|].
      split; [reflexivity|].
      intros _. split; [eexists; reflexivity | reflexivity].
  + do 3 eexists. exists []. split; [reflexivity|]. rewrite app_nil_r.
    split; [reflexivity|]. split; [cbn; lia|].
    split; [intros e H; discriminate H|].
    split; [intros res H; injection H as <-; tauto|].
    split; [reflexivity|].
    intros _. split; [eexists; reflexivity | reflexivity].
- rewrite E1, E2, E3.
  do 3 eexists. exists []. split; [reflexivity|]. rewrite app_nil_r.
  split; [reflexivity|]. split; [cbn; lia|].
  split; [intros e H; discriminate H|].
  split; [intros res H; injection H as <-; tauto|].
  split; [reflexivity|].
  intros H; discriminate H.
Qed.

Lemma tool_action_on_object_witness :
  App.handleToolAction AppRuns.strictBrowser (Some "open_url")
    (JObject [("url", JString "http://")]) AppRuns.emptyApp
  = (Throw HostError, AppRuns.emptyApp, [])
  /\ App.handleToolAction AppRuns.plainBrowser (Some "set_reminder")
       (JObject [("task", JString "tea"); ("delay_minutes", JNumber 0)])
       AppRuns.emptyApp
     = (Ok "done", AppRuns.emptyApp, []).
Proof.
split.
- destruct (tool_action_on_object AppRuns.strictBrowser (Some "open_url")
              [("url", JString "http://")] AppRuns.emptyApp)
    as (r & st' & effects & extra & Hrun & _ & _ & Hthrow & _).
  rewrite Hrun.
  assert (Hr : r = Throw HostError).
  { vm_compute in Hrun. apply (f_equal (fun x => fst (fst x))) in Hrun.
    cbn in Hrun. now subst r. }
  destruct (Hthrow HostError Hr) as (_ & -> & -> & _). now rewrite Hr.
- destruct (tool_action_on_object AppRuns.plainBrowser (Some "set_reminder")
              [("task", JString "tea"); ("delay_minutes", JNumber 0)]
              AppRuns.emptyApp)
    as (r & st' & effects & extra & Hrun & _ & _ & _ & Hdone & _ & Hzero).
  rewrite Hrun.
  destruct (Hzero eq_refl) as [_ Hr]. specialize (Hr eq_refl).
  destruct (proj1 (Hdone "done" Hr) eq_refl) as [-> ->]. now rewrite Hr.
Defined.

End AppFacts.

Section AppDispatch.

Lemma mapToolCalls_same (functionCalls : list ToolCallData) :
  mapToolCalls functionCalls = functionCalls.
Proof.
unfold mapToolCalls. induction functionCalls as [|fc l IH]; [reflexivity|].
cbn [List.map]. rewrite IH. now destruct fc.
Qed.

Lemma handleToolAction_without_args (b : App.Browser) (tc : ToolCallData)
  (st : App.state) :
  AppRuns.withoutArgs tc = true ->
  App.handleToolAction b (name tc) (args tc) st = (Throw TypeError, st, []).
Proof.
unfold AppRuns.withoutArgs, App.handleToolAction. intros H.
destruct (args tc); try discriminate H;
  cbn [App.getProp];
  (destruct (App.isTool (name tc) App.OPEN_URL); [reflexivity|]);
  (destruct (App.isTool (name tc) App.SEARCH_YOUTUBE); [reflexivity|]);
  (destruct (App.isTool (name tc) App.SET_REMINDER); [reflexivity|]);
  discriminate H.
Qed.

Lemma onToolCall_length (b : App.Browser) (toolCalls : list ToolCallData) :
  forall st results st' effects,
    App.onToolCall b toolCalls st = (Ok results, st', effects) ->
    length results = length toolCalls.
Proof.
induction toolCalls as [|tc rest IH]; intros st results st' effects Hrun.
- cbn in Hrun. apply (f_equal (fun x => fst (fst x))) in Hrun. cbn in Hrun.
  injection Hrun as <-. reflexivity.
- cbn [App.onToolCall] in Hrun.
  destruct (App.handleToolAction b (name tc) (args tc) st) as [[[res|e] st1] e1];
    [|apply (f_equal (fun x => fst (fst x))) in Hrun; discriminate Hrun].
  destruct (App.onToolCall b rest st1) as [[[results1|e] st2] e2] eqn:Hrest;
    apply (f_equal (fun x => fst (fst x))) in Hrun; cbn in Hrun;
    [|discriminate Hrun].
  injection Hrun as <-. cbn [length]. f_equal. exact (IH _ _ _ _ Hrest).
Qed.

Lemma onToolCall_app (b : App.Browser) (pre rest : list ToolCallData) :
  forall st,
    App.onToolCall b (pre ++ rest) st
    = match App.onToolCall b pre st with
      | (Throw e, st1, e1) => (Throw e, st1, e1)
      | (Ok r1, st1, e1) =>
          match App.onToolCall b rest st1 with
          | (Throw e, st2, e2) => (Throw e, st2, e1 ++ e2)
          | (Ok r2, st2, e2) => (Ok (r1 ++ r2), st2, e1 ++ e2)
          end
      end.
Proof.
induction pre as [|tc pre IH]; intros st.
- cbn [app App.onToolCall].
  destruct (App.onToolCall b rest st) as [[[r2|e] st2] e2]; reflexivity.
- cbn [app App.onToolCall].
  destruct (App.handleToolAction b (name tc) (args tc) st) as [[[res|e] st1] e1];
    [|reflexivity].
  rewrite IH.
  destruct (App.onToolCall b pre st1) as [[[r1|e] st2] e2]; [|reflexivity].
  destruct (App.onToolCall b rest st2) as [[[r2|e] st3] e3];
    now rewrite app_assoc.
Qed.

Lemma appConfig_captions (b : App.Browser) (st : App.state) :
  captions_return (AppRuns.appConfig b st).
Proof. intros f txt u c Hf. injection Hf as <-. reflexivity. Qed.

(** X24: with the component's dispatcher, a batch of tool calls whose
    actions all return is carried out call by call and answered in one
    message: one response per call, in order, with the call's id and name
    and the text the action returned as its result. *)
Theorem app_answers_every_call (b : App.Browser) (st st' : App.state) (h : Host)
  (message : LiveServerMessage) (functionCalls : list ToolCallData)
  (results : list string) (effects : list App.effect) (w : World) :
  toolCall message = Some functionCalls ->
  App.onToolCall b functionCalls st = (Ok results, st', effects) ->
  exists w' evs responses,
    handleMessage (AppRuns.appConfig b st) h message w = (Ok tt, w', evs)
    /\ sentBatches evs = [responses]
    /\ length responses = length functionCalls
    /\ forall i fc,
         functionCalls !! i = Some fc ->
         exists res,
           results !! i = Some res
           /\ responses !! i
              = Some {| fr_id := id fc; fr_name := name fc;
                        response := JObject [("result", JString res)] |}.
Proof.
intros Hcall Hrun.
pose proof (onToolCall_length b functionCalls st results st' effects Hrun) as Hlen.
destruct (handleMessage_dispatched (AppRuns.appConfig b st) h message functionCalls
            (App.dispatcher b st) w (appConfig_captions b st) Hcall eq_refl)
  as (w' & evs & Hs & Hmsg).
rewrite mapToolCalls_same in Hmsg. unfold App.dispatcher in Hmsg at 1.
rewrite Hrun in Hmsg.
destruct (functionResponsesFrom_ok functionCalls (List.map JString results) 0%nat)
  as (responses & Hresp & Hrlen & Hnth).
{ rewrite length_map. cbn. lia. }
unfold functionResponses in Hmsg. rewrite Hresp in Hmsg.
exists w', (evs ++ [SendToolResponse responses]), responses.
split; [exact Hmsg|].
split; [now rewrite sentBatches_app, Hs|].
split; [rewrite Hrlen, length_map; exact Hlen|].
intros i fc Hfc.
destruct (lookup_lt_is_Some_2 results i) as [res Hres].
{ rewrite Hlen. apply lookup_lt_is_Some_1. now exists fc. }
exists res. split; [exact Hres|].
destruct (Hnth i (JString res)) as (tc & Htc & Hri).
{ change (List.map JString results) with (JString <$> results).
  rewrite list_lookup_fmap, Hres. reflexivity. }
cbn [Nat.add] in Htc. rewrite Hfc in Htc. injection Htc as <-. exact Hri.
Qed.

Lemma app_answers_every_call_witness :
  exists w' evs responses,
    handleMessage (AppRuns.appConfig AppRuns.plainBrowser AppRuns.emptyApp)
      (hostAt 0)
      {| serverContent := None;
         toolCall := Some [reminderCall; AppRuns.openCall "https://example.org/"] |}
      {| this := playingSession 0 ∅; nodesCreated := 0 |}
    = (Ok tt, w', evs)
    /\ sentBatches evs = [responses]
    /\ responses
       = [{| fr_id := Some "call-1"; fr_name := Some "set_reminder";
             response := JObject [("result", JString "Reminder set for call mom")] |};
          {| fr_id := Some "call-2"; fr_name := Some "open_url";
             response := JObject [("result", JString "Opened https://example.org/")] |}].
Proof.
destruct (App.onToolCall AppRuns.plainBrowser
            [reminderCall; AppRuns.openCall "https://example.org/"]
            AppRuns.emptyApp) as [[r st'] effects] eqn:Hrun.
assert (Hr : r = Ok ["Reminder set for call mom"; "Opened https://example.org/"]).
{ vm_compute in Hrun. apply (f_equal (fun x => fst (fst x))) in Hrun.
  cbn in Hrun. now subst r. }
subst r.
destruct (app_answers_every_call AppRuns.plainBrowser AppRuns.emptyApp st'
            (hostAt 0)
            {| serverContent := None;
               toolCall := Some [reminderCall;
                                 AppRuns.openCall "https://example.org/"] |}
            [reminderCall; AppRuns.openCall "https://example.org/"]
            _ effects
            {| this := playingSession 0 ∅; nodesCreated := 0 |}
            eq_refl Hrun)
  as (w' & evs & responses & Hmsg & Hsent & Hlen & Hnth).
exists w', evs, responses. split; [exact Hmsg|]. split; [exact Hsent|].
destruct (Hnth 0%nat _ eq_refl) as (res0 & Hres0 & Hresp0).
destruct (Hnth 1%nat _ eq_refl) as (res1 & Hres1 & Hresp1).
injection Hres0 as <-. injection Hres1 as <-.
destruct responses as [|r0 [|r1 [|r2 rest]]]; try discriminate Hlen.
injection Hresp0 as ->. injection Hresp1 as ->. reflexivity.
Defined.

(** X25: one action that raises leaves the whole batch unanswered. When the
    actions of the calls before it have returned and its own raises, as it
    does with a TypeError for a call to one of the component's tools that
    carries no arguments, the dispatcher raises that error: what the earlier
    actions did stays done, the calls after it are not carried out, and the
    session sends no response for any call of the batch. *)
Theorem app_call_raises_unanswered (b : App.Browser) (st st' st'' : App.state)
  (h : Host) (message : LiveServerMessage) (pre post : list ToolCallData)
  (bad : ToolCallData) (results : list string) (e : exn)
  (effects effects' : list App.effect) (w : World) :
  toolCall message = Some (pre ++ bad :: post) ->
  App.onToolCall b pre st = (Ok results, st', effects) ->
  App.handleToolAction b (name bad) (args bad) st' = (Throw e, st'', effects') ->
  App.onToolCall b (pre ++ bad :: post) st = (Throw e, st'', effects ++ effects')
  /\ (exists w' evs,
        handleMessage (AppRuns.appConfig b st) h message w = (Throw e, w', evs)
        /\ sentBatches evs = [])
  /\ (AppRuns.withoutArgs bad = true ->
      e = TypeError /\ st'' = st' /\ effects' = []).
Proof.
intros Hcall Hrun Hbad.
assert (Hthrow : App.onToolCall b (pre ++ bad :: post) st
                 = (Throw e, st'', effects ++ effects')).
{ rewrite onToolCall_app, Hrun. cbn [App.onToolCall]. rewrite Hbad. reflexivity. }
split; [exact Hthrow|]. split.
- destruct (handleMessage_dispatched (AppRuns.appConfig b st) h message
              (pre ++ bad :: post) (App.dispatcher b st) w
              (appConfig_captions b st) Hcall eq_refl)
    as (w' & evs & Hs & Hmsg).
  rewrite mapToolCalls_same in Hmsg. unfold App.dispatcher in Hmsg at 1.
  rewrite Hthrow in Hmsg.
  exists w', evs. split; assumption.
- intros Hno. rewrite (handleToolAction_without_args b bad st' Hno) in Hbad.
  apply (f_equal (fun x => (fst (fst x), snd (fst x), snd x))) in Hbad.
  cbn in Hbad. injection Hbad as <- <- <-. repeat split.
Qed.

Lemma app_call_raises_unanswered_witness :
  App.onToolCall AppRuns.plainBrowser
    [AppRuns.openCall "https://example.org/";
     {| name := Some "open_url"; args := JUndefined; id := Some "call-3" |};
     reminderCall] AppRuns.emptyApp
  = (Throw TypeError, AppRuns.emptyApp,
     [App.WindowOpen (JString "https://example.org/") "_blank"])
  /\ exists w' evs,
       handleMessage (AppRuns.appConfig AppRuns.plainBrowser AppRuns.emptyApp)
         (hostAt 0)
         {| serverContent := None;
            toolCall := Some [AppRuns.openCall "https://example.org/";
                              {| name := Some "open_url"; args := JUndefined;
                                 id := Some "call-3" |};
                              reminderCall] |}
         {| this := playingSession 0 ∅; nodesCreated := 0 |}
       = (Throw TypeError, w', evs)
       /\ sentBatches evs = [].
Proof.
destruct (app_call_raises_unanswered AppRuns.plainBrowser AppRuns.emptyApp
            AppRuns.emptyApp AppRuns.emptyApp (hostAt 0)
            {| serverContent := None;
               toolCall := Some [AppRuns.openCall "https://example.org/";
                                 {| name := Some "open_url"; args := JUndefined;
                                    id := Some "call-3" |};
                                 reminderCall] |}
            [AppRuns.openCall "https://example.org/"] [reminderCall]
            {| name := Some "open_url"; args := JUndefined; id := Some "call-3" |}
            ["Opened https://example.org/"] TypeError
            [App.WindowOpen (JString "https://example.org/") "_blank"] []
            {| this := playingSession 0 ∅; nodesCreated := 0 |})
  as (Hrun & Hmsg & _).
- reflexivity.
- vm_compute. reflexivity.
- reflexivity.
- split; [exact Hrun | exact Hmsg].
Defined.

End AppDispatch.

Section ReminderFacts.

Lemma onRemove_app (id0 : string) (l1 l2 : list App.Reminder) :
  App.onRemove id0 (l1 ++ l2) = App.onRemove id0 l1 ++ App.onRemove id0 l2.
Proof. unfold App.onRemove. induction l1 as [|r l1 IH]; [reflexivity|]. cbn [app List.filter]. rewrite IH. now destruct (negb _). Qed.

(** X26: two reminders set while the clock shows the same millisecond get
    the same id, whatever their tasks and delays, and removing one of them
    from the panel removes both. *)
Theorem same_instant_reminders_share_id (b : App.Browser)
  (args1 args2 task1 task2 : jsval) (q1 q2 : Q) (st : App.state) :
  App.getProp args1 "task" = Ok task1 -> App.ToBoolean task1 = true ->
  App.getProp args1 "delay_minutes" = Ok (JNumber q1) -> ~ (q1 == 0)%Q ->
  App.getProp args2 "task" = Ok task2 -> App.ToBoolean task2 = true ->
  App.getProp args2 "delay_minutes" = Ok (JNumber q2) -> ~ (q2 == 0)%Q ->
  App.Date_now b (S (S (App.clockReads st))) = App.Date_now b (App.clockReads st) ->
  exists res1 res2 st1 st2 r1 r2,
    App.handleToolAction b (Some App.SET_REMINDER) args1 st = (Ok res1, st1, [])
    /\ App.handleToolAction b (Some App.SET_REMINDER) args2 st1 = (Ok res2, st2, [])
    /\ App.reminders st2 = App.reminders st ++ [r1; r2]
    /\ App.text r1 = task1 /\ App.text r2 = task2
    /\ App.id r1 = App.id r2
    /\ App.onRemove (App.id r1) (App.reminders st2)
       = App.onRemove (App.id r1) (App.reminders st).
Proof.
intros Ht1 Hb1 Hd1 Hq1 Ht2 Hb2 Hd2 Hq2 Hclock.
pose proof (set_reminder_run b args1 task1 q1 st Ht1 Hb1 Hd1 Hq1) as Hrun1.
set (st1 := {| App.reminders := _; App.clockReads := _ |}) in Hrun1.
pose proof (set_reminder_run b args2 task2 q2 st1 Ht2 Hb2 Hd2 Hq2) as Hrun2.
do 6 eexists. split; [exact Hrun1|]. split; [exact Hrun2|].
cbn [App.reminders App.clockReads st1]. rewrite <- app_assoc. cbn [app].
split; [reflexivity|]. split; [reflexivity|]. split; [reflexivity|].
cbn [App.id]. rewrite Hclock. split; [reflexivity|].
rewrite onRemove_app. unfold App.onRemove at 2. cbn [List.filter App.id].
rewrite String.eqb_refl. cbn [negb]. now rewrite app_nil_r.
Qed.

Lemma same_instant_reminders_share_id_witness :
  exists res1 res2 st1 st2 r1 r2,
    App.handleToolAction AppRuns.stillBrowser (Some App.SET_REMINDER)
      AppRuns.teaArgs AppRuns.emptyApp = (Ok res1, st1, [])
    /\ App.handleToolAction AppRuns.stillBrowser (Some App.SET_REMINDER)
         (args reminderCall) st1 = (Ok res2, st2, [])
    /\ App.reminders st2 = [r1; r2]
    /\ App.text r1 = JString "tea" /\ App.text r2 = JString "call mom"
    /\ App.id r1 = App.id r2
    /\ App.onRemove (App.id r1) (App.reminders st2) = [].
Proof.
apply (same_instant_reminders_share_id AppRuns.stillBrowser AppRuns.teaArgs
         (args reminderCall) (JString "tea") (JString "call mom") 5 5
         AppRuns.emptyApp);
  try reflexivity; intros H; vm_compute in H; discriminate H.
Defined.

Lemma poll_next (granted : bool) (now : Z) (prev : list App.Reminder) :
  fst (App.pollReminders granted now prev)
  = List.map (fun r => if App.isDue now r then App.complete r else r) prev.
Proof.
unfold App.pollReminders. cbn [fst].
destruct (existsb (App.isDue now) prev) eqn:E; [reflexivity|].
induction prev as [|r l IH]; [reflexivity|].
cbn [existsb] in E. apply orb_false_iff in E. destruct E as [Er El].
cbn [List.map]. rewrite Er, <- IH by exact El. reflexivity.
Qed.

Lemma beeps_app (e1 e2 : list App.effect) :
  AppRuns.beeps (e1 ++ e2) = (AppRuns.beeps e1 + AppRuns.beeps e2)%nat.
Proof. unfold AppRuns.beeps. now rewrite List.filter_app, length_app. Qed.

Lemma notified_app (e1 e2 : list App.effect) :
  App.notified (e1 ++ e2) = App.notified e1 ++ App.notified e2.
Proof. unfold App.notified. apply omap_app. Qed.

Lemma poll_step (granted : bool) (now : Z) (prev : list App.Reminder) :
  let '(next, effects) := App.pollReminders granted now prev in
  length next = length prev
  /\ List.map App.id next = List.map App.id prev
  /\ List.map App.text next = List.map App.text prev
  /\ (AppRuns.beeps effects + AppRuns.pending next)%nat = AppRuns.pending prev
  /\ length (App.notified effects)
     = (if granted then AppRuns.beeps effects else 0)%nat
  /\ (forall i r, prev !! i = Some r -> App.completed r = true ->
                  next !! i = Some r)
  /\ (forall r, In r next -> App.isDue now r = false).
Proof.
pose proof (poll_next granted now prev) as Hnext.
destruct (App.pollReminders granted now prev) as [next effects] eqn:Hp.
cbn [fst] in Hnext. subst next.
assert (He : effects
  = List.flat_map
      (fun r => if App.isDue now r
                then App.AudioPlay App.beep ::
                     (if granted then [App.ShowNotification "Reminder" (App.text r)]
                      else [])
                else []) prev).
{ unfold App.pollReminders in Hp. now injection Hp as _ <-. }
subst effects. clear Hp.
split; [now rewrite length_map|].
split.
{ rewrite List.map_map. apply List.map_ext. intros r. now destruct (App.isDue now r). }
split.
{ rewrite List.map_map. apply List.map_ext. intros r. now destruct (App.isDue now r). }
split.
{ induction prev as [|r l IH]; [reflexivity|].
  cbn [flat_map List.map]. rewrite beeps_app.
  unfold AppRuns.pending in *. cbn [List.filter].
  destruct (App.isDue now r) eqn:Er.
  - apply isDue_spec in Er. destruct Er as [Hc _]. rewrite Hc.
    cbn [App.complete App.completed negb]. cbn [length].
    destruct granted; cbn; cbn in IH; lia.
  - destruct (negb (App.completed r)); cbn [length]; cbn; cbn in IH; lia. }
split.
{ induction prev as [|r l IH]; [now destruct granted|].
  cbn [flat_map]. rewrite notified_app, length_app, beeps_app, IH.
  destruct (App.isDue now r), granted; reflexivity. }
split.
{ intros i r Hi Hc.
  change (List.map ?f prev) with (f <$> prev).
  rewrite list_lookup_fmap, Hi. cbn.
  unfold App.isDue. rewrite Hc. reflexivity. }
intros r Hin. apply List.in_map_iff in Hin. destruct Hin as (r0 & Hr & _).
destruct (App.isDue now r0) eqn:E; subst r.
- unfold App.isDue. reflexivity.
- exact E.
Qed.

(** X27: over any run of poll ticks no reminder is added, dropped, renamed
    or reordered, and a completed reminder stays as it is; the beeps played
    are exactly the reminders that went from pending to completed, so each
    reminder beeps at most once; a notification is shown with each beep
    when notifications are permitted and never otherwise. A tick that
    follows a tick of the same or a later clock reading does nothing. *)
Theorem poll_completes_once (granted : bool) (nows : list Z)
  (prev : list App.Reminder) :
  (let '(final, effects) := AppRuns.pollAll granted nows prev in
   length final = length prev
   /\ List.map App.id final = List.map App.id prev
   /\ List.map App.text final = List.map App.text prev
   /\ (AppRuns.beeps effects + AppRuns.pending final)%nat = AppRuns.pending prev
   /\ length (App.notified effects)
      = (if granted then AppRuns.beeps effects else 0)%nat
   /\ (forall i r, prev !! i = Some r -> App.completed r = true ->
                   final !! i = Some r))
  /\ forall now earlier,
       (earlier <= now)%Z ->
       App.pollReminders granted earlier
         (fst (App.pollReminders granted now prev))
       = (fst (App.pollReminders granted now prev), []).
Proof.
split.
- revert prev. induction nows as [|now later IH]; intros prev.
  + cbn [AppRuns.pollAll]. destruct granted; repeat split; auto.
  + cbn [AppRuns.pollAll].
    pose proof (poll_step granted now prev) as Hstep.
    destruct (App.pollReminders granted now prev) as [next e1].
    specialize (IH next).
    destruct (AppRuns.pollAll granted later next) as [final e2].
    destruct Hstep as (L1 & I1 & T1 & B1 & N1 & C1 & _).
    destruct IH as (L2 & I2 & T2 & B2 & N2 & C2).
    split; [congruence|]. split; [congruence|]. split; [congruence|].
    split; [rewrite beeps_app; lia|].
    split; [rewrite notified_app, length_app, beeps_app, N1, N2;
            destruct granted; reflexivity|].
    intros i r Hi Hc. apply C2; [apply C1; assumption | assumption].
- intros now earlier Hle.
  pose proof (poll_step granted now prev) as Hstep.
  destruct (App.pollReminders granted now prev) as [next e1]. cbn [fst].
  destruct Hstep as (_ & _ & _ & _ & _ & _ & Hnone).
  assert (Hquiet : forall r, In r next -> App.isDue earlier r = false).
  { intros r Hr. specialize (Hnone r Hr).
    destruct (App.isDue earlier r) eqn:E; [|reflexivity].
    apply isDue_spec in E. destruct E as [Hc Hd].
    assert (Hn : App.isDue now r = true).
    { apply isDue_spec. split; [exact Hc|].
      eapply Qle_trans; [exact Hd|]. rewrite <- Zle_Qle. exact Hle. }
    congruence. }
  unfold App.pollReminders.
  assert (Hex : existsb (App.isDue earlier) next = false).
  { destruct (existsb (App.isDue earlier) next) eqn:E; [|reflexivity].
    apply List.existsb_exists in E. destruct E as (r & Hr & Hd).
    rewrite (Hquiet r Hr) in Hd. discriminate Hd. }
  rewrite Hex. f_equal.
  clear Hex Hnone. induction next as [|r l IH]; [reflexivity|].
  cbn [flat_map]. rewrite (Hquiet r (or_introl eq_refl)). cbn [app].
  apply IH. intros r' Hr'. apply Hquiet. now right.
Qed.

Lemma poll_completes_once_witness :
  AppRuns.pollAll true [4000; 125500; 130000]%Z [AppRuns.teaReminder]
  = ([App.complete AppRuns.teaReminder],
     [App.AudioPlay App.beep; App.ShowNotification "Reminder" (JString "tea")])
  /\ App.pollReminders true 4000
       (fst (App.pollReminders true 125500 [AppRuns.teaReminder]))
     = (fst (App.pollReminders true 125500 [AppRuns.teaReminder]), []).
Proof.
split.
- vm_compute. reflexivity.
- apply (proj2 (poll_completes_once true [] [AppRuns.teaReminder])
           125500%Z 4000%Z).
  lia.
Defined.

End ReminderFacts.

Section PanelFacts.




End PanelFacts.

Section PulseFacts.

Local Open Scope Q_scope.

Variable double : Q -> Q.
Hypothesis double_rounds : Number.rounding double.

Lemma double_whole (x : Q) (z : Z) :
  x == inject_Z z -> (Z.abs z < 2 ^ 53)%Z -> double x == inject_Z z.
Proof. intros Hx Hz. now apply rounding_whole. Qed.

Lemma double_five_halves (x : Q) : x == 5 # 2 -> double x == 5 # 2.
Proof.
intros Hx. rewrite (rounding_proper double x (5 # 2) double_rounds Hx).
apply (proj2 double_rounds). exists 5%Z, (-1)%Z.
split; [reflexivity|]. split; [lia|]. reflexivity.
Qed.

Lemma scaleOf_mono (v v' : Q) :
  v <= v' -> LivePulse.scaleOf double v <= LivePulse.scaleOf double v'.
Proof.
intros Hv. unfold LivePulse.scaleOf, Number.plus, Number.times.
destruct double_rounds as [Hmono _].
apply Hmono. apply Qplus_le_r. apply Q.min_le_compat_r. apply Hmono.
apply Qmult_le_compat_r; [exact Hv | discriminate].
Qed.

Lemma scaleOf_bounds (v : Q) :
  LivePulse.scaleOf double v <= 5 # 2
  /\ (0 <= v -> 1 <= LivePulse.scaleOf double v)
  /\ ((3 # 10) <= v -> LivePulse.scaleOf double v == 5 # 2).
Proof.
unfold LivePulse.scaleOf, Number.plus, Number.times.
destruct double_rounds as [Hmono _].
split; [|split].
- rewrite <- (double_five_halves (1 + (3 # 2))) by reflexivity.
  apply Hmono. apply Qplus_le_r. apply Q.le_min_r.
- intros Hv.
  assert (H1 : double (1 + 0) == 1) by (apply (double_whole _ 1); reflexivity).
  assert (H0 : double 0 == 0) by (apply (double_whole _ 0); reflexivity).
  apply Qle_trans with (double (1 + 0)); [rewrite H1; apply Qle_refl|].
  apply Hmono. apply Qplus_le_r. apply Q.min_glb; [|discriminate].
  apply Qle_trans with (double 0); [rewrite H0; apply Qle_refl|].
  apply Hmono. apply Qmult_le_0_compat; [exact Hv | discriminate].
- intros Hv. apply double_five_halves.
  assert (Hmin : Qmin (double (v * 5)) (3 # 2) == 3 # 2).
  { apply Q.min_r.
    assert (H32 : double (3 # 2) == 3 # 2).
    { apply (proj2 double_rounds). exists 3%Z, (-1)%Z.
      split; [reflexivity|]. split; [lia|]. reflexivity. }
    rewrite <- H32. apply Hmono. lra. }
  rewrite Hmin. reflexivity.
Qed.

Lemma audible_spec (volume : Q) :
  LivePulse.audible volume = true <-> LivePulse.threshold < volume.
Proof.
unfold LivePulse.audible, Qlt_bool. rewrite negb_true_iff.
destruct (Qle_bool volume LivePulse.threshold) eqn:E.
- apply Qle_bool_iff in E. split; [discriminate|]. intros H.
  exfalso. apply (Qlt_not_le _ _ H E).
- split; [intros _|reflexivity]. apply Qnot_le_lt. intros H.
  apply Qle_bool_iff in H. congruence.
Qed.

Lemma diameter_shown (userVolume modelVolume : Q) :
  LivePulse.diameter double userVolume modelVolume
  = Number.times double LivePulse.baseSize
      (LivePulse.scaleOf double (LivePulse.shown userVolume modelVolume)).
Proof.
unfold LivePulse.diameter, LivePulse.shown.
now destruct (LivePulse.audible modelVolume).
Qed.

(** X29: the size of the pulse, in the numbers of the program. The circle
    shows one volume, the model's while that is above 0.01 and else the
    user's, whatever the other is. Its width is never above 200 pixels; it
    is at least 80 for a volume that is not negative, grows with the volume
    and is exactly 200 from a volume of 0.3 on. *)
Theorem pulse_diameter_bounds (userVolume modelVolume : Q) :
  LivePulse.diameter double userVolume modelVolume <= 200
  /\ (0 <= LivePulse.shown userVolume modelVolume ->
      80 <= LivePulse.diameter double userVolume modelVolume)
  /\ (LivePulse.audible modelVolume = true ->
      (forall other,
         LivePulse.diameter double other modelVolume
         = LivePulse.diameter double userVolume modelVolume)
      /\ 80 <= LivePulse.diameter double userVolume modelVolume)
  /\ (forall userVolume' modelVolume',
        LivePulse.shown userVolume modelVolume
        <= LivePulse.shown userVolume' modelVolume' ->
        LivePulse.diameter double userVolume modelVolume
        <= LivePulse.diameter double userVolume' modelVolume')
  /\ ((3 # 10) <= LivePulse.shown userVolume modelVolume ->
      LivePulse.diameter double userVolume modelVolume == 200).
Proof.
destruct double_rounds as [Hmono _].
assert (Hlow : forall u m,
  0 <= LivePulse.shown u m -> 80 <= LivePulse.diameter double u m).
{ intros u m Hv. rewrite diameter_shown. unfold Number.times, LivePulse.baseSize.
  destruct (scaleOf_bounds (LivePulse.shown u m)) as (_ & Hone & _).
  specialize (Hone Hv).
  assert (H80 : double (80 * 1) == 80) by (apply (double_whole _ 80); reflexivity).
  apply Qle_trans with (double (80 * 1)); [rewrite H80; apply Qle_refl|].
  apply Hmono. lra. }
split.
{ rewrite diameter_shown. unfold Number.times, LivePulse.baseSize.
  destruct (scaleOf_bounds (LivePulse.shown userVolume modelVolume)) as (Hup & _).
  assert (H200 : double (80 * (5 # 2)) == 200)
    by (apply (double_whole _ 200); reflexivity).
  apply Qle_trans with (double (80 * (5 # 2))); [|rewrite H200; apply Qle_refl].
  apply Hmono. lra. }
split; [apply Hlow|].
split.
{ intros Ha. split.
  - intros other. unfold LivePulse.diameter. now rewrite Ha.
  - apply Hlow. unfold LivePulse.shown. rewrite Ha.
    apply audible_spec in Ha. apply Qlt_le_weak.
    eapply Qlt_trans; [|exact Ha]. reflexivity. }
split.
{ intros u' m' Hle. rewrite !diameter_shown. unfold Number.times, LivePulse.baseSize.
  apply Hmono.
  pose proof (scaleOf_mono _ _ Hle). lra. }
intros Hv. rewrite diameter_shown. unfold Number.times, LivePulse.baseSize.
destruct (scaleOf_bounds (LivePulse.shown userVolume modelVolume)) as (_ & _ & Hsat).
specialize (Hsat Hv).
apply (double_whole _ 200); [|reflexivity].
rewrite Hsat. reflexivity.
Qed.

End PulseFacts.

Lemma pulse_diameter_bounds_witness :
  (LivePulse.diameter (fun x => x) 1 (1 # 2) == 200)%Q
  /\ (80 <= LivePulse.diameter (fun x => x) (1 # 256) 0)%Q
  /\ (LivePulse.diameter (fun x => x) (1 # 256) 0
      <= LivePulse.diameter (fun x => x) (1 # 128) 0)%Q.
Proof.
assert (Hid : Number.rounding (fun x : Q => x)).
{ split; [intros x y Hxy; exact Hxy | intros x _; reflexivity]. }
split; [|split].
- apply (proj2 (proj2 (proj2 (proj2
           (pulse_diameter_bounds (fun x => x) Hid 1 (1 # 2)))))).
  vm_compute. discriminate.
- apply (proj1 (proj2 (pulse_diameter_bounds (fun x => x) Hid (1 # 256) 0))).
  vm_compute. discriminate.
- apply (proj1 (proj2 (proj2 (proj2
           (pulse_diameter_bounds (fun x => x) Hid (1 # 256) 0))))).
  vm_compute. discriminate.
Defined.


Section GeminiFacts.

Lemma count_app (e : Gemini.effect) (e1 e2 : list Gemini.effect) :
  Gemini.count e (e1 ++ e2) = (Gemini.count e e1 + Gemini.count e e2)%nat.
Proof. unfold Gemini.count. now rewrite List.filter_app, length_app. Qed.

Lemma perform_accounted (hasKey : bool) (r : Gemini.request) (g : Gemini.globals) :
  Gemini.accounted hasKey 1 g (fst (Gemini.perform hasKey r g))
    (snd (Gemini.perform hasKey r g)).
Proof.
unfold Gemini.accounted.
destruct g as [cl ch n].
destruct r, hasKey, cl, ch as [c|]; cbn;
  repeat split; try reflexivity; try discriminate; auto.
Qed.

Lemma accounted_trans (hasKey : bool) (n m : nat) (g g1 g2 : Gemini.globals)
  (e1 e2 : list Gemini.effect) :
  Gemini.accounted hasKey n g g1 e1 ->
  Gemini.accounted hasKey m g1 g2 e2 ->
  Gemini.accounted hasKey (n + m) g g2 (e1 ++ e2).
Proof.
intros (A1 & A2 & A3 & A4 & A5) (B1 & B2 & B3 & B4 & B5).
unfold Gemini.accounted. rewrite !count_app.
split; [auto|]. split; [lia|]. split; [lia|]. split; [auto|].
intros Hk Hc. destruct (A5 Hk Hc) as [-> Hn].
destruct (B5 Hk Hc) as [-> Hm]. split; [reflexivity|lia].
Qed.

Lemma performAll_accounted (hasKey : bool) (rs : list Gemini.request) :
  forall g,
    Gemini.accounted hasKey (length rs) g
      (fst (Gemini.performAll hasKey rs g)) (snd (Gemini.performAll hasKey rs g)).
Proof.
induction rs as [|r rs IH]; intros g.
- cbn. unfold Gemini.accounted. repeat split; auto.
- cbn [Gemini.performAll length].
  pose proof (perform_accounted hasKey r g) as Hstep.
  destruct (Gemini.perform hasKey r g) as [g1 e1]. cbn [fst snd] in Hstep.
  specialize (IH g1).
  destruct (Gemini.performAll hasKey rs g1) as [g2 e2]. cbn [fst snd] in *.
  exact (accounted_trans hasKey 1 (length rs) g g1 g2 e1 e2 Hstep IH).
Qed.

(** X30: the client and the chat session are created once. Over any run of
    [initializeGemini], [getChatSession] and session constructions, from any
    state of the module's variables, a client is created only when there was
    none and then only once, and likewise the chat session; a chat session
    that [getChatSession] has returned is what every later call returns,
    without creating anything. Without an API key nothing is ever created:
    each request logs one error and leaves the variables as they were, and
    [getChatSession] and the constructor raise. *)
Theorem client_and_chat_created_once (hasKey : bool) (rs : list Gemini.request)
  (g : Gemini.globals) :
  let g' := fst (Gemini.performAll hasKey rs g) in
  let effects := snd (Gemini.performAll hasKey rs g) in
  (Gemini.count Gemini.NewClient effects
   = if Gemini.client g then 0 else if Gemini.client g' then 1 else 0)%nat
  /\ (Gemini.count Gemini.CreateChat effects
      = match Gemini.chatSession g, Gemini.chatSession g' with
        | None, Some _ => 1
        | _, _ => 0
        end)%nat
  /\ (hasKey = false -> Gemini.client g = false ->
      g' = g
      /\ Gemini.count (Gemini.ConsoleError EmptyString) effects = length rs
      /\ (exists m, Gemini.getChatSession hasKey g'
                    = (Gemini.Thrown m, g',
                       [Gemini.ConsoleError "API Key is missing!"]))
      /\ (exists m, Gemini.constructor hasKey g'
                    = (Gemini.Thrown m, g',
                       [Gemini.ConsoleError "API Key is missing!"])))
  /\ (forall chat g1 e1,
        Gemini.getChatSession hasKey g = (Gemini.Returned chat, g1, e1) ->
        Gemini.getChatSession hasKey (fst (Gemini.performAll hasKey rs g1))
        = (Gemini.Returned chat, fst (Gemini.performAll hasKey rs g1), [])).
Proof.
cbn zeta.
pose proof (performAll_accounted hasKey rs g) as (A1 & A2 & A3 & A4 & A5).
destruct (Gemini.performAll hasKey rs g) as [g' effects]. cbn [fst snd] in *.
split.
{ destruct (Gemini.client g); [rewrite (A1 eq_refl) in A2; lia|].
  destruct (Gemini.client g'); lia. }
split.
{ destruct (Gemini.chatSession g) as [c|].
  - rewrite (A4 c eq_refl) in A3. cbn in A3. lia.
  - destruct (Gemini.chatSession g'); cbn in A3; lia. }
split.
{ intros Hk Hc. destruct (A5 Hk Hc) as [-> Hn].
  split; [reflexivity|]. split; [exact Hn|].
  subst hasKey. unfold Gemini.getChatSession, Gemini.constructor.
  rewrite Hc. cbn. rewrite Hc. cbn. split; eexists; reflexivity. }
intros chat g1 e1 Hget.
assert (Hg1 : Gemini.client g1 = true /\ Gemini.chatSession g1 = Some chat).
{ unfold Gemini.getChatSession in Hget.
  destruct g as [cl ch n]. destruct cl, hasKey, ch as [c|]; cbn in Hget;
    try discriminate Hget; injection Hget as <- <- _; split; reflexivity. }
destruct Hg1 as [Hcl Hch].
pose proof (performAll_accounted hasKey rs g1) as (B1 & _ & _ & B4 & _).
destruct (Gemini.performAll hasKey rs g1) as [g2 e2]. cbn [fst snd] in *.
unfold Gemini.getChatSession. rewrite (B1 Hcl). cbn.
rewrite (B1 Hcl). cbn. rewrite (B4 chat Hch). reflexivity.
Qed.

Lemma client_and_chat_created_once_witness :
  Gemini.getChatSession true
    (fst (Gemini.performAll true [Gemini.NewSession; Gemini.GetChat]
            (snd (fst (Gemini.getChatSession true Gemini.initial)))))
  = (Gemini.Returned 0%nat,
     fst (Gemini.performAll true [Gemini.NewSession; Gemini.GetChat]
            (snd (fst (Gemini.getChatSession true Gemini.initial)))), [])
  /\ fst (Gemini.performAll false [Gemini.GetChat; Gemini.NewSession] Gemini.initial)
     = Gemini.initial.
Proof.
split.
- apply (proj2 (proj2 (proj2 (client_and_chat_created_once true
           [Gemini.NewSession; Gemini.GetChat] Gemini.initial)))
           0%nat _ [Gemini.NewClient; Gemini.CreateChat]).
  reflexivity.
- apply (proj1 (proj2 (proj2 (client_and_chat_created_once false
           [Gemini.GetChat; Gemini.NewSession] Gemini.initial)))); reflexivity.
Defined.

End GeminiFacts.
